(** * The Hysteria client core ([pkg/core/client.go]), embedded in Rocq

    The client owns one QUIC connection to the relay, re-dials it when a
    stream cannot be opened, and multiplexes UDP sessions over QUIC
    datagrams.  The embedding follows the Go source function by function.

    - Everything the client asks of the outside (the packet-conn factory,
      the QUIC stack, streams, the [struc] codec on a stream, the reconnect
      callback, [math/rand], [go] statements) is a [Call]; a function of the
      source is a program over these calls, and [run] executes a program
      against an arbitrary environment while recording the calls made and
      the answers received.
    - The fields of [Client], the session maps and the channels are program
      state.  Maps and channels live in a store and are named by reference,
      because [DialUDP] closes over the map it registered in and [connect]
      re-assigns the field.
    - A Go panic (nil dereference, write to a nil map, close of a closed
      channel, send on a closed channel) is an outcome of its own.
    - The two mutexes are not modelled: every function below is executed
      as one uninterrupted run. *)

From Stdlib Require Import ZArith Lia Ascii.
From stdpp Require Import gmap strings list.

Set Implicit Arguments.
Unset Strict Implicit.

Local Open Scope Z_scope.

(** ** Values *)

Definition bytes := list Byte.byte.

(** Go's [error].  [ErrClosed] is the package variable of that name;
    [ErrNet] is an error that implements [net.Error]; [ErrMessageToLarge]
    is [quic.ErrMessageToLarge], an integer carrying the largest datagram
    payload the connection accepts; [ErrPlain] is any other error, known
    by its text. *)
Inductive error : Type :=
| ErrClosed
| ErrPlain (msg : string)
| ErrNet (msg : string) (temporary : bool)
| ErrMessageToLarge (maxSize : Z).

Definition errorString (e : error) : string :=
  match e with
  | ErrClosed => "closed"
  | ErrPlain msg => msg
  | ErrNet msg _ => msg
  | ErrMessageToLarge _ => "message too large"
  end.

(** [nErr, ok := err.(net.Error); ok && nErr.Temporary()] *)
Definition isTemporary (e : error) : bool :=
  match e with
  | ErrNet _ temporary => temporary
  | _ => false
  end.

(** A Go result pair [(v, err)] of a call that yields a value or fails. *)
Inductive result (A : Type) : Type :=
| Ok (a : A)
| Err (e : error).
Arguments Ok {A} a.
Arguments Err {A} e.

(** [fmt.Errorf(prefix + "%s", msg)] *)
Definition Errorf (pfx msg : string) : error := ErrPlain (pfx +:+ msg).

(** Handles of the outside world. *)
Definition PktConn := nat.
Definition QuicConn := nat.
Definition Stream := nat.
Definition Addr := nat.
Definition TLSConfig := nat.

Record QuicConfig : Type := { DisablePathMTUDiscovery : bool }.

(** Modelled from the spec: the three application-close values
    [qErrorGeneric], [qErrorProtocol] and [qErrorAuth], declared outside
    client.go ("distinct codes for generic close, protocol error, and auth
    error"). *)
Inductive qError : Type := qErrorGeneric | qErrorProtocol | qErrorAuth.

(** Modelled from the spec: the frames of the protocol, declared outside
    client.go.  The fields are the ones client.go reads and writes. *)
Record maxRate : Type := { SendBPS : Z; RecvBPS : Z }.
Record clientHello : Type := { chRate : maxRate; chAuth : bytes }.
Record serverHello : Type := { shOK : bool; shRate : maxRate; shMessage : string }.
Record clientRequest : Type := { crUDP : bool; crHost : string; crPort : Z }.
Record serverResponse : Type :=
  { srOK : bool; srUDPSessionID : N; srMessage : string }.
Record udpMessage : Type :=
  { SessionID : N; Host : string; Port : Z;
    MsgID : Z; FragID : Z; FragCount : Z; Data : bytes }.

(** [&qStream{stream}]: the wrapper is never nil, the wrapped stream may be. *)
Record qStream : Type := { qsStream : option Stream }.

(** The closure stored in [hyUDPConn.CloseFunc]: its two captured
    variables, [sessionMap] (a map reference, possibly nil) and
    [sr.UDPSessionID]. *)
Record closeFunc : Type := { sessionMap : option nat; cfSessionID : N }.

Record hyUDPConn : Type :=
  { Session : option QuicConn;
    hStream : option qStream;
    CloseFunc : closeFunc;
    UDPSessionID : N;
    MsgCh : nat }.

Record hyTCPConn : Type :=
  { Orig : option qStream; PseudoLocalAddr : Addr; PseudoRemoteAddr : Addr }.

(** ** Calls to the outside world *)

Inductive Call : Type -> Type :=
| PktConnFunc (serverAddr : string) : Call (result (PktConn * Addr))
| PktConnClose (pc : PktConn) : Call (option error)
| QuicDial (pc : PktConn) (sAddr : Addr) (serverName : string)
    (tls : TLSConfig) (cfg : QuicConfig) : Call (result QuicConn)
| CloseWithError (qc : QuicConn) (code : Z) (msg : string) : Call (option error)
| QErrorSend (e : qError) (qc : QuicConn) : Call (option error)
| OpenStreamSync (qc : QuicConn) (timeout : Z) : Call (result Stream)
| OpenStream (qc : QuicConn) : Call (result Stream)
| SetCongestionControl (qc : QuicConn) (brutalBPS : Z) : Call unit
| ReceiveMessage (qc : QuicConn) : Call (result bytes)
| SendMessage (qc : QuicConn) (b : bytes) : Call (option error)
| LocalAddr (qc : QuicConn) : Call Addr
| RemoteAddr (qc : QuicConn) : Call Addr
| StreamWrite (s : Stream) (b : bytes) : Call (Z * option error)
| StreamRead (s : Stream) (len : Z) : Call (Z * option error)
| StreamClose (s : Stream) : Call (option error)
| PackClientHello (s : Stream) (h : clientHello) : Call (option error)
| UnpackServerHello (s : Stream) : Call (result serverHello)
| PackClientRequest (s : Stream) (r : clientRequest) : Call (option error)
| UnpackServerResponse (s : Stream) : Call (result serverResponse)
| ReconnectFunc (err : error) : Call unit
| RandInt63 : Call Z
| GoHandleMessage (qc : QuicConn) : Call unit
| GoHold (h : hyUDPConn) : Call unit.

(** One call together with the answer it received. *)
Inductive Event : Type :=
| Ev (X : Type) (c : Call X) (x : X).

(** ** Programs *)

Inductive Prog (A : Type) : Type :=
| Ret (a : A)
| Panic (msg : string)
| Do (X : Type) (c : Call X) (k : X -> Prog A).
Arguments Ret {A} a.
Arguments Panic {A} msg.
Arguments Do {A X} c k.

Fixpoint pbind {A B : Type} (p : Prog A) (f : A -> Prog B) : Prog B :=
  match p with
  | Ret a => f a
  | Panic msg => Panic msg
  | Do c k => Do c (fun x => pbind (k x) f)
  end.

Inductive Outcome (A : Type) : Type :=
| Done (a : A)
| Panicked (msg : string).
Arguments Done {A} a.
Arguments Panicked {A} msg.

(** An environment answers every call, and may change while doing so. *)
Class Env : Type :=
  { World : Type;
    handle : forall X : Type, Call X -> World -> X * World }.

Section Run.
Context {E : Env}.

Fixpoint run {A : Type} (p : Prog A) (w : World)
  : Outcome A * World * list Event :=
  match p with
  | Ret a => (Done a, w, [])
  | Panic msg => (Panicked msg, w, [])
  | Do c k =>
      let '(x, w1) := handle c w in
      let '(o, w2, tr) := run (k x) w1 in
      (o, w2, Ev c x :: tr)
  end.

Definition outcome {A : Type} (r : Outcome A * World * list Event) : Outcome A :=
  r.1.1.
Definition world {A : Type} (r : Outcome A * World * list Event) : World :=
  r.1.2.
Definition trace {A : Type} (r : Outcome A * World * list Event) : list Event :=
  r.2.
End Run.

(** ** Code of the repository that client.go calls but does not contain *)

(** Modelled from the spec: [utils.SplitHostPort] ("parse addr into
    host+port; fail on malformed input"), the defragger ([Feed] takes "one
    decoded UDP message" and returns "a fully assembled message or
    nothing"), the fragmenter [fragUDPMessage] ("given a message and a
    maximum single-datagram payload size"), the constants
    [protocolVersion], [protocolTimeout] and
    [pmtud.DisablePathMTUDiscovery].  They are parameters of the
    development.  So are the library functions [net.SplitHostPort] and the
    [struc] codec applied to a byte buffer. *)
Class Deps : Type :=
  { defragger : Type;
    defragger0 : defragger;
    Feed : defragger -> udpMessage -> defragger * option udpMessage;
    fragUDPMessage : udpMessage -> Z -> list udpMessage;
    SplitHostPort : string -> result (string * Z);
    netSplitHostPort : string -> result (string * string);
    packUDPMessage : udpMessage -> bytes;
    unpackUDPMessage : bytes -> option udpMessage;
    protocolVersion : Byte.byte;
    protocolTimeout : Z;
    pmtudDisablePathMTUDiscovery : bool }.

(** ** Program state *)

(** [make(chan *udpMessage, n)]: a FIFO of at most [chCap] messages. *)
Record Chan : Type :=
  { chBuf : list udpMessage; chCap : nat; chClosed : bool }.

Section Client.
Context {D : Deps}.

Record Client : Type :=
  { serverAddr : string;
    serverName : string;
    sendBPS : Z;
    recvBPS : Z;
    auth : bytes;
    tlsConfig : TLSConfig;
    quicConfig : QuicConfig;
    pktConn : option PktConn;
    quicConn : option QuicConn;
    closed : bool;
    udpSessionMap : option nat;
    udpDefragger : defragger }.

(** The client together with the store of maps and channels. *)
Record State : Type :=
  { self : Client;
    maps : gmap nat (gmap N nat);
    chans : gmap nat Chan }.

Definition M (A : Type) : Type := State -> Prog (A * State).

Definition ret {A : Type} (a : A) : M A := fun st => Ret (a, st).
Definition bind {A B : Type} (m : M A) (f : A -> M B) : M B :=
  fun st => pbind (m st) (fun r => f r.1 r.2).
Definition call {X : Type} (c : Call X) : M X :=
  fun st => Do c (fun x => Ret (x, st)).
Definition panic {A : Type} (msg : string) : M A := fun _ => Panic msg.
Definition getClient : M Client := fun st => Ret (self st, st).
Definition setClient (f : Client -> Client) : M unit :=
  fun st => Ret (tt, {| self := f (self st); maps := maps st; chans := chans st |}).

Notation "'let!' x ':=' m 'in' k" := (bind m (fun x => k))
  (at level 10, x pattern, m at level 100, k at level 200).

(** *** Field updates *)

Definition withConn (pc : PktConn) (qc : QuicConn) (c : Client) : Client :=
  {| serverAddr := serverAddr c; serverName := serverName c;
     sendBPS := sendBPS c; recvBPS := recvBPS c; auth := auth c;
     tlsConfig := tlsConfig c; quicConfig := quicConfig c;
     pktConn := Some pc; quicConn := Some qc; closed := closed c;
     udpSessionMap := udpSessionMap c; udpDefragger := udpDefragger c |}.

Definition withClosed (b : bool) (c : Client) : Client :=
  {| serverAddr := serverAddr c; serverName := serverName c;
     sendBPS := sendBPS c; recvBPS := recvBPS c; auth := auth c;
     tlsConfig := tlsConfig c; quicConfig := quicConfig c;
     pktConn := pktConn c; quicConn := quicConn c; closed := b;
     udpSessionMap := udpSessionMap c; udpDefragger := udpDefragger c |}.

Definition withSessionMap (r : option nat) (c : Client) : Client :=
  {| serverAddr := serverAddr c; serverName := serverName c;
     sendBPS := sendBPS c; recvBPS := recvBPS c; auth := auth c;
     tlsConfig := tlsConfig c; quicConfig := quicConfig c;
     pktConn := pktConn c; quicConn := quicConn c; closed := closed c;
     udpSessionMap := r; udpDefragger := udpDefragger c |}.

Definition withDefragger (d : defragger) (c : Client) : Client :=
  {| serverAddr := serverAddr c; serverName := serverName c;
     sendBPS := sendBPS c; recvBPS := recvBPS c; auth := auth c;
     tlsConfig := tlsConfig c; quicConfig := quicConfig c;
     pktConn := pktConn c; quicConn := quicConn c; closed := closed c;
     udpSessionMap := udpSessionMap c; udpDefragger := d |}.

(** *** Maps and channels of the Go runtime *)

(** The contents of a map value; a nil map reads as empty. *)
Definition mapAt (st : State) (r : option nat) : gmap N nat :=
  match r with
  | Some a => default ∅ (maps st !! a)
  | None => ∅
  end.

(** [make(map[uint32]chan *udpMessage)] *)
Definition makeMap : M nat :=
  fun st =>
    let a := fresh (dom (maps st)) in
    Ret (a, {| self := self st; maps := <[a := ∅]> (maps st); chans := chans st |}).

(** [make(chan *udpMessage, n)] *)
Definition makeChan (n : nat) : M nat :=
  fun st =>
    let a := fresh (dom (chans st)) in
    Ret (a, {| self := self st; maps := maps st;
               chans := <[a := {| chBuf := []; chCap := n; chClosed := false |}]> (chans st) |}).

(** [ch, ok := m[id]] *)
Definition mapLookup (r : option nat) (id : N) : M (option nat) :=
  fun st => Ret (mapAt st r !! id, st).

(** [m[id] = ch]; panics on a nil map. *)
Definition mapStore (r : option nat) (id : N) (ch : nat) : M unit :=
  fun st =>
    match r with
    | None => Panic "assignment to entry in nil map"
    | Some a =>
        Ret (tt, {| self := self st;
                    maps := <[a := <[id := ch]> (mapAt st r)]> (maps st);
                    chans := chans st |})
    end.

(** [delete(m, id)]; no effect on a nil map. *)
Definition mapDelete (r : option nat) (id : N) : M unit :=
  fun st =>
    match r with
    | None => Ret (tt, st)
    | Some a =>
        Ret (tt, {| self := self st;
                    maps := <[a := delete id (mapAt st r)]> (maps st);
                    chans := chans st |})
    end.

(** [close(ch)]; panics when the channel is closed already. *)
Definition closeChan (ch : nat) : M unit :=
  fun st =>
    match chans st !! ch with
    | None => Panic "close of nil channel"
    | Some c =>
        if chClosed c then Panic "close of closed channel"
        else Ret (tt, {| self := self st; maps := maps st;
                         chans := <[ch := {| chBuf := chBuf c; chCap := chCap c;
                                             chClosed := true |}]> (chans st) |})
    end.

(** [select { case ch <- m: default: }]; [true] when the message was
    queued.  Sending on a closed channel panics. *)
Definition trySend (ch : nat) (m : udpMessage) : M bool :=
  fun st =>
    match chans st !! ch with
    | None => Ret (false, st)
    | Some c =>
        if chClosed c then Panic "send on closed channel"
        else if (length (chBuf c) <? chCap c)%nat
        then Ret (true, {| self := self st; maps := maps st;
                           chans := <[ch := {| chBuf := chBuf c ++ [m]; chCap := chCap c;
                                               chClosed := false |}]> (chans st) |})
        else Ret (false, st)
    end.

(** A method call on an interface value that may be nil. *)
Definition onConn {A : Type} (qc : option QuicConn) (f : QuicConn -> M A) : M A :=
  match qc with
  | Some q => f q
  | None => panic "nil pointer dereference"
  end.

Definition onStream {A : Type} (s : option qStream) (f : Stream -> M A) : M A :=
  match s with
  | Some {| qsStream := Some x |} => f x
  | _ => panic "nil pointer dereference"
  end.

(** *** connect and the control handshake *)

(** [Client.handleControlStream] *)
Definition handleControlStream (qc : QuicConn) (stream : Stream)
  : M (bool * string * option error) :=
  let! c := getClient in
  let! w := call (StreamWrite stream [protocolVersion]) in
  match w.2 with
  | Some err => ret (false, EmptyString, Some err)
  | None =>
      let! e := call (PackClientHello stream
                        {| chRate := {| SendBPS := sendBPS c; RecvBPS := recvBPS c |};
                           chAuth := auth c |}) in
      match e with
      | Some err => ret (false, EmptyString, Some err)
      | None =>
          let! r := call (UnpackServerHello stream) in
          match r with
          | Err err => ret (false, EmptyString, Some err)
          | Ok sh =>
              let! _ := (if shOK sh
                         then call (SetCongestionControl qc (RecvBPS (shRate sh)))
                         else ret tt) in
              ret (shOK sh, shMessage sh, None)
          end
      end
  end.

(** [Client.connect] *)
Definition connect : M (option error) :=
  let! c := getClient in
  let! _ := match quicConn c with
            | Some qc => let! _ := call (CloseWithError qc 0 EmptyString) in ret tt
            | None => ret tt
            end in
  let! _ := match pktConn c with
            | Some pc => let! _ := call (PktConnClose pc) in ret tt
            | None => ret tt
            end in
  let! r := call (PktConnFunc (serverAddr c)) in
  match r with
  | Err err => ret (Some err)
  | Ok (pc, sAddr) =>
      let! r := call (QuicDial pc sAddr (serverName c) (tlsConfig c) (quicConfig c)) in
      match r with
      | Err err =>
          let! _ := call (PktConnClose pc) in
          ret (Some err)
      | Ok qc =>
          let! r := call (OpenStreamSync qc protocolTimeout) in
          match r with
          | Err err =>
              let! _ := call (QErrorSend qErrorProtocol qc) in
              let! _ := call (PktConnClose pc) in
              ret (Some err)
          | Ok stream =>
              let! h := handleControlStream qc stream in
              match h with
              | (_, _, Some err) =>
                  let! _ := call (QErrorSend qErrorProtocol qc) in
                  let! _ := call (PktConnClose pc) in
                  ret (Some err)
              | (false, msg, None) =>
                  let! _ := call (QErrorSend qErrorAuth qc) in
                  let! _ := call (PktConnClose pc) in
                  ret (Some (Errorf "auth error: " msg))
              | (true, _, None) =>
                  let! m := makeMap in
                  let! _ := setClient (withSessionMap (Some m)) in
                  let! _ := call (GoHandleMessage qc) in
                  let! _ := setClient (withConn pc qc) in
                  ret None
              end
          end
      end
  end.

(** [NewClient]: the client it returns, with an empty store.  The
    config, the packet-conn factory and the reconnect callback the caller
    passes are taken to be non-nil: the config is a value here, and the
    factory and the callback are calls to the outside. *)
Definition NewClient (serverAddr : string) (auth : bytes) (tls : TLSConfig)
    (cfg : QuicConfig) (sendBPS recvBPS : Z) : Prog (result State) :=
  let cfg1 := {| DisablePathMTUDiscovery :=
                   DisablePathMTUDiscovery cfg || pmtudDisablePathMTUDiscovery |} in
  let serverName := match netSplitHostPort serverAddr with
                    | Ok (host, _) => host
                    | Err _ => EmptyString
                    end in
  let c := {| serverAddr := serverAddr; serverName := serverName;
              sendBPS := sendBPS; recvBPS := recvBPS; auth := auth;
              tlsConfig := tls; quicConfig := cfg1;
              pktConn := None; quicConn := None; closed := false;
              udpSessionMap := None; udpDefragger := defragger0 |} in
  pbind (connect {| self := c; maps := ∅; chans := ∅ |})
        (fun r => match r.1 with
                  | Some err => Ret (Err err)
                  | None => Ret (Ok r.2)
                  end).

(** *** The datagram pump *)

(** [dfMsg := c.udpDefragger.Feed(udpMsg)] *)
Definition feed (m : udpMessage) : M (option udpMessage) :=
  let! c := getClient in
  let r := Feed (udpDefragger c) m in
  let! _ := setClient (withDefragger r.1) in
  ret r.2.

(** One turn of the [for] loop of [Client.handleMessage]; [false] is
    [break], [true] goes round again. *)
Definition handleMessageIter (qc : QuicConn) : M bool :=
  let! r := call (ReceiveMessage qc) in
  match r with
  | Err _ => ret false
  | Ok msg =>
      match unpackUDPMessage msg with
      | None => ret true
      | Some udpMsg =>
          let! df := feed udpMsg in
          match df with
          | None => ret true
          | Some dfMsg =>
              let! c := getClient in
              let! och := mapLookup (udpSessionMap c) (SessionID dfMsg) in
              match och with
              | Some ch => let! _ := trySend ch dfMsg in ret true
              | None => ret true
              end
          end
      end
  end.

(** How a loop run for a bounded number of turns ended. *)
Inductive LoopEnd : Type := LoopExit | LoopFuel.

(** [Client.handleMessage], run for at most [fuel] turns. *)
Fixpoint handleMessage (fuel : nat) (qc : QuicConn) : M LoopEnd :=
  match fuel with
  | O => ret LoopFuel
  | S n =>
      let! again := handleMessageIter qc in
      if again then handleMessage n qc else ret LoopExit
  end.

(** *** Opening a stream *)

(** [Client.openStreamWithReconnect].  [OpenStream] answers with a
    stream or with an error, never both: quic-go returns a nil stream
    next to a non-nil error. *)
Definition openStreamWithReconnect
  : M (option QuicConn * option qStream * option error) :=
  let! c := getClient in
  if closed c then ret (None, None, Some ErrClosed)
  else
    let! r := onConn (quicConn c) (fun qc => call (OpenStream qc)) in
    match r with
    | Ok stream => ret (quicConn c, Some {| qsStream := Some stream |}, None)
    | Err err =>
        if isTemporary err then ret (None, None, Some err)
        else
          let! _ := call (ReconnectFunc err) in
          let! e := connect in
          match e with
          | Some err1 => ret (None, None, Some err1)
          | None =>
              let! c1 := getClient in
              let! r1 := onConn (quicConn c1) (fun qc => call (OpenStream qc)) in
              match r1 with
              | Ok stream => ret (quicConn c1, Some {| qsStream := Some stream |}, None)
              | Err err1 => ret (quicConn c1, Some {| qsStream := None |}, Some err1)
              end
          end
    end.

(** [_ = stream.Close()] on the stream a dial obtained. *)
Definition closeStream (s : option qStream) : M (option error) :=
  onStream s (fun x => call (StreamClose x)).

(** [Client.DialTCP] *)
Definition DialTCP (addr : string) : M (option hyTCPConn * option error) :=
  match SplitHostPort addr with
  | Err err => ret (None, Some err)
  | Ok (host, port) =>
      let! o := openStreamWithReconnect in
      match o with
      | (_, _, Some err) => ret (None, Some err)
      | (session, stream, None) =>
          let! e := onStream stream (fun s =>
                      call (PackClientRequest s
                              {| crUDP := false; crHost := host; crPort := port |})) in
          match e with
          | Some err => let! _ := closeStream stream in ret (None, Some err)
          | None =>
              let! r := onStream stream (fun s => call (UnpackServerResponse s)) in
              match r with
              | Err err => let! _ := closeStream stream in ret (None, Some err)
              | Ok sr =>
                  if srOK sr then
                    let! la := onConn session (fun qc => call (LocalAddr qc)) in
                    let! ra := onConn session (fun qc => call (RemoteAddr qc)) in
                    ret (Some {| Orig := stream; PseudoLocalAddr := la;
                                 PseudoRemoteAddr := ra |}, None)
                  else
                    let! _ := closeStream stream in
                    ret (None, Some (Errorf "connection rejected: " (srMessage sr)))
              end
          end
      end
  end.

(** [Client.DialUDP] *)
Definition DialUDP : M (option hyUDPConn * option error) :=
  let! o := openStreamWithReconnect in
  match o with
  | (_, _, Some err) => ret (None, Some err)
  | (session, stream, None) =>
      let! e := onStream stream (fun s =>
                  call (PackClientRequest s
                          {| crUDP := true; crHost := EmptyString; crPort := 0 |})) in
      match e with
      | Some err => let! _ := closeStream stream in ret (None, Some err)
      | None =>
          let! r := onStream stream (fun s => call (UnpackServerResponse s)) in
          match r with
          | Err err => let! _ := closeStream stream in ret (None, Some err)
          | Ok sr =>
              if srOK sr then
                let! nCh := makeChan 1024 in
                let! c := getClient in
                let sessionMap := udpSessionMap c in
                let! _ := mapStore sessionMap (srUDPSessionID sr) nCh in
                let pktConn :=
                  {| Session := session;
                     hStream := stream;
                     CloseFunc := {| sessionMap := sessionMap;
                                     cfSessionID := srUDPSessionID sr |};
                     UDPSessionID := srUDPSessionID sr;
                     MsgCh := nCh |} in
                let! _ := call (GoHold pktConn) in
                ret (Some pktConn, None)
              else
                let! _ := closeStream stream in
                ret (None, Some (Errorf "connection rejected: " (srMessage sr)))
          end
      end
  end.

(** [Client.Close] *)
Definition Close : M (option error) :=
  let! c := getClient in
  let! err := onConn (quicConn c) (fun qc => call (QErrorSend qErrorGeneric qc)) in
  let! _ := match pktConn c with
            | Some pc => call (PktConnClose pc)
            | None => panic "nil pointer dereference"
            end in
  let! _ := setClient (withClosed true) in
  ret err.

(** *** The UDP handle *)

(** The body of the closure assigned to [CloseFunc] in [DialUDP]. *)
Definition runCloseFunc (f : closeFunc) : M unit :=
  let! och := mapLookup (sessionMap f) (cfSessionID f) in
  match och with
  | Some ch =>
      let! _ := closeChan ch in
      mapDelete (sessionMap f) (cfSessionID f)
  | None => ret tt
  end.

(** [hyUDPConn.Close] *)
Definition hyUDPConn_Close (h : hyUDPConn) : M (option error) :=
  let! _ := runCloseFunc (CloseFunc h) in
  closeStream (hStream h).

(** [hyUDPConn.Hold], run for at most [fuel] reads. *)
Fixpoint Hold (fuel : nat) (h : hyUDPConn) : M LoopEnd :=
  match fuel with
  | O => ret LoopFuel
  | S n =>
      let! r := onStream (hStream h) (fun s => call (StreamRead s 1024)) in
      match r.2 with
      | Some _ => let! _ := hyUDPConn_Close h in ret LoopExit
      | None => Hold n h
      end
  end.

(** [uint16(x)] *)
Definition uint16 (x : Z) : Z := x mod 2 ^ 16.

(** [rand.Intn(n)] for a positive [n]: a value in [0, n), taken from a
    draw of the generator. *)
Definition randIntn (n : Z) : M Z :=
  let! r := call RandInt63 in
  ret (r mod n).

Definition withMsgID (id : Z) (m : udpMessage) : udpMessage :=
  {| SessionID := SessionID m; Host := Host m; Port := Port m;
     MsgID := id; FragID := FragID m; FragCount := FragCount m; Data := Data m |}.

(** The [for _, fragMsg := range fragMsgs] loop of [hyUDPConn.WriteTo]. *)
Fixpoint sendFrags (session : option QuicConn) (fragMsgs : list udpMessage)
  : M (option error) :=
  match fragMsgs with
  | [] => ret None
  | fragMsg :: rest =>
      let! e := onConn session (fun qc => call (SendMessage qc (packUDPMessage fragMsg))) in
      match e with
      | Some err => ret (Some err)
      | None => sendFrags session rest
      end
  end.

(** [hyUDPConn.WriteTo] *)
Definition WriteTo (h : hyUDPConn) (p : bytes) (addr : string) : M (option error) :=
  match SplitHostPort addr with
  | Err err => ret (Some err)
  | Ok (host, port) =>
      let msg := {| SessionID := UDPSessionID h; Host := host; Port := port;
                    MsgID := 0; FragID := 0; FragCount := 1; Data := p |} in
      let! e := onConn (Session h) (fun qc => call (SendMessage qc (packUDPMessage msg))) in
      match e with
      | Some (ErrMessageToLarge errSize) =>
          let! r := randIntn 0xFFFF in
          let msg1 := withMsgID (uint16 (uint16 r + 1)) msg in
          sendFrags (Session h) (fragUDPMessage msg1 errSize)
      | Some err => ret (Some err)
      | None => ret None
      end
  end.

(** *** Reading a trace *)

Definition isReconnectFunc (e : Event) : bool :=
  match e with
  | Ev (ReconnectFunc _) _ => true
  | _ => false
  end.

(** Every run of [connect] calls the packet-conn factory once, so these
    events count the invocations of [connect]. *)
Definition isPktConnFunc (e : Event) : bool :=
  match e with
  | Ev (PktConnFunc _) _ => true
  | _ => false
  end.

Definition isOpenStream (e : Event) : bool :=
  match e with
  | Ev (OpenStream _) _ => true
  | _ => false
  end.

(** [go c.handleMessage(quicConn)] is the mark of a [connect] that
    succeeded. *)
Definition isGoHandleMessage (e : Event) : bool :=
  match e with
  | Ev (GoHandleMessage _) _ => true
  | _ => false
  end.

(** An application-close was sent, by [qError.Send]. *)
Definition isQErrorSend (e : Event) : bool :=
  match e with
  | Ev (QErrorSend _ _) _ => true
  | _ => false
  end.

Definition isSetCongestionControl (e : Event) : bool :=
  match e with
  | Ev (SetCongestionControl _ _) _ => true
  | _ => false
  end.

Definition isReceiveMessage (e : Event) : bool :=
  match e with
  | Ev (ReceiveMessage _) _ => true
  | _ => false
  end.

(** How many events of a trace satisfy [p]. *)
Fixpoint countEv (p : Event -> bool) (tr : list Event) : nat :=
  match tr with
  | [] => O
  | e :: rest => ((if p e then 1 else 0) + countEv p rest)%nat
  end.

(** The packet conn the factory handed out, if it did. *)
Definition evPktConn (e : Event) : option PktConn :=
  match e with
  | Ev c x =>
      match c in Call X return X -> option PktConn with
      | PktConnFunc _ => fun x => match x with Ok (pc, _) => Some pc | Err _ => None end
      | _ => fun _ => None
      end x
  end.

(** The QUIC connection [quic.Dial] returned, if it did. *)
Definition evQuicConn (e : Event) : option QuicConn :=
  match e with
  | Ev c x =>
      match c in Call X return X -> option QuicConn with
      | QuicDial _ _ _ _ _ => fun x => match x with Ok qc => Some qc | Err _ => None end
      | _ => fun _ => None
      end x
  end.

(** The server hello that was read, if one was. *)
Definition evServerHello (e : Event) : option serverHello :=
  match e with
  | Ev c x =>
      match c in Call X return X -> option serverHello with
      | UnpackServerHello _ => fun x => match x with Ok sh => Some sh | Err _ => None end
      | _ => fun _ => None
      end x
  end.

(** The control stream could not be opened, or a read or write of the
    handshake failed. *)
Definition isHandshakeFailure (e : Event) : bool :=
  match e with
  | Ev c x =>
      match c in Call X return X -> bool with
      | OpenStreamSync _ _ => fun x => match x with Ok _ => false | Err _ => true end
      | StreamWrite _ _ => fun x => match x.2 with Some _ => true | None => false end
      | PackClientHello _ _ => fun x => match x with Some _ => true | None => false end
      | UnpackServerHello _ => fun x => match x with Ok _ => false | Err _ => true end
      | _ => fun _ => false
      end x
  end.

(** [ReceiveMessage] returned an error. *)
Definition isReceiveError (e : Event) : bool :=
  match e with
  | Ev c x =>
      match c in Call X return X -> bool with
      | ReceiveMessage _ => fun x => match x with Ok _ => false | Err _ => true end
      | _ => fun _ => false
      end x
  end.

(** The first event of a trace for which [f] answers. *)
Fixpoint firstEv {A : Type} (f : Event -> option A) (tr : list Event) : option A :=
  match tr with
  | [] => None
  | e :: rest => match f e with Some a => Some a | None => firstEv f rest end
  end.

(** [strings.Contains(s, sub)] *)
Definition contains (s sub : string) : Prop :=
  exists pre suf : string, s = pre +:+ sub +:+ suf.

(** The state a successful [connect] leaves: a fresh empty session map
    is current and the new packet conn and QUIC connection are
    installed. *)
Definition reconnected (pc : PktConn) (qc : QuicConn) (st : State) : State :=
  let a := fresh (dom (maps st)) in
  {| self := withConn pc qc (withSessionMap (Some a) (self st));
     maps := <[a := ∅]> (maps st);
     chans := chans st |}.

(** At most one reconnect: the callback and [connect] run at most once
    and [OpenStream] at most twice. *)
Definition boundedReconnect (tr : list Event) : Prop :=
  (countEv isReconnectFunc tr <= 1)%nat
  /\ (countEv isPktConnFunc tr <= 1)%nat
  /\ (countEv isOpenStream tr <= 2)%nat.

(** The two halves of a Go result pair. *)
Definition valueOf {A : Type} (r : result A) : option A :=
  match r with Ok a => Some a | Err _ => None end.
Definition errorOf {A : Type} (r : result A) : option error :=
  match r with Ok _ => None | Err e => Some e end.

(** The datagram sends of [fragMsgs], one after the other, with the
    answers they received. *)
Definition sendEvents (qc : QuicConn) (fragMsgs : list udpMessage)
    (answers : list (option error)) : list Event :=
  zip_with (fun m a => Ev (SendMessage qc (packUDPMessage m)) a) fragMsgs answers.

(** *** What a user of the client may do, in any order *)

Inductive Op : Type :=
| OpDialTCP (addr : string)
| OpDialUDP
| OpClose
| OpUDPClose (h : hyUDPConn)
| OpWriteTo (h : hyUDPConn) (p : bytes) (addr : string)
| OpHold (fuel : nat) (h : hyUDPConn)
| OpHandleMessage (fuel : nat) (qc : QuicConn).

Definition perform (o : Op) : M unit :=
  match o with
  | OpDialTCP addr => let! _ := DialTCP addr in ret tt
  | OpDialUDP => let! _ := DialUDP in ret tt
  | OpClose => let! _ := Close in ret tt
  | OpUDPClose h => let! _ := hyUDPConn_Close h in ret tt
  | OpWriteTo h p addr => let! _ := WriteTo h p addr in ret tt
  | OpHold fuel h => let! _ := Hold fuel h in ret tt
  | OpHandleMessage fuel qc => let! _ := handleMessage fuel qc in ret tt
  end.

Fixpoint performAll (ops : list Op) : M unit :=
  match ops with
  | [] => ret tt
  | o :: rest => let! _ := perform o in performAll rest
  end.

(** [hyUDPConn.Close] called [n] times in a row. *)
Fixpoint closeTimes (n : nat) (h : hyUDPConn) : M unit :=
  match n with
  | O => ret tt
  | S k => let! _ := hyUDPConn_Close h in closeTimes k h
  end.

(** *** Invariants of the store *)

(** Session [id] of the map at [a] is bound to channel [ch]. *)
Definition entry (st : State) (a : nat) (id : N) (ch : nat) : Prop :=
  exists m : gmap N nat, maps st !! a = Some m /\ m !! id = Some ch.

Definition openChan (st : State) (ch : nat) : Prop :=
  exists c : Chan, chans st !! ch = Some c /\ chClosed c = false.

(** Every channel registered in a session map is open, and no channel
    is registered twice. *)
Record Inv (st : State) : Prop :=
  { inv_open : forall a id ch, entry st a id ch -> openChan st ch;
    inv_inj : forall a1 id1 a2 id2 ch,
        entry st a1 id1 ch -> entry st a2 id2 ch -> a1 = a2 /\ id1 = id2 }.

(** How the state may move in one run of a function of the client:
    the invariant is kept, a closed client stays closed, no map is ever
    removed from the store, and the current session map either stays or
    becomes a map that did not exist before. *)
Record evolves (st st1 : State) : Prop :=
  { ev_inv : Inv st -> Inv st1;
    ev_closed : closed (self st) = true -> closed (self st1) = true;
    ev_dom : dom (maps st) ⊆ dom (maps st1);
    ev_cur : udpSessionMap (self st1) = udpSessionMap (self st)
             \/ (exists a : nat, udpSessionMap (self st1) = Some a
                                 /\ (a ∉ dom (maps st)) /\ (a ∈ dom (maps st1))) }.

(** Every run of [m] that returns moves the state along [R]. *)
Definition preserves {E : Env} {A : Type} (R : State -> State -> Prop) (m : M A) : Prop :=
  forall (st : State) (w : World) (a : A) (st1 : State),
    outcome (run (m st) w) = Done (a, st1) -> R st st1.

(** *** Receiving from a UDP handle *)

(** [strconv.Itoa]: decimal digits, most significant first. *)
Fixpoint digits (fuel : nat) (n : Z) (acc : string) : string :=
  match fuel with
  | O => acc
  | S k =>
      let acc1 := String (ascii_of_nat (48 + Z.to_nat (n mod 10))) acc in
      if n / 10 =? 0 then acc1 else digits k (n / 10) acc1
  end.

Definition Itoa (n : Z) : string :=
  if n <? 0
  then String "-"%char (digits (S (Z.to_nat (Z.log2 (- n)))) (- n) EmptyString)
  else digits (S (Z.to_nat (Z.log2 n))) n EmptyString.

Fixpoint hasColon (s : string) : bool :=
  match s with
  | EmptyString => false
  | String c rest => Ascii.eqb c ":"%char || hasColon rest
  end.

(** [net.JoinHostPort]: a host with a colon in it is put in brackets. *)
Definition JoinHostPort (host port : string) : string :=
  if hasColon host then "[" +:+ host +:+ "]:" +:+ port
  else host +:+ ":" +:+ port.

(** What [<-ch] yields: the oldest queued message; nil from a channel
    that is closed and empty; or nothing yet, when the channel is open
    and empty (or nil) and the receiver has to wait. *)
Inductive Received : Type :=
| RecvMsg (m : udpMessage)
| RecvNil
| RecvWaits.

Definition chanRecv (ch : nat) : M Received :=
  fun st =>
    match chans st !! ch with
    | None => Ret (RecvWaits, st)
    | Some c =>
        match chBuf c with
        | m :: rest =>
            Ret (RecvMsg m,
                 {| self := self st; maps := maps st;
                    chans := <[ch := {| chBuf := rest; chCap := chCap c;
                                        chClosed := chClosed c |}]> (chans st) |})
        | [] => if chClosed c then Ret (RecvNil, st) else Ret (RecvWaits, st)
        end
    end.

(** [hyUDPConn.ReadFrom]; [None] when the receive has to wait. *)
Definition ReadFrom (h : hyUDPConn) : M (option (bytes * string * option error)) :=
  let! r := chanRecv (MsgCh h) in
  match r with
  | RecvWaits => ret None
  | RecvNil => ret (Some ([], EmptyString, Some ErrClosed))
  | RecvMsg msg =>
      ret (Some (Data msg, JoinHostPort (Host msg) (Itoa (Port msg)), None))
  end.

(** [ReadFrom] called [n] times in a row. *)
Fixpoint readMany (n : nat) (h : hyUDPConn)
  : M (list (option (bytes * string * option error))) :=
  match n with
  | O => ret []
  | S k =>
      let! r := ReadFrom h in
      let! rs := readMany k h in
      ret (r :: rs)
  end.

(** What [ReadFrom] returns for a queued message. *)
Definition delivered (m : udpMessage) : option (bytes * string * option error) :=
  Some (Data m, JoinHostPort (Host m) (Itoa (Port m)), None).

(** *** More readers of a trace *)

(** The stream [OpenStream] returned, if it did. *)
Definition evOpened (e : Event) : option Stream :=
  match e with
  | Ev c x =>
      match c in Call X return X -> option Stream with
      | OpenStream _ => fun x => valueOf x
      | _ => fun _ => None
      end x
  end.

(** The server response that was read, if one was. *)
Definition evResponse (e : Event) : option serverResponse :=
  match e with
  | Ev c x =>
      match c in Call X return X -> option serverResponse with
      | UnpackServerResponse _ => fun x => valueOf x
      | _ => fun _ => None
      end x
  end.

(** The arguments of [quic.Dial]. *)
Definition evDialArgs (e : Event) : option (string * TLSConfig * QuicConfig) :=
  match e with
  | Ev (QuicDial _ _ serverName tls cfg) _ => Some (serverName, tls, cfg)
  | _ => None
  end.

(** The address given to the packet-conn factory. *)
Definition evFactoryAddr (e : Event) : option string :=
  match e with
  | Ev (PktConnFunc addr) _ => Some addr
  | _ => None
  end.

(** The client hello that was written. *)
Definition evClientHello (e : Event) : option clientHello :=
  match e with
  | Ev (PackClientHello _ h) _ => Some h
  | _ => None
  end.

(** The datagram [ReceiveMessage] returned, if it did. *)
Definition evDatagram (e : Event) : option bytes :=
  match e with
  | Ev c x =>
      match c in Call X return X -> option bytes with
      | ReceiveMessage _ => fun x => valueOf x
      | _ => fun _ => None
      end x
  end.

(** Every datagram received in the trace fails to decode. *)
Definition allMalformed (tr : list Event) : Prop :=
  Forall (fun e => forall b, evDatagram e = Some b -> unpackUDPMessage b = None) tr.

Definition isSendMessage (e : Event) : bool :=
  match e with
  | Ev (SendMessage _ _) _ => true
  | _ => false
  end.

Definition isRandInt63 (e : Event) : bool :=
  match e with
  | Ev RandInt63 _ => true
  | _ => false
  end.

(** A read of the side stream, and whether it failed. *)
Definition isStreamRead (e : Event) : bool :=
  match e with
  | Ev (StreamRead _ _) _ => true
  | _ => false
  end.

Definition isReadError (e : Event) : bool :=
  match e with
  | Ev c x =>
      match c in Call X return X -> bool with
      | StreamRead _ _ => fun x => match x.2 with Some _ => true | None => false end
      | _ => fun _ => false
      end x
  end.

(** The calls [connect] starts with: the previous QUIC connection is
    closed with code 0, then the previous packet conn. *)
Definition teardown (c : Client) (pre : list Event) : Prop :=
  match quicConn c, pktConn c with
  | Some qc, Some pc =>
      exists a b, pre = [Ev (CloseWithError qc 0 EmptyString) a; Ev (PktConnClose pc) b]
  | Some qc, None => exists a, pre = [Ev (CloseWithError qc 0 EmptyString) a]
  | None, Some pc => exists b, pre = [Ev (PktConnClose pc) b]
  | None, None => pre = []
  end.

(** *** More predicates on the state *)

(** The client holds a connection: what [connect] establishes. *)
Record Connected (st : State) : Prop :=
  { con_inv : Inv st;
    con_quic : is_Some (quicConn (self st));
    con_pkt : is_Some (pktConn (self st));
    con_map : is_Some (udpSessionMap (self st)) }.

(** A handle with a connection and a stream, as [DialUDP] builds it. *)
Definition usable (h : hyUDPConn) : Prop :=
  is_Some (Session h) /\ exists s : Stream, hStream h = Some {| qsStream := Some s |}.

Definition usableOp (o : Op) : Prop :=
  match o with
  | OpUDPClose h => usable h
  | OpWriteTo h _ _ => usable h
  | OpHold _ h => usable h
  | _ => True
  end.

(** Every queue has the capacity [DialUDP] gives it and holds no more
    than that. *)
Definition Bounded (st : State) : Prop :=
  forall (ch : nat) (c : Chan),
    chans st !! ch = Some c -> chCap c = 1024%nat /\ (length (chBuf c) <= 1024)%nat.

(** Channels that are closed in [st] are closed in [st1], with the
    messages they held. *)
Definition keepsClosed (st st1 : State) : Prop :=
  forall (ch : nat) (c : Chan),
    chans st !! ch = Some c -> chClosed c = true -> chans st1 !! ch = Some c.

(** Whatever is registered in [st1] was registered in [st] already, or
    is a channel that did not exist in [st]; no channel of [st] is gone. *)
Definition registersNew (st st1 : State) : Prop :=
  dom (chans st) ⊆ dom (chans st1)
  /\ forall (a : nat) (id : N) (ch : nat),
       entry st1 a id ch -> entry st a id ch \/ (ch ∉ dom (chans st)).

(** A call of a function value the caller gave to [NewClient]: the
    reconnect callback or the packet-conn factory. *)
Definition callsBack (e : Event) : bool := isReconnectFunc e || isPktConnFunc e.
End Client.

Notation "'let!' x ':=' m 'in' k" := (bind m (fun x => k))
  (at level 10, x pattern, m at level 100, k at level 200).

(** ** A reference instance for running the client

    Modelled from the spec: [utils.SplitHostPort], the defragger, the
    fragmenter and the UDP-message codec, none of which is in client.go.
    They follow sections 4.A to 4.C of the specification and serve to run
    the embedding on concrete inputs. *)

Module Reference.

(** Split at the last colon. *)
Fixpoint splitLastColon (s : string) : option (string * string) :=
  match s with
  | EmptyString => None
  | String c rest =>
      match splitLastColon rest with
      | Some (host, port) => Some (String c host, port)
      | None => if Ascii.eqb c ":"%char then Some (EmptyString, rest) else None
      end
  end.

Fixpoint parseDecimal (s : string) (acc : Z) : option Z :=
  match s with
  | EmptyString => Some acc
  | String c rest =>
      let d := Z.of_nat (Ascii.nat_of_ascii c) - 48 in
      if (0 <=? d) && (d <=? 9) then parseDecimal rest (10 * acc + d) else None
  end.

(** Modelled from the spec: "parse addr into host+port; fail on
    malformed input". *)
Definition SplitHostPort (addr : string) : result (string * Z) :=
  match splitLastColon addr with
  | None => Err (ErrPlain "missing port in address")
  | Some (host, EmptyString) => Err (ErrPlain "invalid port")
  | Some (host, port) =>
      match parseDecimal port 0 with
      | Some p => if p <=? 65535 then Ok (host, p) else Err (ErrPlain "invalid port")
      | None => Err (ErrPlain "invalid port")
      end
  end.

Definition netSplitHostPort (addr : string) : result (string * string) :=
  match splitLastColon addr with
  | None => Err (ErrPlain "missing port in address")
  | Some hp => Ok hp
  end.

(** *** Codec: network byte order, length-prefixed fields *)

Definition byteOf (z : Z) : Byte.byte :=
  default Byte.x00 (Byte.of_N (Z.to_N (z mod 256))).
Definition valOf (b : Byte.byte) : Z := Z.of_N (Byte.to_N b).

Definition be16 (z : Z) : bytes := [byteOf (z / 256); byteOf z].
Definition be32 (z : Z) : bytes :=
  [byteOf (z / 16777216); byteOf (z / 65536); byteOf (z / 256); byteOf z].

Definition packUDPMessage (m : udpMessage) : bytes :=
  be32 (Z.of_N (SessionID m))
  ++ [byteOf (Z.of_nat (String.length (Host m)))]
  ++ String.list_byte_of_string (Host m)
  ++ be16 (Port m) ++ be16 (MsgID m)
  ++ [byteOf (FragID m); byteOf (FragCount m)]
  ++ be16 (Z.of_nat (length (Data m))) ++ Data m.

Definition unpackUDPMessage (b : bytes) : option udpMessage :=
  match b with
  | s3 :: s2 :: s1 :: s0 :: hl :: rest =>
      let n := Z.to_nat (valOf hl) in
      if (length rest <? n)%nat then None
      else
        match drop n rest with
        | p1 :: p0 :: m1 :: m0 :: fi :: fc :: d1 :: d0 :: data =>
            let dl := Z.to_nat (valOf d1 * 256 + valOf d0) in
            if (length data <? dl)%nat then None
            else Some {| SessionID := Z.to_N (((valOf s3 * 256 + valOf s2) * 256 + valOf s1)
                                              * 256 + valOf s0);
                         Host := String.string_of_list_byte (take n rest);
                         Port := valOf p1 * 256 + valOf p0;
                         MsgID := valOf m1 * 256 + valOf m0;
                         FragID := valOf fi;
                         FragCount := valOf fc;
                         Data := take dl data |}
        | _ => None
        end
  | _ => None
  end.

(** *** Defragger: one assembly in flight per session *)

Record assembly : Type :=
  { asMsgID : Z; asFrags : list (option bytes) }.

Definition Feed (d : gmap N assembly) (m : udpMessage)
  : gmap N assembly * option udpMessage :=
  if FragCount m <=? 1 then (d, Some m)
  else
    let empty := {| asMsgID := MsgID m;
                    asFrags := replicate (Z.to_nat (FragCount m)) None |} in
    let cur := match d !! SessionID m with
               | Some a => if asMsgID a =? MsgID m then a else empty
               | None => empty
               end in
    match asFrags cur !! Z.to_nat (FragID m) with
    | Some None =>
        let frags := <[Z.to_nat (FragID m) := Some (Data m)]> (asFrags cur) in
        if forallb (fun o => match o with Some _ => true | None => false end) frags
        then (delete (SessionID m) d,
              Some {| SessionID := SessionID m; Host := Host m; Port := Port m;
                      MsgID := 0; FragID := 0; FragCount := 1;
                      Data := concat (omap id frags) |})
        else (<[SessionID m := {| asMsgID := asMsgID cur; asFrags := frags |}]> d, None)
    | _ => (<[SessionID m := cur]> d, None)
    end.

(** *** Fragmenter *)

Fixpoint chunks (fuel budget : nat) (data : bytes) : list bytes :=
  match fuel with
  | O => []
  | S n =>
      match data with
      | [] => []
      | _ => take budget data :: chunks n budget (drop budget data)
      end
  end.

Definition headerSize (m : udpMessage) : Z :=
  4 + 1 + Z.of_nat (String.length (Host m)) + 2 + 2 + 1 + 1 + 2.

Definition fragUDPMessage (m : udpMessage) (maxSize : Z) : list udpMessage :=
  let budget := maxSize - headerSize m in
  if budget <=? 0 then []
  else
    let parts := chunks (length (Data m)) (Z.to_nat budget) (Data m) in
    imap (fun i part =>
            {| SessionID := SessionID m; Host := Host m; Port := Port m;
               MsgID := MsgID m; FragID := Z.of_nat i;
               FragCount := Z.of_nat (length parts); Data := part |}) parts.

#[export] Instance deps : Deps :=
  Build_Deps (∅ : gmap N assembly) Feed fragUDPMessage SplitHostPort netSplitHostPort
    packUDPMessage unpackUDPMessage Byte.x03 10 false.

(** *** A scripted outside world

    The world is the list of replies still to be given, one per call;
    when the script has run out every call succeeds. *)

Inductive Reply : Type :=
| Succeed
| Fail (e : error)
| Hello (sh : serverHello)
| Response (sr : serverResponse)
| Datagram (b : bytes)
| Draw (z : Z).

Definition failure (r : Reply) : option error :=
  match r with Fail e => Some e | _ => None end.

Definition orFail {A : Type} (r : Reply) (a : A) : result A :=
  match r with Fail e => Err e | _ => Ok a end.

Definition reply (X : Type) (c : Call X) (w : list Reply) : X :=
  let r := default Succeed (head w) in
  let n := length w in
  match c in Call X return X with
  | PktConnFunc _ => orFail r (n, n)
  | PktConnClose _ => failure r
  | QuicDial _ _ _ _ _ => orFail r n
  | CloseWithError _ _ _ => failure r
  | QErrorSend _ _ => failure r
  | OpenStreamSync _ _ => orFail r n
  | OpenStream _ => orFail r n
  | SetCongestionControl _ _ => tt
  | ReceiveMessage _ =>
      match r with Datagram b => Ok b | Fail e => Err e | _ => Ok [] end
  | SendMessage _ _ => failure r
  | LocalAddr _ => O
  | RemoteAddr _ => 1%nat
  | StreamWrite _ b =>
      match r with Fail e => (0, Some e) | _ => (Z.of_nat (length b), None) end
  | StreamRead _ _ =>
      match r with Fail e => (0, Some e) | _ => (1, None) end
  | StreamClose _ => failure r
  | PackClientHello _ _ => failure r
  | UnpackServerHello _ =>
      match r with
      | Hello sh => Ok sh
      | Fail e => Err e
      | _ => Ok {| shOK := true; shRate := {| SendBPS := 100; RecvBPS := 100 |};
                   shMessage := EmptyString |}
      end
  | PackClientRequest _ _ => failure r
  | UnpackServerResponse _ =>
      match r with
      | Response sr => Ok sr
      | Fail e => Err e
      | _ => Ok {| srOK := true; srUDPSessionID := 1%N; srMessage := EmptyString |}
      end
  | ReconnectFunc _ => tt
  | RandInt63 => match r with Draw z => z | _ => 0 end
  | GoHandleMessage _ => tt
  | GoHold _ => tt
  end.

#[export] Instance env : Env :=
  {| World := list Reply;
     handle := fun X c w => (reply c w, tail w) |}.

End Reference.

(** ** Concrete runs against the reference instance *)

Module Scenario.
Import Reference.

(** The state of a run that returned, [dflt] otherwise. *)
Definition stateOf {A : Type} (dflt : State)
    (r : Outcome (A * State) * World * list Event) : State :=
  match r.1.1 with
  | Done (_, st) => st
  | Panicked _ => dflt
  end.

(** The client as [NewClient] builds it, before [connect]. *)
Definition stNew : State :=
  {| self := {| serverAddr := "example.com:443"; serverName := "example.com";
                sendBPS := 10; recvBPS := 20; auth := [];
                tlsConfig := O; quicConfig := {| DisablePathMTUDiscovery := false |};
                pktConn := None; quicConn := None; closed := false;
                udpSessionMap := None; udpDefragger := ∅ |};
     maps := ∅; chans := ∅ |}.

(** A server that accepts everything: the client after [NewClient]. *)
Definition st0 : State := Eval vm_compute in stateOf stNew (run (connect stNew) []).

(** The handle and the state after one [DialUDP]. *)
Definition h1 : hyUDPConn :=
  {| Session := Some O;
     hStream := Some {| qsStream := Some O |};
     CloseFunc := {| sessionMap := Some O; cfSessionID := 1%N |};
     UDPSessionID := 1%N;
     MsgCh := O |}.
Definition st1 : State := Eval vm_compute in stateOf st0 (run (DialUDP st0) []).

(** A reconnect after the dial, then a second [DialUDP], for which the
    server hands out session ID 1 again. *)
Definition st3 : State := Eval vm_compute in stateOf st1 (run (connect st1) []).
Definition st4 : State := Eval vm_compute in stateOf st3 (run (performAll [OpDialUDP] st3) []).
Definition st5 : State := Eval vm_compute in stateOf st4 (run (hyUDPConn_Close h1 st4) []).

(** The client after [Close]. *)
Definition stClosed : State := Eval vm_compute in stateOf st0 (run (Close st0) []).

(** A datagram for session 1, and session 1's queue filled with 1024
    copies of it. *)
Definition dgram : udpMessage :=
  {| SessionID := 1%N; Host := "1.2.3.4"; Port := 53;
     MsgID := 0; FragID := 0; FragCount := 1; Data := [Byte.x01; Byte.x02] |}.
Definition fullChan : Chan :=
  {| chBuf := replicate 1024 dgram; chCap := 1024; chClosed := false |}.
Definition stFull : State :=
  {| self := self st1; maps := maps st1; chans := <[O := fullChan]> (chans st1) |}.

(** The server rejects the credentials. *)
Definition rejecting : list Reply :=
  [Succeed; Succeed; Succeed; Succeed; Succeed;
   Hello {| shOK := false; shRate := {| SendBPS := 0; RecvBPS := 0 |};
            shMessage := "bad auth" |}].

(** [OpenStream] fails for good, the reconnect succeeds, and the
    [OpenStream] tried after it fails as well. *)
Definition failingTwice : list Reply :=
  Fail (ErrPlain "connection lost") :: replicate 11 Succeed
    ++ [Fail (ErrPlain "too many open streams")].

(** The state [openStreamWithReconnect] leaves after them. *)
Definition stRetry : State :=
  Eval vm_compute in stateOf st0 (run (openStreamWithReconnect st0) failingTwice).

(** The first datagram is too large for the path, the fragments go
    through. *)
Definition tooLarge : list Reply :=
  [Fail (ErrMessageToLarge 21); Draw 6; Succeed; Succeed].

(** The pump receives one datagram for session 1 and then an error. *)
Definition oneThenError : list Reply :=
  [Datagram (packUDPMessage dgram); Fail (ErrPlain "connection closed")].
End Scenario.

(** ** More runs *)

Module Runs.
Import Reference Scenario.

(** The handle [DialTCP] returns on the accepting server. *)
Definition tcp1 : hyTCPConn :=
  {| Orig := Some {| qsStream := Some O |};
     PseudoLocalAddr := O; PseudoRemoteAddr := 1%nat |}.

(** The stream opens and the request is written, but reading the
    response fails. *)
Definition responseFails : list Reply :=
  [Succeed; Succeed; Fail (ErrPlain "stream reset")].

(** The server answers the request with [OK] false. *)
Definition noRoute : serverResponse :=
  {| srOK := false; srUDPSessionID := 0; srMessage := "no route" |}.
Definition refused : list Reply := [Succeed; Succeed; Response noRoute].

(** The side stream delivers one read and then fails. *)
Definition readFails : list Reply := [Succeed; Fail (ErrPlain "EOF")].

(** The state [Hold] leaves after them. *)
Definition stHeld : State :=
  Eval vm_compute in stateOf st1 (run (Hold 5 h1 st1) readFails).

(** The pump receives a datagram that does not decode and then an
    error. *)
Definition garbage : list Reply :=
  [Datagram [Byte.x00]; Fail (ErrPlain "connection closed")].

(** Session 1's queue holding one datagram: the state after a turn of
    the pump. *)
Definition oneChan : Chan :=
  {| chBuf := [dgram]; chCap := 1024; chClosed := false |}.
Definition stOne : State :=
  Eval vm_compute in stateOf st1 (run (handleMessageIter O st1) oneThenError).

(** A dial on a client whose first session was closed. *)
Definition st6 : State :=
  Eval vm_compute in stateOf st5 (run (performAll [OpDialUDP] st5) []).

(** The pump runs on the reconnected client. *)
Definition st3' : State :=
  Eval vm_compute in stateOf st3 (run (handleMessage 2 O st3) oneThenError).

(** A [DialUDP] on the client with one session: the first [OpenStream]
    fails, the reconnect succeeds and the second [OpenStream] fails. *)
Definition stLost : State :=
  Eval vm_compute in stateOf st1 (run (DialUDP st1) failingTwice).

(** The server rejects the credentials at a reconnect, after the two
    closes of the previous connection objects. *)
Definition rejectingAgain : list Reply := Succeed :: Succeed :: rejecting.

(** The first session is closed, and the server gives the next
    [DialUDP] on the same connection session ID 1 again. *)
Definition stShut : State :=
  Eval vm_compute in stateOf st1 (run (hyUDPConn_Close h1 st1) []).
Definition h2 : hyUDPConn :=
  {| Session := Some O;
     hStream := Some {| qsStream := Some O |};
     CloseFunc := {| sessionMap := Some O; cfSessionID := 1%N |};
     UDPSessionID := 1%N;
     MsgCh := 1%nat |}.
Definition stAgain : State :=
  Eval vm_compute in stateOf stShut (run (DialUDP stShut) []).

(** The first handle is closed once more. *)
Definition stShut2 : State :=
  Eval vm_compute in stateOf stAgain (run (hyUDPConn_Close h1 stAgain) []).

(** A session is dialled and closed twice, the pump, a write and a
    hold run, the client is closed, and a TCP dial is tried. *)
Definition busy : list Op :=
  [OpDialUDP; OpUDPClose h1; OpUDPClose h1; OpHandleMessage 3 O;
   OpWriteTo h1 [Byte.x01] "1.2.3.4:53"; OpHold 2 h1; OpClose;
   OpDialTCP "example.com:80"].
Definition stBusy : State :=
  Eval vm_compute in stateOf st0 (run (performAll busy st0) []).
End Runs.

(** * Properties *)

Section Proofs.
Context {D : Deps} {E : Env}.

(** ** Running programs symbolically *)

Lemma run_pbind {A B : Type} (p : Prog A) (f : A -> Prog B) (w : World) :
  run (pbind p f) w =
  match run p w with
  | (Done a, w1, tr1) =>
      let '(o, w2, tr2) := run (f a) w1 in (o, w2, tr1 ++ tr2)
  | (Panicked msg, w1, tr1) => (Panicked msg, w1, tr1)
  end.
Proof.
  revert w. induction p as [a|msg|X c k IH]; intros w; simpl.
  - destruct (run (f a) w) as [[o w2] tr2]. reflexivity.
  - reflexivity.
  - destruct (handle c w) as [x w1]. rewrite IH.
    destruct (run (k x) w1) as [[[a|msg] w2] tr1]; simpl.
    + destruct (run (f a) w2) as [[o w3] tr2]. reflexivity.
    + reflexivity.
Qed.

Lemma countEv_app (p : Event -> bool) (tr1 tr2 : list Event) :
  countEv p (tr1 ++ tr2) = (countEv p tr1 + countEv p tr2)%nat.
Proof. induction tr1 as [|e tr1 IH]; simpl; [reflexivity | rewrite IH; lia]. Qed.

(** Take the answer of the next call. *)
Ltac answer :=
  match goal with
  | |- context [handle ?c ?w] =>
      let x := fresh "x" in
      let w1 := fresh "w" in
      let Hx := fresh "Hx" in
      destruct (handle c w) as [x w1] eqn:Hx; cbn
  end.

(** Split on what the program branches on next. *)
Ltac branch :=
  match goal with
  | |- context [match ?x with _ => _ end] =>
      lazymatch x with
      | context [run _ _] => fail
      | context [handle _ _] => fail
      | _ => destruct x eqn:?; cbn
      end
  end.

Ltac exec := cbn; repeat (first [answer | branch]).

Ltac suffix_tac :=
  repeat first [ reflexivity | apply suffix_cons_r ].

Lemma append_empty_r (s : string) : s +:+ EmptyString = s.
Proof.
  induction s as [|a s IH]; [reflexivity|].
  change (String a (s +:+ EmptyString) = String a s). f_equal. exact IH.
Qed.

Lemma Errorf_contains (pfx msg : string) :
  contains (errorString (Errorf pfx msg)) msg.
Proof.
  exists pfx, EmptyString. unfold errorString, Errorf.
  rewrite append_empty_r. reflexivity.
Qed.

(** ** The control handshake *)

(** C6.  The handshake writes the version byte, then the client hello,
    then reads a server hello.  When a server hello was read, a
    congestion controller built from the hello's [RecvBPS] is installed
    on the connection, after the read and before returning, if and only
    if the hello's [OK] is true, and the function returns the hello's
    [OK] and [Message] without an error; when [OK] is false nothing is
    installed.  When a write or the read fails the function returns the
    error and installs nothing.  The client state is not touched. *)
Theorem handleControlStream_installs_rate (qc : QuicConn) (stream : Stream)
    (st : State) (w : World) :
  let r := run (handleControlStream qc stream st) w in
  let hello := {| chRate := {| SendBPS := sendBPS (self st);
                               RecvBPS := recvBPS (self st) |};
                  chAuth := auth (self st) |} in
  (exists (n : Z) (sh : serverHello),
      trace r =
        [Ev (StreamWrite stream [protocolVersion]) (n, None);
         Ev (PackClientHello stream hello) None;
         Ev (UnpackServerHello stream) (Ok sh)]
        ++ (if shOK sh
            then [Ev (SetCongestionControl qc (RecvBPS (shRate sh))) tt]
            else [])
      /\ outcome r = Done ((shOK sh, shMessage sh, None), st))
  \/ (exists (n : Z) (e : error),
         outcome r = Done ((false, EmptyString, Some e), st)
         /\ countEv isSetCongestionControl (trace r) = O
         /\ (trace r = [Ev (StreamWrite stream [protocolVersion]) (n, Some e)]
             \/ trace r = [Ev (StreamWrite stream [protocolVersion]) (n, None);
                           Ev (PackClientHello stream hello) (Some e)]
             \/ trace r = [Ev (StreamWrite stream [protocolVersion]) (n, None);
                           Ev (PackClientHello stream hello) None;
                           Ev (UnpackServerHello stream) (Err e)])).
Proof.
  unfold handleControlStream, bind, getClient, call, ret.
  cbn. answer. destruct x as [n [e|]]; cbn.
  { right. exists n, e. auto. }
  answer. destruct x as [e|]; cbn.
  { right. exists n, e. auto. }
  answer. destruct x as [sh|e]; cbn.
  2:{ right. exists n, e. auto 6. }
  left. exists n, sh. destruct (shOK sh); cbn.
  - answer. destruct x. auto.
  - auto.
Qed.

(** ** connect *)

(** [connect] never panics; it calls the factory once, the reconnect
    callback and [OpenStream] never; it starts a pump exactly when it
    succeeds, and leaves the state alone when it fails. *)
Lemma connect_spec (st : State) (w : World) :
  exists (e : option error) (st1 : State),
    outcome (run (connect st) w) = Done (e, st1)
    /\ countEv isReconnectFunc (trace (run (connect st) w)) = O
    /\ countEv isPktConnFunc (trace (run (connect st) w)) = 1%nat
    /\ countEv isOpenStream (trace (run (connect st) w)) = O
    /\ match e with
       | None =>
           countEv isGoHandleMessage (trace (run (connect st) w)) = 1%nat
           /\ exists pc qc, st1 = reconnected pc qc st
       | Some _ =>
           countEv isGoHandleMessage (trace (run (connect st) w)) = O
           /\ st1 = st
       end.
Proof.
  unfold connect, handleControlStream, bind, getClient, call, ret, setClient, makeMap.
  exec.
  all: eexists _, _; split; [reflexivity|]; cbn; repeat split; eauto.
  all: destruct st; reflexivity.
Qed.

(** C7.  When [connect] fails after the factory has produced a packet
    conn [pc], closing [pc] is the last thing it does before returning
    the error.  If moreover [quic.Dial] had returned a connection [qc]:
    when the control stream could not be opened or a read or write of
    the handshake failed, a protocol-error close is sent on [qc] right
    before [pc] is closed; when a server hello with [OK] false was read,
    an auth-error close is sent on [qc] right before [pc] is closed, and
    the text of the returned error contains the hello's message. *)
Theorem connect_failure_cleanup (st st1 : State) (w : World) (err : error)
    (pc : PktConn) :
  let r := run (connect st) w in
  outcome r = Done (Some err, st1) ->
  firstEv evPktConn (trace r) = Some pc ->
  (exists y, [Ev (PktConnClose pc) y] `suffix_of` trace r)
  /\ (forall qc : QuicConn,
         firstEv evQuicConn (trace r) = Some qc ->
         (existsb isHandshakeFailure (trace r) = true ->
          exists x y, [Ev (QErrorSend qErrorProtocol qc) x; Ev (PktConnClose pc) y]
                        `suffix_of` trace r)
         /\ (forall sh : serverHello,
                firstEv evServerHello (trace r) = Some sh ->
                shOK sh = false ->
                (exists x y, [Ev (QErrorSend qErrorAuth qc) x; Ev (PktConnClose pc) y]
                               `suffix_of` trace r)
                /\ err = Errorf "auth error: " (shMessage sh)
                /\ contains (errorString err) (shMessage sh))).
Proof.
  unfold connect, handleControlStream, bind, getClient, call, ret, setClient, makeMap.
  exec.
  all: intros Hout Hpc; simplify_eq.
  all: split; [eexists; suffix_tac|].
  all: intros qc Hqc; simplify_eq.
  all: split; [intros Hio; try discriminate Hio; eexists _, _; suffix_tac|].
  all: intros sh Hsh Hok; simplify_eq.
  all: split; [eexists _, _; suffix_tac|].
  all: split; [reflexivity | apply Errorf_contains].
Qed.

(** When [quic.Dial] fails there is no QUIC connection to send a close
    on: [connect] sends none, and closes the packet conn only. *)
Lemma connect_dial_failure (st : State) (w : World) :
  let r := run (connect st) w in
  firstEv evQuicConn (trace r) = None ->
  countEv isQErrorSend (trace r) = O.
Proof.
  unfold connect, handleControlStream, bind, getClient, call, ret, setClient, makeMap.
  exec; intros H; try discriminate H; reflexivity.
Qed.

(** ** Opening a stream, with at most one reconnect *)

Arguments connect : simpl never.

(** Run the [connect] inside [openStreamWithReconnect] by its
    specification. *)
Ltac exec_connect :=
  match goal with
  | |- context [run (pbind (connect ?st) ?f) ?w] =>
      let e := fresh "e" in
      let st1 := fresh "st" in
      let Hout := fresh "Hout" in
      let Hn := fresh "Hn" in
      let Hp := fresh "Hp" in
      let Ho := fresh "Ho" in
      let Hg := fresh "Hg" in
      let o := fresh "o" in
      let wc := fresh "w" in
      let trc := fresh "trc" in
      rewrite (run_pbind (connect st) f w);
      destruct (connect_spec st w) as (e & st1 & Hout & Hn & Hp & Ho & Hg);
      destruct (run (connect st) w) as [[o wc] trc];
      unfold outcome, trace in Hout, Hn, Hp, Ho, Hg; cbn in Hout, Hn, Hp, Ho, Hg;
      subst o; destruct e; cbn;
      [ destruct Hg as [Hg ->]
      | destruct Hg as [Hg (? & ? & ->)] ]; cbn
  end.

Ltac exec_osr :=
  unfold openStreamWithReconnect, onConn, bind, getClient, call, ret, panic;
  exec; try exec_connect; exec.

(** C4.  When the client is open and [OpenStream] on the current
    connection fails with a temporary error, [openStreamWithReconnect]
    returns that error with a nil connection and a nil stream, and the
    failed [OpenStream] is the only call it makes: neither the reconnect
    callback nor [connect] runs, and the state is left as it was. *)
Theorem temporary_error_no_reconnect (st : State) (w w1 : World)
    (qc : QuicConn) (err : error) :
  closed (self st) = false ->
  quicConn (self st) = Some qc ->
  handle (OpenStream qc) w = (Err err, w1) ->
  isTemporary err = true ->
  let r := run (openStreamWithReconnect st) w in
  r = (Done ((None, None, Some err), st), w1, [Ev (OpenStream qc) (Err err)])
  /\ countEv isReconnectFunc (trace r) = O
  /\ countEv isPktConnFunc (trace r) = O.
Proof.
  intros Hc Hq Hx Ht.
  unfold openStreamWithReconnect, onConn, bind, getClient, call, ret, panic.
  cbn. rewrite Hc, Hq. cbn. rewrite Hx. cbn. rewrite Ht. cbn. auto.
Qed.

Lemma osr_counts (st : State) (w : World) :
  boundedReconnect (trace (run (openStreamWithReconnect st) w)).
Proof.
  unfold boundedReconnect. exec_osr.
  all: rewrite ?countEv_app; cbn; lia.
Qed.

(** After a reconnect that succeeded, [OpenStream] is tried once more on
    the new connection, that call is the last one made, and its result
    is what is returned. *)
Lemma osr_retry_once (st : State) (w : World) :
  let r := run (openStreamWithReconnect st) w in
  countEv isGoHandleMessage (trace r) = 1%nat ->
  exists (pre : list Event) (qc : QuicConn) (x : result Stream) (st1 : State),
    trace r = pre ++ [Ev (OpenStream qc) x]
    /\ countEv isReconnectFunc pre = 1%nat
    /\ countEv isPktConnFunc pre = 1%nat
    /\ countEv isOpenStream pre = 1%nat
    /\ quicConn (self st1) = Some qc
    /\ outcome r = Done ((Some qc, Some {| qsStream := valueOf x |}, errorOf x), st1).
Proof.
  exec_osr; intros Hone; try discriminate Hone.
  all: try (rewrite countEv_app in Hone; cbn in Hone; lia).
  all: match goal with
       | |- context [?a :: ?b :: ?tr ++ [Ev (OpenStream ?q) ?y]] =>
           exists (a :: b :: tr), q, y
       end.
  all: eexists; split; [reflexivity|]; cbn; repeat split; try lia; reflexivity.
Qed.

(** C2.  A single [DialTCP] or [DialUDP] invokes the reconnect callback
    at most once, runs [connect] at most once and calls [OpenStream] at
    most twice, whatever the environment answers.  When a reconnect was
    made and succeeded, exactly one more [OpenStream] follows, on the new
    connection; it is the last call of [openStreamWithReconnect], and the
    stream or error it gave is what is returned. *)
Theorem at_most_one_reconnect_per_dial (st : State) (w : World) (addr : string) :
  boundedReconnect (trace (run (DialTCP addr st) w))
  /\ boundedReconnect (trace (run (DialUDP st) w))
  /\ (let r := run (openStreamWithReconnect st) w in
      boundedReconnect (trace r)
      /\ (countEv isGoHandleMessage (trace r) = 1%nat ->
          exists (pre : list Event) (qc : QuicConn) (x : result Stream) (st1 : State),
            trace r = pre ++ [Ev (OpenStream qc) x]
            /\ countEv isReconnectFunc pre = 1%nat
            /\ countEv isPktConnFunc pre = 1%nat
            /\ countEv isOpenStream pre = 1%nat
            /\ quicConn (self st1) = Some qc
            /\ outcome r =
                 Done ((Some qc, Some {| qsStream := valueOf x |}, errorOf x), st1))).
Proof.
  assert (Hdial : forall (A : Type) (f : _ -> M A),
             (forall a st1 w1, countEv isReconnectFunc (trace (run (f a st1) w1)) = O
                               /\ countEv isPktConnFunc (trace (run (f a st1) w1)) = O
                               /\ countEv isOpenStream (trace (run (f a st1) w1)) = O) ->
             boundedReconnect (trace (run (bind openStreamWithReconnect f st) w))).
  { intros A f Hf. unfold bind. rewrite run_pbind.
    pose proof (osr_counts st w) as Hb.
    destruct (run (openStreamWithReconnect st) w) as [[[[a st1]|msg] w1] tr1]; [|exact Hb].
    cbn [fst snd]. specialize (Hf a st1 w1).
    destruct (run (f a st1) w1) as [[o w2] tr2].
    unfold boundedReconnect, trace in *. cbn in *. rewrite !countEv_app. lia. }
  split; [|split; [|split; [apply osr_counts | apply osr_retry_once]]].
  - unfold DialTCP. destruct (SplitHostPort addr) as [[host port]|e].
    + apply Hdial. intros [[session stream] err] st1 w1.
      unfold closeStream, onStream, onConn, bind, call, ret, panic.
      exec; auto.
    + unfold boundedReconnect. cbn. lia.
  - unfold DialUDP. apply Hdial. intros [[session stream] err] st1 w1.
    unfold closeStream, onStream, onConn, bind, call, ret, panic, makeChan, getClient, mapStore.
    exec; auto.
Qed.

(** C10.  Whenever [openStreamWithReconnect] returns an error, one of
    two things holds.  Either a reconnect succeeded and the [OpenStream]
    tried after it failed with that error: then the connection returned
    is the new, non-nil, current connection and the stream returned is a
    non-nil wrapper around a nil stream.  Or no retry took place (the
    client was closed, the first error was temporary, or [connect]
    failed): then the connection and the stream returned are both nil. *)
Theorem retry_failure_returns_wrapper (st st1 : State) (w : World)
    (qc : option QuicConn) (s : option qStream) (err : error) :
  let r := run (openStreamWithReconnect st) w in
  outcome r = Done ((qc, s, Some err), st1) ->
  (countEv isGoHandleMessage (trace r) = 1%nat
   /\ countEv isOpenStream (trace r) = 2%nat
   /\ (exists q : QuicConn,
          qc = Some q /\ quicConn (self st1) = Some q
          /\ [Ev (OpenStream q) (Err err)] `suffix_of` trace r)
   /\ s = Some {| qsStream := None |})
  \/ (countEv isGoHandleMessage (trace r) = O
      /\ (countEv isOpenStream (trace r) <= 1)%nat
      /\ qc = None
      /\ s = None).
Proof.
  exec_osr; intros Hout; simplify_eq.
  all: try (right; rewrite ?countEv_app; cbn; repeat split; try reflexivity; lia).
  left. rewrite !countEv_app. cbn. repeat split; try lia.
  eexists. repeat split.
  match goal with
  | |- _ `suffix_of` (?a :: ?b :: ?tr ++ _) => exists (a :: b :: tr); reflexivity
  end.
Qed.

(** ** Writing a datagram *)

(** The fragments are sent in order until one send fails; the first
    failure is returned, nil if there is none. *)
Lemma sendFrags_spec (qc : QuicConn) (fragMsgs : list udpMessage)
    (st : State) (w : World) :
  let r := run (sendFrags (Some qc) fragMsgs st) w in
  exists answers : list (option error),
    trace r = sendEvents qc fragMsgs answers
    /\ ((answers = replicate (length fragMsgs) None /\ outcome r = Done (None, st))
        \/ (exists (i : nat) (e : error),
               (i < length fragMsgs)%nat
               /\ answers = replicate i None ++ [Some e]
               /\ outcome r = Done (Some e, st))).
Proof.
  revert w. induction fragMsgs as [|m rest IH]; intros w.
  - exists []. split; [reflexivity|]. left. split; reflexivity.
  - cbn [sendFrags]. unfold onConn, bind, call, ret. cbn.
    destruct (handle (SendMessage qc (packUDPMessage m)) w) as [[e|] w1]; cbn.
    + exists [Some e]. split; [unfold sendEvents; cbn; by destruct rest|].
      right. exists O, e.
      cbn. repeat split. lia.
    + destruct (IH w1) as (answers & Htr & Hres).
      destruct (run (sendFrags (Some qc) rest st) w1) as [[o w2] tr].
      unfold trace, outcome in *. cbn in *. subst tr.
      exists (None :: answers). split; [reflexivity|].
      destruct Hres as [[-> ->]|(i & e & Hi & -> & ->)].
      * left. split; reflexivity.
      * right. exists (S i), e. repeat split. lia.
Qed.

Lemma msgID_range (draw : Z) :
  1 <= uint16 (uint16 (draw mod 0xFFFF) + 1) <= 0xFFFF.
Proof.
  unfold uint16.
  assert (0 <= draw mod 65535 < 65535) by (apply Z.mod_pos_bound; lia).
  change (2 ^ 16) with 65536.
  rewrite (Z.mod_small (draw mod 65535) 65536) by lia.
  rewrite Z.mod_small by lia. lia.
Qed.

(** C5.  [WriteTo] with an address that parses first sends one datagram:
    the packed message with the handle's session ID, the parsed host and
    port, [MsgID] 0, [FragID] 0, [FragCount] 1 and the payload.  If that
    send succeeds nothing else is sent and nil is returned.  If it fails
    with [ErrMessageToLarge] carrying [S], one random number is drawn,
    [fragUDPMessage] is applied to [S] and to the same message with its
    [MsgID] set to [uint16(draw mod 0xFFFF) + 1], which lies between 1
    and 0xFFFF, and the fragments are sent in order up to the first
    failing send, whose error is returned (nil when all sends succeed).
    If it fails with any other error, that error is returned and nothing
    else is sent. *)
Theorem WriteTo_fragmentation_sequence (h : hyUDPConn) (p : bytes) (addr : string)
    (st : State) (w : World) (qc : QuicConn) (host : string) (port : Z) :
  Session h = Some qc ->
  SplitHostPort addr = Ok (host, port) ->
  let msg := {| SessionID := UDPSessionID h; Host := host; Port := port;
                MsgID := 0; FragID := 0; FragCount := 1; Data := p |} in
  let r := run (WriteTo h p addr st) w in
  match (handle (SendMessage qc (packUDPMessage msg)) w).1 with
  | None =>
      trace r = [Ev (SendMessage qc (packUDPMessage msg)) None]
      /\ outcome r = Done (None, st)
  | Some (ErrMessageToLarge errSize) =>
      exists (draw : Z) (answers : list (option error)),
        let msgID := uint16 (uint16 (draw mod 0xFFFF) + 1) in
        let fragMsgs :=
          fragUDPMessage {| SessionID := UDPSessionID h; Host := host; Port := port;
                            MsgID := msgID; FragID := 0; FragCount := 1; Data := p |}
                         errSize in
        1 <= msgID <= 0xFFFF
        /\ trace r =
             Ev (SendMessage qc (packUDPMessage msg)) (Some (ErrMessageToLarge errSize))
             :: Ev RandInt63 draw
             :: sendEvents qc fragMsgs answers
        /\ ((answers = replicate (length fragMsgs) None /\ outcome r = Done (None, st))
            \/ (exists (i : nat) (e : error),
                   (i < length fragMsgs)%nat
                   /\ answers = replicate i None ++ [Some e]
                   /\ outcome r = Done (Some e, st)))
  | Some e =>
      trace r = [Ev (SendMessage qc (packUDPMessage msg)) (Some e)]
      /\ outcome r = Done (Some e, st)
  end.
Proof.
  intros Hs Hp msg r. subst r. unfold WriteTo. rewrite Hp, Hs. fold msg.
  unfold onConn, randIntn, bind, call, ret. cbn.
  destruct (handle (SendMessage qc (packUDPMessage msg)) w) as [[e|] w1]; cbn.
  2:{ split; reflexivity. }
  destruct e; cbn; try (split; reflexivity).
  destruct (handle RandInt63 w1) as [draw w2]. cbn.
  exists draw.
  set (fragMsgs := fragUDPMessage _ _).
  destruct (sendFrags_spec qc fragMsgs st w2) as (answers & Htr & Hres).
  destruct (run (sendFrags (Some qc) fragMsgs st) w2) as [[o w3] tr].
  unfold trace, outcome in *. cbn in *. subst tr.
  exists answers. split; [apply msgID_range|]. split; [reflexivity|]. exact Hres.
Qed.

(** ** How the functions move the state *)

Lemma evolves_refl (st : State) : evolves st st.
Proof. split; auto. Qed.

Lemma evolves_trans (st1 st2 st3 : State) :
  evolves st1 st2 -> evolves st2 st3 -> evolves st1 st3.
Proof.
  intros [Hi1 Hc1 Hd1 Hu1] [Hi2 Hc2 Hd2 Hu2]. split; auto.
  - intros a Ha. apply Hd2, Hd1, Ha.
  - destruct Hu2 as [Hu2|(a & Ha & Hn & Hin)].
    + rewrite Hu2. destruct Hu1 as [Hu1|(a & Ha & Hn & Hin)]; [left; exact Hu1|].
      right. exists a. repeat split; auto.
    + right. exists a. repeat split; auto.
Qed.

Lemma preserves_ret {A : Type} (a : A) : preserves evolves (ret a).
Proof. intros st w a1 st1 H. cbn in H. simplify_eq. apply evolves_refl. Qed.

Lemma preserves_panic {A : Type} (msg : string) : preserves evolves (@panic _ A msg).
Proof. intros st w a1 st1 H. cbn in H. discriminate H. Qed.

Lemma preserves_call {X : Type} (c : Call X) : preserves evolves (call c).
Proof.
  intros st w a1 st1 H. unfold call in H. cbn in H.
  destruct (handle c w) as [x w1]. cbn in H. simplify_eq. apply evolves_refl.
Qed.

Lemma preserves_getClient : preserves evolves getClient.
Proof. intros st w a1 st1 H. cbn in H. simplify_eq. apply evolves_refl. Qed.

Lemma preserves_mapLookup (r : option nat) (id : N) : preserves evolves (mapLookup r id).
Proof. intros st w a1 st1 H. cbn in H. simplify_eq. apply evolves_refl. Qed.

Lemma preserves_bind {A B : Type} (m : M A) (f : A -> M B) :
  preserves evolves m -> (forall a, preserves evolves (f a)) ->
  preserves evolves (bind m f).
Proof.
  intros Hm Hf st w b st2 H. unfold bind in H. rewrite run_pbind in H.
  specialize (Hm st w).
  destruct (run (m st) w) as [[[[a st1]|msg] w1] tr1]; [|discriminate H].
  specialize (Hm a st1 eq_refl). specialize (Hf a st1 w1 b st2).
  cbn [fst snd] in H.
  destruct (run (f a st1) w1) as [[o w2] tr2].
  apply (evolves_trans Hm). apply Hf. exact H.
Qed.

(** The entries of a state whose maps are unchanged are unchanged. *)
Lemma Inv_same_store (st st1 : State) :
  maps st1 = maps st -> chans st1 = chans st -> Inv st -> Inv st1.
Proof.
  intros Hm Hc [Ho Hi]. split.
  - intros a id ch He. unfold entry, openChan in *. rewrite Hm in He. rewrite Hc. eauto.
  - intros a1 id1 a2 id2 ch H1 H2. unfold entry in *. rewrite Hm in H1, H2. eauto.
Qed.

Lemma preserves_withDefragger (d : defragger) :
  preserves evolves (setClient (withDefragger d)).
Proof.
  intros st w a1 st1 H. cbn in H. simplify_eq. split; cbn; auto.
  apply Inv_same_store; reflexivity.
Qed.

Lemma preserves_withClosed : preserves evolves (setClient (withClosed true)).
Proof.
  intros st w a1 st1 H. cbn in H. simplify_eq. split; cbn; auto.
  apply Inv_same_store; reflexivity.
Qed.

Lemma evolves_reconnected (pc : PktConn) (qc : QuicConn) (st : State) :
  evolves st (reconnected pc qc st).
Proof.
  pose proof (is_fresh (dom (maps st))) as Hfresh.
  assert (Hnone : maps st !! fresh (dom (maps st)) = None)
    by (apply not_elem_of_dom; exact Hfresh).
  assert (Hentry : forall a id ch, entry (reconnected pc qc st) a id ch -> entry st a id ch).
  { intros a id ch (m & Hm & Hid). cbn in Hm.
    destruct (decide (fresh (dom (maps st)) = a)) as [<-|Hne].
    - rewrite lookup_insert_eq in Hm. injection Hm as <-.
      rewrite lookup_empty in Hid. discriminate Hid.
    - rewrite lookup_insert_ne in Hm by exact Hne. exists m. auto. }
  split; cbn.
  - intros [Ho Hi]. split.
    + intros a id ch He. apply Hentry in He. apply Ho in He. exact He.
    + intros a1 id1 a2 id2 ch H1 H2. eauto.
  - auto.
  - rewrite dom_insert_L. apply union_subseteq_r.
  - right. eexists. split; [reflexivity|]. split; [exact Hfresh|].
    rewrite dom_insert_L. apply elem_of_union_l, elem_of_singleton. reflexivity.
Qed.

Lemma preserves_connect : preserves evolves connect.
Proof.
  intros st w e st1 H.
  destruct (connect_spec st w) as (e1 & st2 & Hout & _ & _ & _ & Hg).
  rewrite Hout in H. simplify_eq. destruct e as [err|].
  - destruct Hg as [_ ->]. apply evolves_refl.
  - destruct Hg as [_ (pc & qc & ->)]. apply evolves_reconnected.
Qed.

(** *** Channels and session entries *)

Lemma Inv_chans (st st1 : State) :
  maps st1 = maps st ->
  (forall ch, openChan st ch -> openChan st1 ch) ->
  Inv st -> Inv st1.
Proof.
  intros Hm Hc [Ho Hi]. split.
  - intros a id ch He. apply Hc, (Ho a id). unfold entry in *. rewrite <- Hm. exact He.
  - intros a1 id1 a2 id2 ch H1 H2. unfold entry in *. rewrite Hm in H1, H2. eauto.
Qed.

Lemma evolves_store (st st1 : State) :
  self st1 = self st ->
  dom (maps st) ⊆ dom (maps st1) ->
  (Inv st -> Inv st1) ->
  evolves st st1.
Proof. intros Hs Hd Hi. split; auto; rewrite Hs; auto. Qed.

(** The state after the close hook found channel [ch] under its key in
    the map at [a]. *)
Lemma runCloseFunc_found (f : closeFunc) (st : State) (a : nat)
    (m : gmap N nat) (ch : nat) (c : Chan) :
  sessionMap f = Some a ->
  maps st !! a = Some m ->
  m !! cfSessionID f = Some ch ->
  chans st !! ch = Some c ->
  chClosed c = false ->
  runCloseFunc f st =
    Ret (tt, {| self := self st;
                maps := <[a := delete (cfSessionID f) m]> (maps st);
                chans := <[ch := {| chBuf := chBuf c; chCap := chCap c;
                                    chClosed := true |}]> (chans st) |}).
Proof.
  intros Hf Hm Hid Hc Hopen.
  unfold runCloseFunc, bind, mapLookup, closeChan, mapDelete, mapAt. cbn.
  rewrite Hf, Hm. cbn. rewrite Hid. cbn. rewrite Hc, Hopen. cbn.
  rewrite Hm. reflexivity.
Qed.

Lemma runCloseFunc_absent (f : closeFunc) (st : State) :
  mapAt st (sessionMap f) !! cfSessionID f = None ->
  runCloseFunc f st = Ret (tt, st).
Proof.
  intros Hnone. unfold runCloseFunc, bind, mapLookup, ret. cbn.
  rewrite Hnone. reflexivity.
Qed.

Lemma mapAt_lookup_entry (st : State) (r : option nat) (id : N) (ch : nat) :
  mapAt st r !! id = Some ch ->
  exists a m, r = Some a /\ maps st !! a = Some m /\ m !! id = Some ch.
Proof.
  unfold mapAt. destruct r as [a|]; [|rewrite lookup_empty; discriminate].
  destruct (maps st !! a) as [m|] eqn:Hm; cbn; [|rewrite lookup_empty; discriminate].
  intros Hid. exists a, m. auto.
Qed.

Lemma Inv_close_entry (st : State) (a : nat) (m : gmap N nat) (id : N)
    (ch : nat) (c1 : Chan) :
  maps st !! a = Some m ->
  m !! id = Some ch ->
  Inv st ->
  Inv {| self := self st;
         maps := <[a := delete id m]> (maps st);
         chans := <[ch := c1]> (chans st) |}.
Proof.
  intros Hm Hid [Ho Hi].
  assert (Hold : forall a1 id1 ch1,
             entry {| self := self st; maps := <[a := delete id m]> (maps st);
                      chans := <[ch := c1]> (chans st) |} a1 id1 ch1 ->
             entry st a1 id1 ch1 /\ (a1, id1) <> (a, id)).
  { intros a1 id1 ch1 (m1 & Hm1 & Hid1). cbn in Hm1.
    destruct (decide (a = a1)) as [<-|Hne].
    - rewrite lookup_insert_eq in Hm1. injection Hm1 as <-.
      destruct (decide (id = id1)) as [<-|Hne].
      + rewrite lookup_delete_eq in Hid1. discriminate Hid1.
      + rewrite lookup_delete_ne in Hid1 by exact Hne.
        split; [exists m; auto | congruence].
    - rewrite lookup_insert_ne in Hm1 by exact Hne.
      split; [exists m1; auto | congruence]. }
  split.
  - intros a1 id1 ch1 He. apply Hold in He as [He Hne].
    assert (ch1 <> ch).
    { intros ->. apply Hne.
      destruct (Hi a1 id1 a id ch He) as [-> ->]; [exists m; auto | reflexivity]. }
    destruct (Ho _ _ _ He) as (c2 & Hc2 & Hopen). exists c2. cbn.
    rewrite lookup_insert_ne by congruence. auto.
  - intros a1 id1 a2 id2 ch1 H1 H2.
    apply Hold in H1 as [H1 _]. apply Hold in H2 as [H2 _]. eauto.
Qed.

(** The close hook never panics on a state that satisfies the
    invariant, and keeps the invariant. *)
Lemma runCloseFunc_Inv (f : closeFunc) (st : State) :
  Inv st ->
  exists st1, runCloseFunc f st = Ret (tt, st1)
              /\ evolves st st1
              /\ Inv st1
              /\ mapAt st1 (sessionMap f) !! cfSessionID f = None.
Proof.
  intros HI.
  destruct (mapAt st (sessionMap f) !! cfSessionID f) as [ch|] eqn:Hl.
  - destruct (mapAt_lookup_entry Hl) as (a & m & Hf & Hm & Hid).
    destruct (inv_open HI (a := a) (id := cfSessionID f) (ch := ch)) as (c & Hc & Hopen);
      [exists m; auto|].
    eexists. split; [apply (runCloseFunc_found Hf Hm Hid Hc Hopen)|].
    assert (HI1 := Inv_close_entry
                     {| chBuf := chBuf c; chCap := chCap c; chClosed := true |} Hm Hid HI).
    split; [|split; [exact HI1|]].
    + apply evolves_store; cbn; auto.
      rewrite dom_insert_L. apply union_subseteq_r.
    + rewrite Hf. unfold mapAt. cbn. rewrite lookup_insert_eq. cbn.
      apply lookup_delete_eq.
  - exists st. split; [apply runCloseFunc_absent; exact Hl|].
    split; [apply evolves_refl|]. split; [exact HI | exact Hl].
Qed.

Lemma preserves_runCloseFunc (f : closeFunc) : preserves evolves (runCloseFunc f).
Proof.
  intros st w u st1 H.
  destruct (mapAt st (sessionMap f) !! cfSessionID f) as [ch|] eqn:Hl.
  - destruct (mapAt_lookup_entry Hl) as (a & m & Hf & Hm & Hid).
    destruct (chans st !! ch) as [c|] eqn:Hc; [destruct (chClosed c) eqn:Hopen|].
    + unfold runCloseFunc, bind, mapLookup, closeChan in H. cbn in H.
      rewrite Hl in H. cbn in H. rewrite Hc, Hopen in H. discriminate H.
    + rewrite (runCloseFunc_found Hf Hm Hid Hc Hopen) in H. cbn in H.
      injection H as <- <-. apply evolves_store; cbn; auto.
      * rewrite dom_insert_L. apply union_subseteq_r.
      * apply Inv_close_entry; assumption.
    + unfold runCloseFunc, bind, mapLookup, closeChan in H. cbn in H.
      rewrite Hl in H. cbn in H. rewrite Hc in H. discriminate H.
  - rewrite (runCloseFunc_absent Hl) in H. cbn in H.
    injection H as <- <-. apply evolves_refl.
Qed.

Lemma Inv_register (st : State) (a : nat) (id : N) (c : Chan) :
  chClosed c = false ->
  Inv st ->
  Inv {| self := self st;
         maps := <[a := <[id := fresh (dom (chans st))]> (mapAt st (Some a))]> (maps st);
         chans := <[fresh (dom (chans st)) := c]> (chans st) |}.
Proof.
  intros Hc [Ho Hi]. set (n := fresh (dom (chans st))).
  assert (Hn : chans st !! n = None) by (apply not_elem_of_dom, is_fresh).
  assert (Hfresh : forall a1 id1, ~ entry st a1 id1 n).
  { intros a1 id1 He. destruct (Ho _ _ _ He) as (c1 & Hc1 & _). congruence. }
  assert (Hnew : forall a1 id1 ch1,
             entry {| self := self st;
                      maps := <[a := <[id := n]> (mapAt st (Some a))]> (maps st);
                      chans := <[n := c]> (chans st) |} a1 id1 ch1 ->
             (a1 = a /\ id1 = id /\ ch1 = n) \/ (entry st a1 id1 ch1 /\ ch1 <> n)).
  { intros a1 id1 ch1 (m1 & Hm1 & Hid1). cbn in Hm1.
    destruct (decide (a = a1)) as [<-|Hne].
    - rewrite lookup_insert_eq in Hm1. injection Hm1 as <-.
      destruct (decide (id = id1)) as [<-|Hne].
      + rewrite lookup_insert_eq in Hid1. injection Hid1 as <-. left. auto.
      + rewrite lookup_insert_ne in Hid1 by exact Hne. right.
        unfold mapAt in Hid1.
        destruct (maps st !! a) as [m|] eqn:Hm; cbn in Hid1;
          [|rewrite lookup_empty in Hid1; discriminate Hid1].
        assert (He : entry st a id1 ch1) by (exists m; auto).
        split; [exact He|]. intros ->. exact (Hfresh _ _ He).
    - rewrite lookup_insert_ne in Hm1 by exact Hne. right.
      assert (He : entry st a1 id1 ch1) by (exists m1; auto).
      split; [exact He|]. intros ->. exact (Hfresh _ _ He). }
  split.
  - intros a1 id1 ch1 He. apply Hnew in He as [(-> & -> & ->)|[He Hne]].
    + exists c. cbn. rewrite lookup_insert_eq. auto.
    + destruct (Ho _ _ _ He) as (c1 & Hc1 & Hopen). exists c1. cbn.
      rewrite lookup_insert_ne by congruence. auto.
  - intros a1 id1 a2 id2 ch1 H1 H2.
    apply Hnew in H1 as [(-> & -> & ->)|[H1 Hne1]];
      apply Hnew in H2 as [(-> & -> & E2)|[H2 Hne2]]; try congruence; eauto.
Qed.

Lemma Inv_trySend (st : State) (ch : nat) (c1 : Chan) :
  chClosed c1 = false ->
  Inv st ->
  Inv {| self := self st; maps := maps st; chans := <[ch := c1]> (chans st) |}.
Proof.
  intros Hc. apply Inv_chans; [reflexivity|].
  intros ch1 (c & Hch & Hopen). unfold openChan. cbn.
  destruct (decide (ch = ch1)) as [<-|Hne].
  - exists c1. rewrite lookup_insert_eq. auto.
  - exists c. rewrite lookup_insert_ne by exact Hne. auto.
Qed.

Lemma preserves_trySend (ch : nat) (m : udpMessage) : preserves evolves (trySend ch m).
Proof.
  intros st w b st1. unfold trySend. exec; intros H; simplify_eq.
  all: try apply evolves_refl.
  apply evolves_store; cbn; auto. apply Inv_trySend. reflexivity.
Qed.

(** Registering a new channel in the current session map, as [DialUDP]
    does under the session mutex. *)
Lemma preserves_register {A : Type} (n : nat) (id : N) (k : nat -> Client -> M A) :
  (forall nCh c, preserves evolves (k nCh c)) ->
  preserves evolves
    (let! nCh := makeChan n in
     let! c := getClient in
     let! _ := mapStore (udpSessionMap c) id nCh in
     k nCh c).
Proof.
  intros Hk st w a st2 H.
  unfold bind, makeChan, getClient, mapStore in H. cbn in H.
  destruct (udpSessionMap (self st)) as [r|] eqn:Hr; cbn in H; [|discriminate H].
  apply Hk in H. refine (evolves_trans _ H).
  apply evolves_store; cbn; auto.
  - rewrite dom_insert_L. apply union_subseteq_r.
  - intros HI.
    exact (@Inv_register st r id {| chBuf := []; chCap := n; chClosed := false |}
             eq_refl HI).
Qed.

(** *** The functions of the client *)

(** Peel the binds of a program. *)
Ltac pres :=
  repeat first
    [ apply preserves_ret
    | apply preserves_panic
    | apply preserves_call
    | apply preserves_getClient
    | apply preserves_mapLookup
    | apply preserves_withDefragger
    | apply preserves_withClosed
    | apply preserves_connect
    | apply preserves_runCloseFunc
    | apply preserves_trySend
    | assumption
    | apply preserves_register; intros ? ?
    | apply preserves_bind; [|intros ?]
    | match goal with
      | |- preserves _ (match ?x with _ => _ end) => destruct x
      | |- preserves _ (let (_, _) := ?x in _) => destruct x
      end
    | progress unfold onConn, onStream, closeStream ].

Lemma preserves_osr : preserves evolves openStreamWithReconnect.
Proof. unfold openStreamWithReconnect. pres. Qed.

Lemma preserves_DialTCP (addr : string) : preserves evolves (DialTCP addr).
Proof. pose proof preserves_osr. unfold DialTCP. pres. Qed.

Lemma preserves_Close : preserves evolves Close.
Proof. unfold Close. pres. Qed.

Lemma preserves_hyUDPConn_Close (h : hyUDPConn) : preserves evolves (hyUDPConn_Close h).
Proof. unfold hyUDPConn_Close. pres. Qed.

Lemma preserves_Hold (fuel : nat) (h : hyUDPConn) : preserves evolves (Hold fuel h).
Proof.
  pose proof (@preserves_hyUDPConn_Close h).
  induction fuel as [|n IH]; cbn [Hold]; pres.
Qed.

Lemma preserves_sendFrags (s : option QuicConn) (l : list udpMessage) :
  preserves evolves (sendFrags s l).
Proof. induction l as [|m rest IH]; cbn [sendFrags]; pres. Qed.

Lemma preserves_WriteTo (h : hyUDPConn) (p : bytes) (addr : string) :
  preserves evolves (WriteTo h p addr).
Proof.
  pose proof (@preserves_sendFrags (Session h)) as Hs.
  unfold WriteTo, randIntn. pres; apply Hs.
Qed.

Lemma preserves_handleMessageIter (qc : QuicConn) :
  preserves evolves (handleMessageIter qc).
Proof. unfold handleMessageIter, feed. pres. Qed.

Lemma preserves_handleMessage (fuel : nat) (qc : QuicConn) :
  preserves evolves (handleMessage fuel qc).
Proof.
  pose proof (@preserves_handleMessageIter qc).
  induction fuel as [|n IH]; cbn [handleMessage]; pres.
Qed.

Lemma preserves_DialUDP : preserves evolves DialUDP.
Proof.
  pose proof preserves_osr. unfold DialUDP. cbv zeta. pres.
Qed.

Lemma preserves_perform (o : Op) : preserves evolves (perform o).
Proof.
  destruct o; cbn [perform]; apply preserves_bind; try (intros ?; apply preserves_ret).
  - apply preserves_DialTCP.
  - apply preserves_DialUDP.
  - apply preserves_Close.
  - apply preserves_hyUDPConn_Close.
  - apply preserves_WriteTo.
  - apply preserves_Hold.
  - apply preserves_handleMessage.
Qed.

Lemma preserves_performAll (ops : list Op) : preserves evolves (performAll ops).
Proof.
  induction ops as [|o rest IH]; cbn [performAll].
  - apply preserves_ret.
  - apply preserves_bind; [apply preserves_perform | intros _; exact IH].
Qed.

(** ** Closing a UDP handle *)

Arguments openStreamWithReconnect : simpl never.

(** What a close hook that returned has done. *)
Lemma runCloseFunc_result (f : closeFunc) (st st1 : State) :
  runCloseFunc f st = Ret (tt, st1) ->
  self st1 = self st
  /\ (forall a, sessionMap f <> Some a -> maps st1 !! a = maps st !! a)
  /\ mapAt st1 (sessionMap f) !! cfSessionID f = None
  /\ (forall ch, mapAt st (sessionMap f) !! cfSessionID f = Some ch ->
                 exists c, chans st1 !! ch = Some c /\ chClosed c = true)
  /\ (mapAt st (sessionMap f) !! cfSessionID f = None -> st1 = st).
Proof.
  intros H.
  destruct (mapAt st (sessionMap f) !! cfSessionID f) as [ch|] eqn:Hl.
  - destruct (mapAt_lookup_entry Hl) as (a & m & Hf & Hm & Hid).
    destruct (chans st !! ch) as [c|] eqn:Hc; [destruct (chClosed c) eqn:Hopen|].
    + unfold runCloseFunc, bind, mapLookup, closeChan in H. cbn in H.
      rewrite Hl in H. cbn in H. rewrite Hc, Hopen in H. discriminate H.
    + rewrite (runCloseFunc_found Hf Hm Hid Hc Hopen) in H.
      injection H as <-. cbn. split; [reflexivity|]. split; [|split; [|split]].
      * intros a1 Hne. rewrite lookup_insert_ne; [reflexivity|congruence].
      * rewrite Hf. unfold mapAt. cbn. rewrite lookup_insert_eq. cbn.
        apply lookup_delete_eq.
      * intros ch1 [= <-]. eexists. rewrite lookup_insert_eq. split; reflexivity.
      * discriminate.
    + unfold runCloseFunc, bind, mapLookup, closeChan in H. cbn in H.
      rewrite Hl in H. cbn in H. rewrite Hc in H. discriminate H.
  - rewrite (runCloseFunc_absent Hl) in H. injection H as <-.
    repeat split; auto. discriminate.
Qed.

(** [hyUDPConn.Close] runs the hook and then closes the stream. *)
Lemma hyUDPConn_Close_run (h : hyUDPConn) (s : Stream) (st st1 : State) (w : World) :
  hStream h = Some {| qsStream := Some s |} ->
  runCloseFunc (CloseFunc h) st = Ret (tt, st1) ->
  run (hyUDPConn_Close h st) w =
    (Done ((handle (StreamClose s) w).1, st1), (handle (StreamClose s) w).2,
     [Ev (StreamClose s) (handle (StreamClose s) w).1]).
Proof.
  intros Hs Hf. unfold hyUDPConn_Close, bind, closeStream, onStream, call.
  rewrite Hf, Hs. cbn. destruct (handle (StreamClose s) w) as [x w1]. reflexivity.
Qed.

Lemma hyUDPConn_Close_hook (h : hyUDPConn) (st st1 : State) (w : World)
    (e : option error) :
  outcome (run (hyUDPConn_Close h st) w) = Done (e, st1) ->
  runCloseFunc (CloseFunc h) st = Ret (tt, st1).
Proof.
  unfold hyUDPConn_Close, bind, closeStream, onStream, call, panic.
  destruct (runCloseFunc (CloseFunc h) st) as [[[] st2]|msg|X c k] eqn:Hf; cbn.
  - exec; intros H; simplify_eq. reflexivity.
  - discriminate.
  - exfalso. revert Hf. unfold runCloseFunc, bind, mapLookup, closeChan, mapDelete, ret.
    cbn. repeat branch; discriminate.
Qed.

(** Once the entry is gone, closing the handle changes nothing. *)
Lemma hyUDPConn_Close_again (h : hyUDPConn) (s : Stream) (st : State) (w : World) :
  hStream h = Some {| qsStream := Some s |} ->
  mapAt st (sessionMap (CloseFunc h)) !! cfSessionID (CloseFunc h) = None ->
  exists e, outcome (run (hyUDPConn_Close h st) w) = Done (e, st).
Proof.
  intros Hs Hnone. eexists.
  rewrite (hyUDPConn_Close_run w Hs (runCloseFunc_absent Hnone)). reflexivity.
Qed.

Lemma closeTimes_again (n : nat) (h : hyUDPConn) (s : Stream) (st : State) (w : World) :
  hStream h = Some {| qsStream := Some s |} ->
  mapAt st (sessionMap (CloseFunc h)) !! cfSessionID (CloseFunc h) = None ->
  outcome (run (closeTimes n h st) w) = Done (tt, st).
Proof.
  intros Hs Hnone. revert w. induction n as [|n IH]; intros w; [reflexivity|].
  cbn [closeTimes]. unfold bind. rewrite run_pbind.
  rewrite (hyUDPConn_Close_run w Hs (runCloseFunc_absent Hnone)). cbn.
  specialize (IH (handle (StreamClose s) w).2).
  destruct (run (closeTimes n h st) (handle (StreamClose s) w).2) as [[o w2] tr2].
  exact IH.
Qed.

Arguments hyUDPConn_Close : simpl never.

Lemma Hold_again (fuel : nat) (h : hyUDPConn) (s : Stream) (st : State) (w : World) :
  hStream h = Some {| qsStream := Some s |} ->
  mapAt st (sessionMap (CloseFunc h)) !! cfSessionID (CloseFunc h) = None ->
  exists le, outcome (run (Hold fuel h st) w) = Done (le, st).
Proof.
  intros Hs Hnone. revert w. induction fuel as [|n IH]; intros w.
  - exists LoopFuel. reflexivity.
  - cbn [Hold]. unfold bind at 1. rewrite run_pbind. rewrite Hs.
    unfold onStream, call. cbn.
    destruct (handle (StreamRead s 1024) w) as [[k [e|]] w1]; cbn.
    + unfold bind. rewrite run_pbind.
      rewrite (hyUDPConn_Close_run w1 Hs (runCloseFunc_absent Hnone)). cbn.
      exists LoopExit. reflexivity.
    + destruct (IH w1) as (le & Hle). exists le.
      destruct (run (Hold n h st) w1) as [[o w2] tr2]. exact Hle.
Qed.

(** ** The session map a handle captured *)

(** A handle returned by [DialUDP] has captured the session map that is
    current when the dial returns, its channel is registered there under
    its session ID, and it wraps a stream. *)
Lemma DialUDP_handle (st st1 : State) (w : World) (h : hyUDPConn) :
  outcome (run (DialUDP st) w) = Done ((Some h, None), st1) ->
  exists (a : nat) (m : gmap N nat) (s : Stream),
    sessionMap (CloseFunc h) = Some a
    /\ udpSessionMap (self st1) = Some a
    /\ cfSessionID (CloseFunc h) = UDPSessionID h
    /\ maps st1 !! a = Some m
    /\ m !! UDPSessionID h = Some (MsgCh h)
    /\ hStream h = Some {| qsStream := Some s |}.
Proof.
  unfold DialUDP. unfold bind at 1. rewrite run_pbind.
  destruct (run (openStreamWithReconnect st) w)
    as [[[[[[session stream] err] st0]|msg] w0] tr0]; [|discriminate].
  cbn [fst snd].
  unfold closeStream, onStream, onConn, bind, call, ret, panic,
    makeChan, getClient, mapStore.
  exec; intros H; simplify_eq.
  cbn. eexists _, _, _. repeat split; try reflexivity.
  - assumption.
  - apply lookup_insert_eq.
  - apply lookup_insert_eq.
Qed.

(** A map that exists and is not the current one is never current
    again, whatever the client does. *)
Lemma stale_evolves (a : nat) (st st1 : State) :
  evolves st st1 ->
  a ∈ dom (maps st) ->
  udpSessionMap (self st) <> Some a ->
  a ∈ dom (maps st1) /\ udpSessionMap (self st1) <> Some a.
Proof.
  intros [_ _ Hd Hu] Ha Hne. split; [apply Hd, Ha|].
  destruct Hu as [->|(b & -> & Hb & _)]; [exact Hne|].
  intros [= ->]. exact (Hb Ha).
Qed.

(** C1.  Let [DialUDP] return handle [h].  The close hook of [h] holds
    the session map that was current when the dial returned, and [h]'s
    channel is registered there under [h]'s session ID.  Let the client
    then do anything, let [connect] succeed (which replaces the session
    map), let the client again do anything, and let [h] be closed.  That
    close removes [h]'s key from the captured map, closes the channel it
    found there, and changes no other map; the captured map is not the
    current one, so the current session map and its contents are the
    same before and after the close. *)
Theorem captured_map_close (st st1 st2 st3 st4 st5 : State)
    (w w1 w2 w3 w4 : World) (h : hyUDPConn) (ops1 ops2 : list Op)
    (e : option error) :
  outcome (run (DialUDP st) w) = Done ((Some h, None), st1) ->
  outcome (run (performAll ops1 st1) w1) = Done (tt, st2) ->
  outcome (run (connect st2) w2) = Done (None, st3) ->
  outcome (run (performAll ops2 st3) w3) = Done (tt, st4) ->
  outcome (run (hyUDPConn_Close h st4) w4) = Done (e, st5) ->
  let f := CloseFunc h in
  (sessionMap f = udpSessionMap (self st1)
   /\ cfSessionID f = UDPSessionID h
   /\ mapAt st1 (sessionMap f) !! UDPSessionID h = Some (MsgCh h))
  /\ (mapAt st5 (sessionMap f) !! cfSessionID f = None
      /\ (forall ch, mapAt st4 (sessionMap f) !! cfSessionID f = Some ch ->
                     exists c, chans st5 !! ch = Some c /\ chClosed c = true)
      /\ (forall a, sessionMap f <> Some a -> maps st5 !! a = maps st4 !! a))
  /\ (udpSessionMap (self st4) <> sessionMap f
      /\ udpSessionMap (self st5) = udpSessionMap (self st4)
      /\ mapAt st5 (udpSessionMap (self st5)) = mapAt st4 (udpSessionMap (self st4))).
Proof.
  intros Hdial Hops1 Hconn Hops2 Hclose f. subst f.
  destruct (DialUDP_handle Hdial) as (a & m & s & Hf & Hcur & Hid & Hm & Hch & _).
  apply hyUDPConn_Close_hook in Hclose.
  destruct (runCloseFunc_result Hclose) as (Hself & Hframe & Hgone & Hclosed & _).
  (* the captured map is stale from the reconnect on *)
  assert (Ha2 : a ∈ dom (maps st2)).
  { apply (@preserves_performAll ops1 st1 w1 tt st2 Hops1).
    apply elem_of_dom. rewrite Hm. eauto. }
  assert (Hstale3 : a ∈ dom (maps st3) /\ udpSessionMap (self st3) <> Some a).
  { destruct (connect_spec st2 w2) as (e1 & st6 & Hout & _ & _ & _ & Hg).
    rewrite Hout in Hconn. injection Hconn as -> ->.
    destruct Hg as [_ (pc & qc & ->)]. cbn. split.
    - rewrite dom_insert_L. apply elem_of_union_r, Ha2.
    - intros [= Heq]. apply (is_fresh (dom (maps st2))). rewrite Heq. exact Ha2. }
  destruct Hstale3 as [Ha3 Hne3].
  destruct (stale_evolves (@preserves_performAll ops2 st3 w3 tt st4 Hops2) Ha3 Hne3)
    as [Ha4 Hne4].
  split; [|split].
  - rewrite Hf, Hcur. split; [reflexivity|]. split; [exact Hid|].
    unfold mapAt. rewrite Hm. exact Hch.
  - split; [exact Hgone|]. split; [exact Hclosed | exact Hframe].
  - rewrite Hself. split; [rewrite Hf; exact Hne4|]. split; [reflexivity|].
    unfold mapAt. destruct (udpSessionMap (self st4)) as [b|]; [|reflexivity].
    rewrite Hframe; [reflexivity|]. rewrite Hf. intros [= ->]. apply Hne4. reflexivity.
Qed.

(** ** Closing the client *)

Lemma osr_closed (st : State) (w : World) :
  closed (self st) = true ->
  run (openStreamWithReconnect st) w = (Done ((None, None, Some ErrClosed), st), w, []).
Proof.
  intros Hc. unfold openStreamWithReconnect, bind, getClient, ret. cbn.
  rewrite Hc. reflexivity.
Qed.

Lemma DialUDP_closed (st : State) (w : World) :
  closed (self st) = true ->
  run (DialUDP st) w = (Done ((None, Some ErrClosed), st), w, []).
Proof.
  intros Hc. unfold DialUDP. unfold bind at 1. rewrite run_pbind.
  rewrite (osr_closed w Hc). reflexivity.
Qed.

Lemma DialTCP_closed (st : State) (w : World) (addr : string) :
  closed (self st) = true ->
  run (DialTCP addr st) w =
    (Done ((None, Some (match SplitHostPort addr with
                        | Ok _ => ErrClosed
                        | Err err => err
                        end)), st), w, []).
Proof.
  intros Hc. unfold DialTCP. destruct (SplitHostPort addr) as [[host port]|err].
  - unfold bind at 1. rewrite run_pbind. rewrite (osr_closed w Hc). reflexivity.
  - reflexivity.
Qed.

(** C3 (as the code has it).  [Close] on a client that holds a
    connection returns and leaves [closed] true.  Whatever is done with
    the client and its handles afterwards, [closed] is still true, and in
    every such state [DialUDP], and [DialTCP] with an address that
    parses, return [ErrClosed] without making a single call: no stream is
    opened and no reconnect attempted.  [DialTCP] with an address that
    does not parse returns the parse error instead, also without making
    a call. *)
Theorem closed_client_refuses_dials (st : State) (w : World)
    (pc : PktConn) (qc : QuicConn) :
  quicConn (self st) = Some qc ->
  pktConn (self st) = Some pc ->
  exists (e : option error) (st1 : State),
    outcome (run (Close st) w) = Done (e, st1)
    /\ closed (self st1) = true
    /\ forall (ops : list Op) (w1 : World) (st2 : State),
         outcome (run (performAll ops st1) w1) = Done (tt, st2) ->
         closed (self st2) = true
         /\ forall (w2 : World),
              run (DialUDP st2) w2 = (Done ((None, Some ErrClosed), st2), w2, [])
              /\ forall (addr : string),
                   run (DialTCP addr st2) w2 =
                     (Done ((None, Some (match SplitHostPort addr with
                                         | Ok _ => ErrClosed
                                         | Err err => err
                                         end)), st2), w2, []).
Proof.
  intros Hq Hp.
  unfold Close, onConn, bind, getClient, call, setClient, ret. cbn.
  rewrite Hq. cbn.
  destruct (handle (QErrorSend qErrorGeneric qc) w) as [e w1]. cbn.
  rewrite Hp. cbn.
  destruct (handle (PktConnClose pc) w1) as [e1 w2]. cbn.
  eexists _, _. split; [reflexivity|]. split; [reflexivity|].
  intros ops w3 st2 Hops.
  assert (Hc : closed (self st2) = true).
  { apply (ev_closed (@preserves_performAll ops _ w3 tt st2 Hops)). reflexivity. }
  split; [exact Hc|]. intros w4.
  split; [apply DialUDP_closed, Hc | intros addr; apply DialTCP_closed, Hc].
Qed.

(** ** The datagram pump *)

Lemma Inv_self (st : State) (c : Client) :
  Inv st -> Inv {| self := c; maps := maps st; chans := chans st |}.
Proof. apply Inv_same_store; reflexivity. Qed.

Lemma Inv_queue (st : State) (c : Client) (ch : nat) (c1 : Chan) :
  chClosed c1 = false ->
  Inv st ->
  Inv {| self := c; maps := maps st; chans := <[ch := c1]> (chans st) |}.
Proof.
  intros Hc HI. apply (Inv_self c) in HI. apply (Inv_trySend ch Hc) in HI. exact HI.
Qed.

(** One turn of the pump makes one call, [ReceiveMessage]; it goes round
    again exactly when that call returned a datagram; it keeps the
    invariant and touches neither the connection fields nor the maps. *)
Lemma handleMessageIter_spec (qc : QuicConn) (st : State) (w : World) :
  Inv st ->
  exists st1 : State,
    run (handleMessageIter qc st) w =
      (Done (match (handle (ReceiveMessage qc) w).1 with Ok _ => true | Err _ => false end,
             st1),
       (handle (ReceiveMessage qc) w).2,
       [Ev (ReceiveMessage qc) (handle (ReceiveMessage qc) w).1])
    /\ Inv st1
    /\ quicConn (self st1) = quicConn (self st)
    /\ pktConn (self st1) = pktConn (self st)
    /\ closed (self st1) = closed (self st)
    /\ udpSessionMap (self st1) = udpSessionMap (self st)
    /\ maps st1 = maps st.
Proof.
  intros HI.
  unfold handleMessageIter, feed, bind, call, ret, getClient, setClient, mapLookup, trySend.
  exec.
  all: try (eexists; split; [reflexivity|]; split;
            [first [apply Inv_queue; [reflexivity | exact HI] | apply Inv_self, HI | exact HI]
            | repeat split ]).
  (* a channel found in a session map is open *)
  exfalso.
  match goal with
  | H : mapAt _ _ !! _ = Some ?n |- _ =>
      destruct (mapAt_lookup_entry H) as (a1 & m1 & _ & Hm1 & Hid1)
  end.
  cbn in Hm1.
  match goal with
  | Hc : chans st !! ?n = Some ?c, Hb : chClosed ?c = true |- _ =>
      destruct (inv_open HI (a := a1) (id := SessionID u0) (ch := n)) as (c2 & Hc2 & Hopen);
        [exists m1; auto | congruence]
  end.
Qed.

Lemma handleMessageIter_full (qc : QuicConn) (st : State) (w w1 : World)
    (msg : bytes) (udpMsg dfMsg : udpMessage) (d1 : defragger) (ch : nat) (c : Chan) :
  handle (ReceiveMessage qc) w = (Ok msg, w1) ->
  unpackUDPMessage msg = Some udpMsg ->
  Feed (udpDefragger (self st)) udpMsg = (d1, Some dfMsg) ->
  mapAt st (udpSessionMap (self st)) !! SessionID dfMsg = Some ch ->
  chans st !! ch = Some c ->
  chClosed c = false ->
  length (chBuf c) = chCap c ->
  run (handleMessageIter qc st) w =
    (Done (true, {| self := withDefragger d1 (self st); maps := maps st; chans := chans st |}),
     w1, [Ev (ReceiveMessage qc) (Ok msg)]).
Proof.
  intros Hx Hu Hf Hm Hc Hopen Hfull.
  unfold handleMessageIter, feed, bind, call, ret, getClient, setClient, mapLookup, trySend.
  cbn. rewrite Hx. cbn. rewrite Hu. cbn. rewrite Hf. cbn.
  change (mapAt {| self := withDefragger d1 (self st); maps := maps st; chans := chans st |}
            (udpSessionMap (self st)))
    with (mapAt st (udpSessionMap (self st))).
  rewrite Hm. cbn. rewrite Hc, Hopen, Hfull.
  destruct (chCap c) as [|k]; [reflexivity|].
  rewrite (proj2 (Nat.leb_gt (S k) k)) by lia. reflexivity.
Qed.

(** The pump leaves its loop on the first [ReceiveMessage] that returns
    an error, and not before. *)
Lemma handleMessage_spec (qc : QuicConn) (fuel : nat) (st : State) (w : World) :
  Inv st ->
  let r := run (handleMessage fuel qc st) w in
  exists (le : LoopEnd) (st1 : State),
    outcome r = Done (le, st1)
    /\ Inv st1
    /\ (quicConn (self st1) = quicConn (self st)
        /\ pktConn (self st1) = pktConn (self st)
        /\ closed (self st1) = closed (self st)
        /\ udpSessionMap (self st1) = udpSessionMap (self st))
    /\ (countEv isReceiveMessage (trace r) = length (trace r)
        /\ countEv isReconnectFunc (trace r) = O
        /\ countEv isPktConnFunc (trace r) = O)
    /\ match le with
       | LoopExit =>
           exists (pre : list Event) (e : error),
             trace r = pre ++ [Ev (ReceiveMessage qc) (Err e)]
             /\ countEv isReceiveError pre = O
       | LoopFuel =>
           length (trace r) = fuel /\ countEv isReceiveError (trace r) = O
       end.
Proof.
  revert st w. induction fuel as [|n IH]; intros st w HI.
  - exists LoopFuel, st. cbn. auto 10.
  - cbn [handleMessage]. unfold bind. cbv zeta. rewrite run_pbind.
    destruct (handleMessageIter_spec qc w HI)
      as (st1 & Hrun & HI1 & Hq & Hp & Hc & Hu & _).
    rewrite Hrun. cbn [fst snd].
    destruct (handle (ReceiveMessage qc) w) as [[msg|e] w1]; cbn [fst snd].
    + specialize (IH st1 w1 HI1). cbv zeta in IH.
      destruct (run (handleMessage n qc st1) w1) as [[o w2] tr].
      destruct IH as (le & st2 & Hout & HI2 & (Hq2 & Hp2 & Hc2 & Hu2) & (Hr & Hn & Hf) & Hle).
      unfold outcome, trace in *. cbn in *.
      exists le, st2. split; [exact Hout|]. split; [exact HI2|].
      split; [repeat split; congruence|]. split; [repeat split; lia|].
      destruct le.
      * destruct Hle as (pre & e & -> & Hpre).
        exists (Ev (ReceiveMessage qc) (Ok msg) :: pre), e. split; [reflexivity|exact Hpre].
      * destruct Hle as [Hlen Herr]. split; [lia | exact Herr].
    + exists LoopExit, st1. cbn. split; [reflexivity|]. split; [exact HI1|].
      split; [auto|]. split; [auto|].
      exists [], e. split; reflexivity.
Qed.

(** C8.  On a store that satisfies the invariant: a turn of the pump
    that assembles a message for a session whose queue is full returns
    at once and goes round again, having made no call but
    [ReceiveMessage] and having left every queue as it was (the message is
    dropped).  The loop never panics; it is left exactly when a
    [ReceiveMessage] returns an error, which is then the last call made,
    and as long as no [ReceiveMessage] fails it keeps turning, one
    [ReceiveMessage] per turn.  The pump calls nothing but
    [ReceiveMessage] (in particular neither the reconnect callback nor the
    packet-conn factory) and leaves the connection fields, [closed] and the
    current session map of the client untouched. *)
Theorem pump_policy (qc : QuicConn) (st : State) (w : World) :
  Inv st ->
  (forall (w1 : World) (msg : bytes) (udpMsg dfMsg : udpMessage) (d1 : defragger)
          (ch : nat) (c : Chan),
      handle (ReceiveMessage qc) w = (Ok msg, w1) ->
      unpackUDPMessage msg = Some udpMsg ->
      Feed (udpDefragger (self st)) udpMsg = (d1, Some dfMsg) ->
      mapAt st (udpSessionMap (self st)) !! SessionID dfMsg = Some ch ->
      chans st !! ch = Some c ->
      chClosed c = false ->
      length (chBuf c) = chCap c ->
      run (handleMessageIter qc st) w =
        (Done (true, {| self := withDefragger d1 (self st);
                        maps := maps st; chans := chans st |}),
         w1, [Ev (ReceiveMessage qc) (Ok msg)]))
  /\ (forall fuel : nat,
         let r := run (handleMessage fuel qc st) w in
         exists (le : LoopEnd) (st1 : State),
           outcome r = Done (le, st1)
           /\ Inv st1
           /\ (quicConn (self st1) = quicConn (self st)
               /\ pktConn (self st1) = pktConn (self st)
               /\ closed (self st1) = closed (self st)
               /\ udpSessionMap (self st1) = udpSessionMap (self st))
           /\ (countEv isReceiveMessage (trace r) = length (trace r)
               /\ countEv isReconnectFunc (trace r) = O
               /\ countEv isPktConnFunc (trace r) = O)
           /\ match le with
              | LoopExit =>
                  exists (pre : list Event) (e : error),
                    trace r = pre ++ [Ev (ReceiveMessage qc) (Err e)]
                    /\ countEv isReceiveError pre = O
              | LoopFuel =>
                  length (trace r) = fuel /\ countEv isReceiveError (trace r) = O
              end).
Proof.
  intros HI. split.
  - intros. eapply handleMessageIter_full; eassumption.
  - intros fuel. apply handleMessage_spec. exact HI.
Qed.

(** ** The client [NewClient] returns *)

Lemma Inv_no_maps (st : State) : maps st = ∅ -> Inv st.
Proof.
  intros Hm. split.
  - intros a id ch (m & Hl & _). rewrite Hm, lookup_empty in Hl. discriminate Hl.
  - intros a1 id1 a2 id2 ch (m & Hl & _). rewrite Hm, lookup_empty in Hl. discriminate Hl.
Qed.

(** A client obtained from [NewClient] satisfies the invariant, is open
    and holds a packet conn, a QUIC connection and a session map. *)
Lemma NewClient_connected (addr : string) (a : bytes) (tls : TLSConfig)
    (cfg : QuicConfig) (s r : Z) (w : World) (st : State) :
  outcome (run (NewClient addr a tls cfg s r) w) = Done (Ok st) ->
  Inv st
  /\ closed (self st) = false
  /\ is_Some (pktConn (self st))
  /\ is_Some (quicConn (self st))
  /\ is_Some (udpSessionMap (self st)).
Proof.
  unfold NewClient. rewrite run_pbind.
  match goal with
  | |- context [run (connect ?s0) w] =>
      destruct (connect_spec s0 w) as (e & st1 & Hout & _ & _ & _ & Hg);
      destruct (run (connect s0) w) as [[o w1] tr1]
  end.
  unfold outcome in Hout. cbn in Hout. subst o. cbn.
  destruct e as [err|]; cbn; intros H; [discriminate H|].
  injection H as <-. destruct Hg as [_ (pc & qc & ->)].
  split; [|cbn; eauto].
  apply (ev_inv (evolves_reconnected pc qc _)). apply Inv_no_maps. reflexivity.
Qed.

(** * Further properties of the code *)

(** ** connect and NewClient, continued *)

Lemma firstEv_app {A : Type} (f : Event -> option A) (tr1 tr2 : list Event) :
  firstEv f (tr1 ++ tr2) =
  match firstEv f tr1 with
  | Some a => Some a
  | None => firstEv f tr2
  end.
Proof.
  induction tr1 as [|e tr1 IH]; [reflexivity|].
  cbn. destruct (f e); [reflexivity | exact IH].
Qed.

(** X1.  [connect] first tears down what the client holds: the previous
    QUIC connection, if any, is closed with code 0 and an empty reason,
    then the previous packet conn, if any, is closed; only then is the
    packet-conn factory called, with the client's server address. *)
Theorem connect_tears_down_first (st : State) (w : World) :
  exists (pre : list Event) (x : result (PktConn * Addr)) (rest : list Event),
    trace (run (connect st) w)
      = pre ++ Ev (PktConnFunc (serverAddr (self st))) x :: rest
    /\ teardown (self st) pre.
Proof.
  unfold teardown, connect, handleControlStream, bind, getClient, call, ret,
    setClient, makeMap.
  exec.
  all: eexists _, _, _; split;
    [|first [reflexivity | eexists; first [reflexivity | eexists; reflexivity]]];
    reflexivity.
Qed.

(** What a [connect] that returns has done to the client. *)
Lemma connect_result (st : State) (w : World) :
  exists (e : option error) (st1 : State),
    outcome (run (connect st) w) = Done (e, st1)
    /\ match e with
       | Some _ =>
           st1 = st /\ countEv isGoHandleMessage (trace (run (connect st) w)) = O
       | None =>
           exists (pc : PktConn) (qc : QuicConn),
             firstEv evPktConn (trace (run (connect st) w)) = Some pc
             /\ firstEv evQuicConn (trace (run (connect st) w)) = Some qc
             /\ st1 = reconnected pc qc st
             /\ [Ev (GoHandleMessage qc) tt] `suffix_of` trace (run (connect st) w)
             /\ mapAt st1 (udpSessionMap (self st1)) = ∅
             /\ chans st1 = chans st
             /\ closed (self st1) = closed (self st)
       end.
Proof.
  unfold connect, handleControlStream, bind, getClient, call, ret, setClient, makeMap.
  exec.
  all: eexists _, _; split; [reflexivity|]; cbn.
  all: try (split; [destruct st; reflexivity | reflexivity]).
  all: eexists _, _; split; [reflexivity|]; split; [reflexivity|].
  all: split; [reflexivity|].
  all: split; [match goal with x : unit |- _ => destruct x end; suffix_tac|].
  all: unfold mapAt; cbn; rewrite lookup_insert_eq; auto.
Qed.

(** X2.  Whenever [connect] returns (the packet-conn factory it calls is
    taken to be a function, not nil): if it returns an error, the client
    and the store are exactly as before, so the previous connection
    objects stay in the fields although they were closed, and no pump was
    started.  If it returns nil, the packet conn the factory returned and
    the connection [quic.Dial] returned are installed, a fresh empty
    session map is current, no channel is touched, [closed] is as before,
    and starting the pump on the new connection is the last call made. *)
Theorem connect_installs_or_keeps (st st1 : State) (w : World) (e : option error) :
  outcome (run (connect st) w) = Done (e, st1) ->
  match e with
  | Some _ =>
      st1 = st /\ countEv isGoHandleMessage (trace (run (connect st) w)) = O
  | None =>
      exists (pc : PktConn) (qc : QuicConn),
        firstEv evPktConn (trace (run (connect st) w)) = Some pc
        /\ firstEv evQuicConn (trace (run (connect st) w)) = Some qc
        /\ st1 = reconnected pc qc st
        /\ [Ev (GoHandleMessage qc) tt] `suffix_of` trace (run (connect st) w)
        /\ mapAt st1 (udpSessionMap (self st1)) = ∅
        /\ chans st1 = chans st
        /\ closed (self st1) = closed (self st)
  end.
Proof.
  intros H. destruct (connect_result st w) as (e1 & st2 & Hout & Hm).
  rewrite Hout in H. injection H as <- <-. exact Hm.
Qed.

(** What [connect] passes on. *)
Lemma connect_parameters (st : State) (w : World) :
  let tr := trace (run (connect st) w) in
  firstEv evFactoryAddr tr = Some (serverAddr (self st))
  /\ (forall sn t c, firstEv evDialArgs tr = Some (sn, t, c) ->
                     sn = serverName (self st) /\ t = tlsConfig (self st)
                     /\ c = quicConfig (self st))
  /\ (forall h, firstEv evClientHello tr = Some h ->
                h = {| chRate := {| SendBPS := sendBPS (self st);
                                    RecvBPS := recvBPS (self st) |};
                       chAuth := auth (self st) |}).
Proof.
  unfold connect, handleControlStream, bind, getClient, call, ret, setClient, makeMap.
  exec.
  all: split; [reflexivity|]; split; intros; simplify_eq; auto.
Qed.

Lemma NewClient_trace (addr : string) (a : bytes) (tls : TLSConfig)
    (cfg : QuicConfig) (s r : Z) (w : World) :
  exists st0 : State,
    serverAddr (self st0) = addr
    /\ serverName (self st0) = match netSplitHostPort addr with
                               | Ok (host, _) => host
                               | Err _ => EmptyString
                               end
    /\ tlsConfig (self st0) = tls
    /\ DisablePathMTUDiscovery (quicConfig (self st0))
         = DisablePathMTUDiscovery cfg || pmtudDisablePathMTUDiscovery
    /\ sendBPS (self st0) = s /\ recvBPS (self st0) = r /\ auth (self st0) = a
    /\ trace (run (NewClient addr a tls cfg s r) w) = trace (run (connect st0) w).
Proof.
  unfold NewClient.
  exists {| self := {| serverAddr := addr;
                       serverName := match netSplitHostPort addr with
                                     | Ok (host, _) => host
                                     | Err _ => EmptyString
                                     end;
                       sendBPS := s; recvBPS := r; auth := a; tlsConfig := tls;
                       quicConfig :=
                         {| DisablePathMTUDiscovery :=
                              DisablePathMTUDiscovery cfg || pmtudDisablePathMTUDiscovery |};
                       pktConn := None; quicConn := None; closed := false;
                       udpSessionMap := None; udpDefragger := defragger0 |};
            maps := ∅; chans := ∅ |}.
  repeat (split; [reflexivity|]).
  rewrite run_pbind.
  match goal with
  | |- context [run (connect ?s0) w] =>
      destruct (connect_spec s0 w) as (e & st1 & Hout & _);
      destruct (run (connect s0) w) as [[o w1] tr1]
  end.
  unfold outcome in Hout. cbn in Hout. subst o. cbn.
  destruct e; cbn; unfold trace; cbn; apply app_nil_r.
Qed.

(** X3.  [NewClient] calls the packet-conn factory once, with the server
    address it was given, and never the reconnect callback.  If it gets
    as far as [quic.Dial], the server name passed is the host part of the
    address, or empty when the address does not split, the TLS config is
    the caller's, and path-MTU discovery is disabled in the QUIC config
    when the caller or the platform disables it.  If it gets as far as the
    client hello, the hello carries the caller's rates and auth bytes. *)
Theorem NewClient_passes_parameters (addr : string) (a : bytes) (tls : TLSConfig)
    (cfg : QuicConfig) (s r : Z) (w : World) :
  let tr := trace (run (NewClient addr a tls cfg s r) w) in
  firstEv evFactoryAddr tr = Some addr
  /\ countEv isPktConnFunc tr = 1%nat
  /\ countEv isReconnectFunc tr = O
  /\ (forall sn t c,
         firstEv evDialArgs tr = Some (sn, t, c) ->
         sn = match netSplitHostPort addr with
              | Ok (host, _) => host
              | Err _ => EmptyString
              end
         /\ t = tls
         /\ DisablePathMTUDiscovery c
              = DisablePathMTUDiscovery cfg || pmtudDisablePathMTUDiscovery)
  /\ (forall h, firstEv evClientHello tr = Some h ->
                h = {| chRate := {| SendBPS := s; RecvBPS := r |}; chAuth := a |}).
Proof.
  cbv zeta.
  destruct (NewClient_trace addr a tls cfg s r w)
    as (st0 & Ha & Hn & Ht & Hc & Hs & Hr & Hau & ->).
  destruct (connect_parameters st0 w) as (Hf & Hd & Hh).
  destruct (connect_spec st0 w) as (e & st1 & _ & Hrc & Hpc & _).
  split; [rewrite Hf, Ha; reflexivity|]. split; [exact Hpc|]. split; [exact Hrc|].
  split.
  - intros sn t c Hdial. destruct (Hd _ _ _ Hdial) as (-> & -> & ->). auto.
  - intros h Hhello. rewrite (Hh _ Hhello), Hs, Hr, Hau. reflexivity.
Qed.

(** ** The dials, continued *)

Lemma connect_quiet (st : State) (w : World) :
  firstEv evOpened (trace (run (connect st) w)) = None
  /\ firstEv evResponse (trace (run (connect st) w)) = None.
Proof.
  unfold connect, handleControlStream, bind, getClient, call, ret, setClient, makeMap.
  exec; split; reflexivity.
Qed.

Lemma reconnected_keeps (pc : PktConn) (qc : QuicConn) (st : State) :
  chans (reconnected pc qc st) = chans st
  /\ forall a m, maps st !! a = Some m -> maps (reconnected pc qc st) !! a = Some m.
Proof.
  split; [reflexivity|]. intros a m Hm. cbn.
  rewrite lookup_insert_ne; [exact Hm|].
  intros <-. pose proof (is_fresh (dom (maps st))) as Hf.
  apply Hf, elem_of_dom. eauto.
Qed.

Ltac exec_connect2 :=
  match goal with
  | |- context [run (pbind (connect ?st) ?f) ?w] =>
      let e := fresh "e" in
      let st1 := fresh "st" in
      let Hout := fresh "Hout" in
      let Hg := fresh "Hg" in
      let Hqo := fresh "Hqo" in
      let Hqr := fresh "Hqr" in
      let o := fresh "o" in
      let wc := fresh "w" in
      let trc := fresh "trc" in
      rewrite (run_pbind (connect st) f w);
      destruct (connect_spec st w) as (e & st1 & Hout & _ & _ & _ & Hg);
      destruct (connect_quiet st w) as (Hqo & Hqr);
      destruct (run (connect st) w) as [[o wc] trc];
      unfold outcome, trace in Hout, Hg, Hqo, Hqr; cbn in Hout, Hg, Hqo, Hqr;
      subst o; destruct e; cbn;
      [ destruct Hg as [_ ->]
      | destruct Hg as [_ (? & ? & ->)] ]; cbn
  end.

(** What [openStreamWithReconnect] hands to a dial. *)
Lemma osr_result (st st1 : State) (w : World) (qc : option QuicConn)
    (stream : option qStream) (err : option error) :
  outcome (run (openStreamWithReconnect st) w) = Done ((qc, stream, err), st1) ->
  firstEv evResponse (trace (run (openStreamWithReconnect st) w)) = None
  /\ chans st1 = chans st
  /\ (forall a m, maps st !! a = Some m -> maps st1 !! a = Some m)
  /\ match err with
     | None =>
         exists (s : Stream) (q : QuicConn),
           stream = Some {| qsStream := Some s |}
           /\ qc = Some q
           /\ quicConn (self st1) = Some q
           /\ firstEv evOpened (trace (run (openStreamWithReconnect st) w)) = Some s
     | Some _ => firstEv evOpened (trace (run (openStreamWithReconnect st) w)) = None
     end.
Proof.
  unfold openStreamWithReconnect, onConn, bind, getClient, call, ret, panic.
  exec; try exec_connect2; exec.
  all: intros H; simplify_eq; cbn; rewrite ?firstEv_app; cbn.
  all: repeat match goal with H : firstEv _ _ = None |- _ => rewrite H end; cbn.
  all: repeat split; auto.
  all: try (eexists _, _; repeat split; eauto; fail).
  all: match goal with
       | |- forall a m, maps ?s !! a = Some m -> _ =>
           exact (proj2 (reconnected_keeps O O s))
       end.
Qed.

Lemma osr_no_response (st : State) (w : World) :
  firstEv evResponse (trace (run (openStreamWithReconnect st) w)) = None.
Proof.
  unfold openStreamWithReconnect, onConn, bind, getClient, call, ret, panic.
  exec; try exec_connect2; exec.
  all: rewrite ?firstEv_app; cbn.
  all: repeat match goal with H : firstEv _ _ = None |- _ => rewrite H end; reflexivity.
Qed.

(** Split a dial into [openStreamWithReconnect] and what follows. *)
Ltac dial_osr st w :=
  unfold bind at 1; rewrite run_pbind;
  let Hosr := fresh "Hosr" in
  let Hrun := fresh "Hrun" in
  pose proof (fun st1 qc s e => @osr_result st st1 w qc s e) as Hosr;
  destruct (run (openStreamWithReconnect st) w)
    as [[[[[[?session ?stream] ?err] ?st0]|?msg] ?w0] ?tr0] eqn:Hrun;
  [ specialize (Hosr _ _ _ _ eq_refl); unfold trace in Hosr; cbn [fst snd] in Hosr;
    destruct Hosr as (?Hresp & ?Hchans & ?Hmaps & ?Hopen)
  | clear Hosr ];
  cbn [fst snd].

(** Name the run the goal is about. *)
Ltac focus_run :=
  match goal with
  | |- context [run ?p ?w] =>
      let r := fresh "r" in
      let Hr := fresh "Hr" in
      remember (run p w) as r eqn:Hr; revert Hr; revert r
  end.

(** Take the run the goal was about, and what is assumed of its outcome. *)
Ltac finish_run :=
  let r := fresh "r" in
  let H := fresh "H" in
  intros r -> H; unfold outcome in H; cbn in H; simplify_eq.

Ltac dial_tail :=
  unfold closeStream, onStream, onConn, bind, call, ret, panic,
    makeChan, getClient, mapStore;
  exec.

(** X4.  When [DialTCP] succeeds, the address parsed, a stream was
    opened, and the last four calls were, on that stream and on the
    connection that is current when the dial returns: the request with
    [UDP] false and the parsed host and port, the read of a response with
    [OK] true, [LocalAddr] and [RemoteAddr].  The handle returned wraps
    that stream and carries the two addresses just obtained. *)
Theorem DialTCP_success (st st1 : State) (w : World) (addr : string) (conn : hyTCPConn) :
  outcome (run (DialTCP addr st) w) = Done ((Some conn, None), st1) ->
  exists (host : string) (port : Z) (s : Stream) (q : QuicConn)
         (sr : serverResponse) (la ra : Addr),
    SplitHostPort addr = Ok (host, port)
    /\ firstEv evOpened (trace (run (DialTCP addr st) w)) = Some s
    /\ quicConn (self st1) = Some q
    /\ [Ev (PackClientRequest s {| crUDP := false; crHost := host; crPort := port |}) None;
        Ev (UnpackServerResponse s) (Ok sr);
        Ev (LocalAddr q) la;
        Ev (RemoteAddr q) ra] `suffix_of` trace (run (DialTCP addr st) w)
    /\ srOK sr = true
    /\ conn = {| Orig := Some {| qsStream := Some s |};
                 PseudoLocalAddr := la; PseudoRemoteAddr := ra |}.
Proof.
  focus_run. unfold DialTCP.
  destruct (SplitHostPort addr) as [[host port]|e0]; [|intros r -> H; discriminate H].
  dial_osr st w; [|intros r -> H; discriminate H].
  destruct err as [e1|]; [intros r -> H; discriminate H|].
  destruct Hopen as (s & q & -> & -> & Hq & Hs).
  dial_tail; finish_run.
  exists host, port, s, q. eexists _, _, _. unfold trace. cbn.
  split; [reflexivity|]. split; [rewrite firstEv_app, Hs; reflexivity|].
  split; [exact Hq|]. split; [apply suffix_app_r; reflexivity|].
  split; [assumption | reflexivity].
Qed.

(** What a successful [DialUDP] has done. *)
Lemma DialUDP_registered (st st1 : State) (w : World) (h : hyUDPConn) :
  outcome (run (DialUDP st) w) = Done ((Some h, None), st1) ->
  exists (s : Stream) (q : QuicConn) (sr : serverResponse) (a : nat),
    firstEv evOpened (trace (run (DialUDP st) w)) = Some s
    /\ quicConn (self st1) = Some q
    /\ udpSessionMap (self st1) = Some a
    /\ [Ev (PackClientRequest s {| crUDP := true; crHost := EmptyString; crPort := 0 |})
           None;
        Ev (UnpackServerResponse s) (Ok sr);
        Ev (GoHold h) tt] `suffix_of` trace (run (DialUDP st) w)
    /\ srOK sr = true
    /\ h = {| Session := Some q;
              hStream := Some {| qsStream := Some s |};
              CloseFunc := {| sessionMap := Some a; cfSessionID := srUDPSessionID sr |};
              UDPSessionID := srUDPSessionID sr;
              MsgCh := fresh (dom (chans st)) |}
    /\ (MsgCh h ∉ dom (chans st))
    /\ chans st1
         = <[MsgCh h := {| chBuf := []; chCap := 1024; chClosed := false |}]> (chans st)
    /\ mapAt st1 (Some a) !! srUDPSessionID sr = Some (MsgCh h).
Proof.
  focus_run. unfold DialUDP.
  dial_osr st w; [|intros r -> H; discriminate H].
  destruct err as [e1|]; [intros r -> H; discriminate H|].
  destruct Hopen as (s & q & -> & -> & Hq & Hs).
  dial_tail; finish_run.
  match goal with x : unit |- _ => destruct x end.
  eexists s, q, _, _. unfold trace, mapAt. cbn. rewrite Hchans.
  split; [rewrite firstEv_app, Hs; reflexivity|].
  split; [exact Hq|]. split; [eassumption|].
  split; [apply suffix_app_r; reflexivity|].
  split; [assumption|]. split; [reflexivity|].
  split; [apply is_fresh|]. split; [reflexivity|].
  rewrite lookup_insert_eq. cbn. apply lookup_insert_eq.
Qed.

(** X5.  When [DialUDP] succeeds, a stream was opened and the last three
    calls were the request with [UDP] true on it, the read of a response
    with [OK] true, and the start of [Hold] on the handle returned.  The
    handle holds the connection and the session map that are current when
    the dial returns, that stream, the session ID of the response, and a
    channel that did not exist before; that channel is empty, open, of
    capacity 1024, and is bound to the session ID in the current map. *)
Theorem DialUDP_success (st st1 : State) (w : World) (h : hyUDPConn) :
  outcome (run (DialUDP st) w) = Done ((Some h, None), st1) ->
  exists (s : Stream) (q : QuicConn) (sr : serverResponse) (a : nat),
    firstEv evOpened (trace (run (DialUDP st) w)) = Some s
    /\ quicConn (self st1) = Some q
    /\ udpSessionMap (self st1) = Some a
    /\ [Ev (PackClientRequest s {| crUDP := true; crHost := EmptyString; crPort := 0 |})
           None;
        Ev (UnpackServerResponse s) (Ok sr);
        Ev (GoHold h) tt] `suffix_of` trace (run (DialUDP st) w)
    /\ srOK sr = true
    /\ h = {| Session := Some q;
              hStream := Some {| qsStream := Some s |};
              CloseFunc := {| sessionMap := Some a; cfSessionID := srUDPSessionID sr |};
              UDPSessionID := srUDPSessionID sr;
              MsgCh := fresh (dom (chans st)) |}
    /\ (MsgCh h ∉ dom (chans st))
    /\ chans st1
         = <[MsgCh h := {| chBuf := []; chCap := 1024; chClosed := false |}]> (chans st)
    /\ mapAt st1 (Some a) !! srUDPSessionID sr = Some (MsgCh h).
Proof. apply DialUDP_registered. Qed.

(** X6.  A dial that fails after a stream was opened closes that stream
    as the last thing it does, for [DialTCP] and for [DialUDP] alike. *)
Theorem dial_failure_closes_stream (st : State) (w : World) (addr : string) :
  (forall (s : Stream) (err : error) (st1 : State),
      outcome (run (DialTCP addr st) w) = Done ((None, Some err), st1) ->
      firstEv evOpened (trace (run (DialTCP addr st) w)) = Some s ->
      exists y, [Ev (StreamClose s) y] `suffix_of` trace (run (DialTCP addr st) w))
  /\ (forall (s : Stream) (err : error) (st1 : State),
         outcome (run (DialUDP st) w) = Done ((None, Some err), st1) ->
         firstEv evOpened (trace (run (DialUDP st) w)) = Some s ->
         exists y, [Ev (StreamClose s) y] `suffix_of` trace (run (DialUDP st) w)).
Proof.
  split; intros s err st1; focus_run.
  - unfold DialTCP.
    destruct (SplitHostPort addr) as [[host port]|e0];
      [|intros r -> _ H; discriminate H].
    dial_osr st w; [|intros r -> H; discriminate H].
    destruct err0 as [e1|].
    { intros r -> _. unfold trace. cbn. rewrite app_nil_r, Hopen. discriminate. }
    destruct Hopen as (s0 & q & -> & -> & Hq & Hs).
    dial_tail; finish_run.
    all: unfold trace; cbn; rewrite firstEv_app, Hs; intros [= <-].
    all: eexists; apply suffix_app_r; suffix_tac.
  - unfold DialUDP.
    dial_osr st w; [|intros r -> H; discriminate H].
    destruct err0 as [e1|].
    { intros r -> _. unfold trace. cbn. rewrite app_nil_r, Hopen. discriminate. }
    destruct Hopen as (s0 & q & -> & -> & Hq & Hs).
    dial_tail; finish_run.
    all: unfold trace; cbn; rewrite firstEv_app, Hs; intros [= <-].
    all: eexists; apply suffix_app_r; suffix_tac.
Qed.

(** X7.  A [DialUDP] that returns without a handle has created no
    channel and changed no session map that existed (a reconnect made on
    the way can only have added a map). *)
Theorem failed_DialUDP_registers_nothing (st st1 : State) (w : World)
    (err : option error) :
  outcome (run (DialUDP st) w) = Done ((None, err), st1) ->
  chans st1 = chans st
  /\ forall a m, maps st !! a = Some m -> maps st1 !! a = Some m.
Proof.
  focus_run. unfold DialUDP.
  dial_osr st w; [|intros r -> H; discriminate H].
  destruct err0 as [e1|]; [finish_run; auto|].
  destruct Hopen as (s0 & q & -> & -> & Hq & Hs).
  dial_tail; finish_run; auto.
Qed.

(** X8.  When the server's response to a dial has [OK] false, the dial
    returns no handle and an error whose text is "connection rejected: "
    followed by the server's message, for [DialTCP] and [DialUDP] alike. *)
Theorem dial_rejection (st : State) (w : World) (addr : string) (sr : serverResponse) :
  srOK sr = false ->
  (firstEv evResponse (trace (run (DialTCP addr st) w)) = Some sr ->
   exists st1,
     outcome (run (DialTCP addr st) w)
       = Done ((None, Some (Errorf "connection rejected: " (srMessage sr))), st1))
  /\ (firstEv evResponse (trace (run (DialUDP st) w)) = Some sr ->
      exists st1,
        outcome (run (DialUDP st) w)
          = Done ((None, Some (Errorf "connection rejected: " (srMessage sr))), st1))
  /\ contains (errorString (Errorf "connection rejected: " (srMessage sr)))
       (srMessage sr).
Proof.
  intros Hok. split; [|split; [|apply Errorf_contains]];
    pose proof (osr_no_response st w) as Hnr; focus_run; revert Hnr.
  - unfold DialTCP.
    destruct (SplitHostPort addr) as [[host port]|e0];
      [|intros _ r -> H; discriminate H].
    dial_osr st w; [|intros Hnr r ->; unfold trace in *; cbn in *; rewrite Hnr; discriminate].
    intros _. destruct err as [e1|].
    { intros r ->. unfold trace. cbn. rewrite app_nil_r, Hresp. discriminate. }
    destruct Hopen as (s0 & q & -> & -> & Hq & Hs).
    dial_tail; intros r ->; unfold trace, outcome; cbn;
      rewrite firstEv_app, Hresp; cbn; intros H; simplify_eq; eauto; congruence.
  - unfold DialUDP.
    dial_osr st w; [|intros Hnr r ->; unfold trace in *; cbn in *; rewrite Hnr; discriminate].
    intros _. destruct err as [e1|].
    { intros r ->. unfold trace. cbn. rewrite app_nil_r, Hresp. discriminate. }
    destruct Hopen as (s0 & q & -> & -> & Hq & Hs).
    dial_tail; intros r ->; unfold trace, outcome; cbn;
      rewrite firstEv_app, Hresp; cbn; intros H; simplify_eq; eauto; congruence.
Qed.

(** ** Reconnecting, closing, writing and holding, continued *)

(** X9.  When the client is open and [OpenStream] fails with an error
    that is not temporary, the reconnect callback is called next, with
    that very error, and then [connect] runs.  If [connect] fails, its
    error is returned with a nil connection and a nil stream, nothing
    else is called and the state is as before.  If it succeeds, one
    [OpenStream] on the new connection follows and its result is
    returned together with the new connection. *)
Theorem permanent_error_reconnects (st : State) (w w1 : World)
    (qc : QuicConn) (err : error) :
  closed (self st) = false ->
  quicConn (self st) = Some qc ->
  handle (OpenStream qc) w = (Err err, w1) ->
  isTemporary err = false ->
  let rc := run (connect st) (handle (ReconnectFunc err) w1).2 in
  let r := run (openStreamWithReconnect st) w in
  exists rest : list Event,
    trace r = Ev (OpenStream qc) (Err err) :: Ev (ReconnectFunc err) tt :: trace rc ++ rest
    /\ match outcome rc with
       | Done (Some e1, _) =>
           rest = [] /\ outcome r = Done ((None, None, Some e1), st)
       | Done (None, st1) =>
           exists (q : QuicConn) (x : result Stream),
             quicConn (self st1) = Some q
             /\ rest = [Ev (OpenStream q) x]
             /\ outcome r
                = Done ((Some q, Some {| qsStream := valueOf x |}, errorOf x), st1)
       | Panicked _ => False
       end.
Proof.
  intros Hc Hq Hx Ht.
  unfold openStreamWithReconnect, onConn, bind, getClient, call, ret, panic.
  cbn. rewrite Hc, Hq. cbn. rewrite Hx. cbn. rewrite Ht. cbn.
  destruct (handle (ReconnectFunc err) w1) as [[] w2]. cbn.
  rewrite run_pbind.
  destruct (connect_spec st w2) as (e & st1 & Hout & _ & _ & _ & Hg).
  destruct (run (connect st) w2) as [[o wc] trc].
  unfold outcome, trace in *. cbn in *. subst o.
  destruct e as [e1|]; cbn.
  - destruct Hg as [_ ->]. exists []. rewrite app_nil_r. auto.
  - destruct Hg as [_ (pc & q & ->)]. cbn.
    destruct (handle (OpenStream q) wc) as [[s|e2] w3]; cbn.
    + eexists. split; [reflexivity|]. exists q, (Ok s). auto.
    + eexists. split; [reflexivity|]. exists q, (Err e2). auto.
Qed.

Lemma countEv_sendEvents (qc : QuicConn) (l : list udpMessage)
    (answers : list (option error)) :
  countEv isSendMessage (sendEvents qc l answers) = length (sendEvents qc l answers)
  /\ countEv isRandInt63 (sendEvents qc l answers) = O.
Proof.
  unfold sendEvents. revert answers.
  induction l as [|m l IH]; intros [|a answers]; cbn; auto.
  destruct (IH answers) as [-> ->]. auto.
Qed.

(** X10.  [WriteTo] never changes the client or the store; it calls
    nothing but [SendMessage] and, at most once, [rand.Intn] for a
    message ID;
    with an address that does not parse it calls nothing at all and
    returns the parse error. *)
Theorem WriteTo_only_sends (h : hyUDPConn) (p : bytes) (addr : string)
    (st : State) (w : World) :
  let r := run (WriteTo h p addr st) w in
  (forall e st1, outcome r = Done (e, st1) -> st1 = st)
  /\ (countEv isSendMessage (trace r) + countEv isRandInt63 (trace r)
      = length (trace r))%nat
  /\ (countEv isRandInt63 (trace r) <= 1)%nat
  /\ (forall err, SplitHostPort addr = Err err -> r = (Done (Some err, st), w, [])).
Proof.
  unfold WriteTo. destruct (SplitHostPort addr) as [[host port]|e0].
  2:{ cbn. repeat split; auto; intros; unfold outcome in *; cbn in *; simplify_eq;
      reflexivity. }
  destruct (Session h) as [qc|]; unfold onConn, randIntn, bind, call, ret, panic; cbn.
  2:{ repeat split; auto; intros; unfold outcome in *; cbn in *; simplify_eq. }
  destruct (handle (SendMessage qc _) w) as [[e|] w1]; cbn.
  2:{ repeat split; auto; intros; unfold outcome in *; cbn in *; simplify_eq;
      reflexivity. }
  destruct e; cbn;
    try (repeat split; auto; intros; unfold outcome in *; cbn in *; simplify_eq;
         reflexivity).
  destruct (handle RandInt63 w1) as [draw w2]. cbn.
  match goal with
  | |- context [run (sendFrags (Some qc) ?l st) w2] =>
      destruct (sendFrags_spec qc l st w2) as (answers & Htr & Hres);
      destruct (run (sendFrags (Some qc) l st) w2) as [[o w3] tr];
      pose proof (countEv_sendEvents qc l answers) as [Hs Hr]
  end.
  unfold trace, outcome in *. cbn in *. subst tr.
  rewrite Hs, Hr.
  split; [|split; [lia|split; [lia|intros; simplify_eq]]].
  intros e st1 H.
  destruct Hres as [[_ Ho]|(i & e1 & _ & _ & Ho)]; rewrite Ho in H; simplify_eq;
    reflexivity.
Qed.

(** X11.  On a store that satisfies the invariant, [Hold] on a handle
    with a stream reads from the stream until a read fails and then
    closes the handle: the failed read and the close of the stream are
    its last two calls, every call before them is a read that succeeded,
    and the handle's key is gone from the map it captured.  As long as
    no read fails it only reads and changes nothing. *)
Theorem Hold_closes_on_read_error (fuel : nat) (h : hyUDPConn) (s : Stream)
    (st : State) (w : World) :
  Inv st ->
  hStream h = Some {| qsStream := Some s |} ->
  let r := run (Hold fuel h st) w in
  exists (le : LoopEnd) (st1 : State),
    outcome r = Done (le, st1)
    /\ match le with
       | LoopExit =>
           exists (pre : list Event) (n : Z) (e : error) (y : option error),
             trace r = pre ++ [Ev (StreamRead s 1024) (n, Some e); Ev (StreamClose s) y]
             /\ countEv isStreamRead pre = length pre
             /\ countEv isReadError pre = O
             /\ runCloseFunc (CloseFunc h) st = Ret (tt, st1)
             /\ mapAt st1 (sessionMap (CloseFunc h)) !! cfSessionID (CloseFunc h) = None
       | LoopFuel =>
           st1 = st
           /\ length (trace r) = fuel
           /\ countEv isStreamRead (trace r) = fuel
           /\ countEv isReadError (trace r) = O
       end.
Proof.
  intros HI Hs. revert w. induction fuel as [|k IH]; intros w.
  - exists LoopFuel, st. cbn. auto.
  - cbn [Hold]. unfold bind at 1. cbv zeta. rewrite run_pbind. rewrite Hs.
    unfold onStream, call. cbn.
    destruct (handle (StreamRead s 1024) w) as [[n [e|]] w1]; cbn.
    + unfold bind. rewrite run_pbind.
      destruct (runCloseFunc_Inv (CloseFunc h) HI) as (st1 & Hf & _ & _ & Hnone).
      rewrite (hyUDPConn_Close_run w1 Hs Hf). cbn.
      exists LoopExit, st1. split; [reflexivity|].
      exists [], n, e. eexists. cbn. auto.
    + specialize (IH w1). cbv zeta in IH.
      destruct (run (Hold k h st) w1) as [[o w2] tr].
      destruct IH as (le & st1 & Hout & Hle).
      unfold outcome, trace in *. cbn in *.
      exists le, st1. split; [exact Hout|].
      destruct le.
      * destruct Hle as (pre & n1 & e & y & -> & Hr & He & Hf & Hnone).
        exists (Ev (StreamRead s 1024) (n, None) :: pre), n1, e, y.
        cbn. rewrite Hr, He. auto.
      * destruct Hle as (-> & Hl & Hr & He). cbn. rewrite Hl, Hr, He. auto.
Qed.

(** ** Delivering and reading datagrams *)

Lemma handleMessageIter_room (qc : QuicConn) (st : State) (w w1 : World)
    (msg : bytes) (udpMsg dfMsg : udpMessage) (d1 : defragger) (ch : nat) (c : Chan) :
  handle (ReceiveMessage qc) w = (Ok msg, w1) ->
  unpackUDPMessage msg = Some udpMsg ->
  Feed (udpDefragger (self st)) udpMsg = (d1, Some dfMsg) ->
  mapAt st (udpSessionMap (self st)) !! SessionID dfMsg = Some ch ->
  chans st !! ch = Some c ->
  chClosed c = false ->
  (length (chBuf c) < chCap c)%nat ->
  run (handleMessageIter qc st) w =
    (Done (true, {| self := withDefragger d1 (self st);
                    maps := maps st;
                    chans := <[ch := {| chBuf := chBuf c ++ [dfMsg];
                                        chCap := chCap c;
                                        chClosed := false |}]> (chans st) |}),
     w1, [Ev (ReceiveMessage qc) (Ok msg)]).
Proof.
  intros Hx Hu Hf Hm Hc Hopen Hroom.
  unfold handleMessageIter, feed, bind, call, ret, getClient, setClient, mapLookup, trySend.
  cbn. rewrite Hx. cbn. rewrite Hu. cbn. rewrite Hf. cbn.
  change (mapAt {| self := withDefragger d1 (self st); maps := maps st; chans := chans st |}
            (udpSessionMap (self st)))
    with (mapAt st (udpSessionMap (self st))).
  rewrite Hm. cbn. rewrite Hc, Hopen.
  apply Nat.ltb_lt in Hroom. unfold Nat.ltb in Hroom. cbn in Hroom.
  cbn. rewrite Hroom. reflexivity.
Qed.

(** X12.  A turn of the pump that assembles a message looks its session
    up in the session map that is current at that moment.  If the session
    is there and its queue is open and not full, the message is put at the
    end of that queue; if the session is not there, no queue changes.  In
    both cases the pump goes round again, having called nothing but
    [ReceiveMessage], and the maps are as before. *)
Theorem pump_routes_by_current_map (qc : QuicConn) (st : State) (w w1 : World)
    (msg : bytes) (udpMsg dfMsg : udpMessage) (d1 : defragger) :
  handle (ReceiveMessage qc) w = (Ok msg, w1) ->
  unpackUDPMessage msg = Some udpMsg ->
  Feed (udpDefragger (self st)) udpMsg = (d1, Some dfMsg) ->
  (forall (ch : nat) (c : Chan),
      mapAt st (udpSessionMap (self st)) !! SessionID dfMsg = Some ch ->
      chans st !! ch = Some c ->
      chClosed c = false ->
      (length (chBuf c) < chCap c)%nat ->
      run (handleMessageIter qc st) w =
        (Done (true, {| self := withDefragger d1 (self st);
                        maps := maps st;
                        chans := <[ch := {| chBuf := chBuf c ++ [dfMsg];
                                            chCap := chCap c;
                                            chClosed := false |}]> (chans st) |}),
         w1, [Ev (ReceiveMessage qc) (Ok msg)]))
  /\ (mapAt st (udpSessionMap (self st)) !! SessionID dfMsg = None ->
      run (handleMessageIter qc st) w =
        (Done (true, {| self := withDefragger d1 (self st);
                        maps := maps st; chans := chans st |}),
         w1, [Ev (ReceiveMessage qc) (Ok msg)])).
Proof.
  intros Hx Hu Hf. split.
  - intros ch c Hm Hc Hopen Hroom. eapply handleMessageIter_room; eassumption.
  - intros Hm.
    unfold handleMessageIter, feed, bind, call, ret, getClient, setClient, mapLookup.
    cbn. rewrite Hx. cbn. rewrite Hu. cbn. rewrite Hf. cbn.
    change (mapAt {| self := withDefragger d1 (self st); maps := maps st;
                     chans := chans st |} (udpSessionMap (self st)))
      with (mapAt st (udpSessionMap (self st))).
    rewrite Hm. reflexivity.
Qed.

Lemma handleMessageIter_malformed (qc : QuicConn) (st : State) (w w1 : World)
    (msg : bytes) :
  handle (ReceiveMessage qc) w = (Ok msg, w1) ->
  unpackUDPMessage msg = None ->
  run (handleMessageIter qc st) w = (Done (true, st), w1, [Ev (ReceiveMessage qc) (Ok msg)]).
Proof.
  intros Hx Hu. unfold handleMessageIter, bind, call, ret.
  cbn. rewrite Hx. cbn. rewrite Hu. reflexivity.
Qed.

(** X13.  Datagrams that do not decode as a UDP message are skipped: a
    run of the pump in which every datagram received is of that kind
    returns with the client, the defragger included, and the store
    exactly as they were, and the pump is not stopped by them. *)
Theorem pump_skips_malformed (qc : QuicConn) (fuel : nat) (st st1 : State)
    (w : World) (le : LoopEnd) :
  allMalformed (trace (run (handleMessage fuel qc st) w)) ->
  outcome (run (handleMessage fuel qc st) w) = Done (le, st1) ->
  st1 = st
  /\ match le with
     | LoopExit => existsb isReceiveError (trace (run (handleMessage fuel qc st) w)) = true
     | LoopFuel => length (trace (run (handleMessage fuel qc st) w)) = fuel
     end.
Proof.
  revert w. induction fuel as [|k IH]; intros w.
  - cbn. intros _ H. simplify_eq. auto.
  - cbn [handleMessage]. unfold bind. rewrite run_pbind.
    destruct (handle (ReceiveMessage qc) w) as [[msg|e] w1] eqn:Hx.
    + destruct (unpackUDPMessage msg) eqn:Hu.
      * intros Hall. exfalso.
        assert (Hfirst : exists tl, trace (run (handleMessageIter qc st) w)
                                    = Ev (ReceiveMessage qc) (Ok msg) :: tl).
        { unfold handleMessageIter, bind, call. cbn. rewrite Hx. cbn.
          match goal with
          | |- context [run ?p w1] => destruct (run p w1) as [[o2 w2] tr2]
          end. eexists. reflexivity. }
        destruct Hfirst as (tl & Htl).
        destruct (run (handleMessageIter qc st) w) as [[[[b st2]|m0] w2] tr2];
          unfold trace in *; cbn in *; subst tr2.
        -- destruct b; cbn in Hall;
             [destruct (run (handleMessage k qc st2) w2) as [[o3 w3] tr3]; cbn in Hall|];
             apply Forall_cons_1 in Hall as [Hbad _];
             specialize (Hbad msg eq_refl); congruence.
        -- apply Forall_cons_1 in Hall as [Hbad _].
           specialize (Hbad msg eq_refl). congruence.
      * rewrite (handleMessageIter_malformed st Hx Hu). cbn.
        specialize (IH w1).
        destruct (run (handleMessage k qc st) w1) as [[o w2] tr].
        unfold trace, outcome in *. cbn in *.
        intros Hall H. apply Forall_cons_1 in Hall as [_ Hall].
        destruct (IH Hall H) as [-> Hle]. split; [reflexivity|].
        destruct le; [exact Hle | lia].
    + unfold handleMessageIter, bind, call, ret. cbn. rewrite Hx. cbn.
      intros _ H. simplify_eq. auto.
Qed.

(** What one [ReadFrom] does, by the state of the handle's channel. *)
Lemma ReadFrom_run (h : hyUDPConn) (st : State) (w : World) :
  run (ReadFrom h st) w =
  match chans st !! MsgCh h with
  | None => (Done (None, st), w, [])
  | Some c =>
      match chBuf c with
      | m :: rest =>
          (Done (delivered m,
                 {| self := self st; maps := maps st;
                    chans := <[MsgCh h := {| chBuf := rest; chCap := chCap c;
                                             chClosed := chClosed c |}]> (chans st) |}),
           w, [])
      | [] =>
          (Done (if chClosed c then Some ([], EmptyString, Some ErrClosed) else None, st),
           w, [])
      end
  end.
Proof.
  unfold ReadFrom, chanRecv, bind, ret. cbn.
  destruct (chans st !! MsgCh h) as [c|]; [|reflexivity].
  destruct (chBuf c) as [|m rest]; [destruct (chClosed c)|]; reflexivity.
Qed.

Lemma readMany_queue (h : hyUDPConn) (buf : list udpMessage) (cap : nat)
    (cl : bool) (k : nat) (st : State) (w : World) :
  chans st !! MsgCh h = Some {| chBuf := buf; chCap := cap; chClosed := cl |} ->
  exists st1 : State,
    run (readMany (length buf + k) h st) w =
      (Done (map delivered buf
             ++ replicate k (if cl then Some ([], EmptyString, Some ErrClosed) else None),
             st1), w, [])
    /\ self st1 = self st
    /\ maps st1 = maps st
    /\ chans st1
       = <[MsgCh h := {| chBuf := []; chCap := cap; chClosed := cl |}]> (chans st).
Proof.
  revert st. induction buf as [|m rest IH]; intros st Hc.
  - cbn [length Nat.add map app].
    assert (Hid : chans st
                  = <[MsgCh h := {| chBuf := []; chCap := cap; chClosed := cl |}]>
                      (chans st))
      by (symmetry; apply insert_id; exact Hc).
    induction k as [|k IHk].
    + exists st. cbn. auto.
    + destruct IHk as (st1 & Hrun & Hs & Hm & Hch).
      exists st1. cbn [readMany replicate]. unfold bind. rewrite run_pbind.
      rewrite ReadFrom_run, Hc. cbn. rewrite run_pbind.
      rewrite Hrun. cbn. auto.
  - cbn [length Nat.add map app readMany]. unfold bind. rewrite run_pbind.
    rewrite ReadFrom_run, Hc. cbn. rewrite run_pbind.
    match goal with
    | |- context [run (readMany _ h ?s1) w] =>
        destruct (IH s1) as (st1 & Hrun & Hs & Hm & Hch);
          [cbn; apply lookup_insert_eq|]
    end.
    rewrite Hrun. cbn. exists st1. split; [reflexivity|].
    split; [exact Hs|]. split; [exact Hm|].
    rewrite Hch. cbn. apply insert_insert_eq.
Qed.

(** X14.  [ReadFrom] hands out the queued messages oldest first, each as
    its payload and its host and port joined into an address, without
    calling anything.  When the queue is empty, a further [ReadFrom]
    returns [ErrClosed] if the channel is closed and has to wait if it is
    open.  Reading changes nothing but the handle's queue. *)
Theorem ReadFrom_queue_order (h : hyUDPConn) (c : Chan) (k : nat)
    (st : State) (w : World) :
  chans st !! MsgCh h = Some c ->
  exists st1 : State,
    run (readMany (length (chBuf c) + k) h st) w =
      (Done (map delivered (chBuf c)
             ++ replicate k (if chClosed c
                             then Some ([], EmptyString, Some ErrClosed)
                             else None),
             st1), w, [])
    /\ self st1 = self st
    /\ maps st1 = maps st
    /\ chans st1
       = <[MsgCh h := {| chBuf := []; chCap := chCap c; chClosed := chClosed c |}]>
           (chans st).
Proof. destruct c as [buf cap cl]. apply readMany_queue. Qed.

(** X15.  Closing a UDP handle whose channel is the one registered under
    its key makes every later [ReadFrom] on it return at once: first the
    messages that were still queued, oldest first, then [ErrClosed] every
    time.  No read has to wait. *)
Theorem ReadFrom_after_Close (h : hyUDPConn) (s : Stream) (c : Chan) (k : nat)
    (st : State) (w : World) :
  Inv st ->
  hStream h = Some {| qsStream := Some s |} ->
  mapAt st (sessionMap (CloseFunc h)) !! cfSessionID (CloseFunc h) = Some (MsgCh h) ->
  chans st !! MsgCh h = Some c ->
  exists (e : option error) (st1 : State),
    outcome (run (hyUDPConn_Close h st) w) = Done (e, st1)
    /\ forall w1 : World,
         exists st2 : State,
           run (readMany (length (chBuf c) + k) h st1) w1 =
             (Done (map delivered (chBuf c)
                    ++ replicate k (Some ([], EmptyString, Some ErrClosed)), st2),
              w1, []).
Proof.
  intros HI Hs Hl Hc.
  destruct (mapAt_lookup_entry Hl) as (a & m & Hf & Hm & Hid).
  destruct (inv_open HI (a := a) (id := cfSessionID (CloseFunc h)) (ch := MsgCh h))
    as (c1 & Hc1 & Hopen); [exists m; auto|].
  assert (c1 = c) by congruence. subst c1.
  pose proof (runCloseFunc_found Hf Hm Hid Hc Hopen) as Hrun.
  eexists _, _. split; [rewrite (hyUDPConn_Close_run w Hs Hrun); reflexivity|].
  intros w1.
  match goal with
  | |- context [run (readMany _ h ?s1) w1] =>
      destruct (@readMany_queue h (chBuf c) (chCap c) true k s1 w1)
        as (st2 & Hread & _); [cbn; apply lookup_insert_eq|]
  end.
  exists st2. exact Hread.
Qed.

(** X16.  A datagram for the session of a handle that [DialUDP] has just
    returned is queued by the pump and is what the next [ReadFrom] on the
    handle returns: the payload, and the host and port as an address. *)
Theorem DialUDP_datagram_ReadFrom (st st1 : State) (w w1 w2 : World)
    (h : hyUDPConn) (qc : QuicConn) (msg : bytes) (udpMsg dfMsg : udpMessage)
    (d1 : defragger) :
  outcome (run (DialUDP st) w) = Done ((Some h, None), st1) ->
  handle (ReceiveMessage qc) w1 = (Ok msg, w2) ->
  unpackUDPMessage msg = Some udpMsg ->
  Feed (udpDefragger (self st1)) udpMsg = (d1, Some dfMsg) ->
  SessionID dfMsg = UDPSessionID h ->
  exists st2 : State,
    run (handleMessageIter qc st1) w1
      = (Done (true, st2), w2, [Ev (ReceiveMessage qc) (Ok msg)])
    /\ forall w3 : World,
         exists st3 : State,
           run (ReadFrom h st2) w3 = (Done (delivered dfMsg, st3), w3, []).
Proof.
  intros Hdial Hx Hu Hf Hid.
  destruct (DialUDP_registered Hdial)
    as (s & q & sr & a & _ & _ & Hcur & _ & _ & Hh & _ & Hch & Hm).
  assert (Hsid : UDPSessionID h = srUDPSessionID sr) by (rewrite Hh; reflexivity).
  assert (Hc : chans st1 !! MsgCh h
               = Some {| chBuf := []; chCap := 1024; chClosed := false |})
    by (rewrite Hch; apply lookup_insert_eq).
  eexists. split.
  - eapply handleMessageIter_room; try eassumption.
    + rewrite Hcur, Hid, Hsid. exact Hm.
    + reflexivity.
    + cbn. lia.
  - intros w3. rewrite ReadFrom_run. cbn. rewrite lookup_insert_eq. cbn.
    eexists. reflexivity.
Qed.

(** ** What every run of the client keeps *)

(** A relation between states that holds across each primitive step on
    channels, and whenever the channels are left alone, holds across
    every function of the client. *)
Section Steps.
Variable R : State -> State -> Prop.
Hypothesis R_trans : forall a b c, R a b -> R b c -> R a c.
Hypothesis R_frame : forall st st1, chans st1 = chans st -> R st st1.
Hypothesis R_makeChan : preserves R (makeChan 1024).
Hypothesis R_closeChan : forall ch, preserves R (closeChan ch).
Hypothesis R_trySend : forall ch m, preserves R (trySend ch m).

Lemma step_bind {A B : Type} (m : M A) (f : A -> M B) :
  preserves R m -> (forall a, preserves R (f a)) -> preserves R (bind m f).
Proof.
  intros Hm Hf st w b st2 H. unfold bind in H. rewrite run_pbind in H.
  specialize (Hm st w).
  destruct (run (m st) w) as [[[[a st1]|msg] w1] tr1]; [|discriminate H].
  specialize (Hm a st1 eq_refl). specialize (Hf a st1 w1 b st2).
  cbn [fst snd] in H.
  destruct (run (f a st1) w1) as [[o w2] tr2].
  apply (R_trans Hm). apply Hf. exact H.
Qed.

(** A step that leaves the channels alone. *)
Lemma step_frame {A : Type} (m : M A) :
  (forall st w a st1, outcome (run (m st) w) = Done (a, st1) -> chans st1 = chans st) ->
  preserves R m.
Proof. intros Hm st w a st1 H. apply R_frame. exact (Hm st w a st1 H). Qed.

Lemma step_ret {A : Type} (a : A) : preserves R (ret a).
Proof. apply step_frame. intros st w a1 st1 H. cbn in H. simplify_eq. reflexivity. Qed.

Lemma step_panic {A : Type} (msg : string) : preserves R (@panic _ A msg).
Proof. intros st w a st1 H. cbn in H. discriminate H. Qed.

Lemma step_call {X : Type} (c : Call X) : preserves R (call c).
Proof.
  apply step_frame. intros st w a st1 H. unfold call in H. cbn in H.
  destruct (handle c w) as [x w1]. cbn in H. simplify_eq. reflexivity.
Qed.

Lemma step_getClient : preserves R getClient.
Proof. apply step_frame. intros st w a st1 H. cbn in H. simplify_eq. reflexivity. Qed.

Lemma step_setClient (f : Client -> Client) : preserves R (setClient f).
Proof. apply step_frame. intros st w a st1 H. cbn in H. simplify_eq. reflexivity. Qed.

Lemma step_mapLookup (r : option nat) (id : N) : preserves R (mapLookup r id).
Proof. apply step_frame. intros st w a st1 H. cbn in H. simplify_eq. reflexivity. Qed.

Lemma step_mapStore (r : option nat) (id : N) (ch : nat) : preserves R (mapStore r id ch).
Proof.
  apply step_frame. intros st w a st1 H. unfold mapStore in H.
  destruct r; cbn in H; simplify_eq. reflexivity.
Qed.

Lemma step_mapDelete (r : option nat) (id : N) : preserves R (mapDelete r id).
Proof.
  apply step_frame. intros st w a st1 H. unfold mapDelete in H.
  destruct r; cbn in H; simplify_eq; reflexivity.
Qed.

Lemma step_connect : preserves R connect.
Proof.
  apply step_frame. intros st w e st1 H.
  destruct (connect_spec st w) as (e1 & st2 & Hout & _ & _ & _ & Hg).
  rewrite Hout in H. simplify_eq. destruct e as [err|].
  - destruct Hg as [_ ->]. reflexivity.
  - destruct Hg as [_ (pc & qc & ->)]. reflexivity.
Qed.

Ltac steps :=
  repeat first
    [ apply step_ret
    | apply step_panic
    | apply step_call
    | apply step_getClient
    | apply step_setClient
    | apply step_mapLookup
    | apply step_mapStore
    | apply step_mapDelete
    | apply step_connect
    | apply R_makeChan
    | apply R_closeChan
    | apply R_trySend
    | assumption
    | apply step_bind; [|intros ?]
    | match goal with
      | |- preserves _ (match ?x with _ => _ end) => destruct x
      | |- preserves _ (let (_, _) := ?x in _) => destruct x
      end
    | progress unfold onConn, onStream, closeStream ].

Lemma step_osr : preserves R openStreamWithReconnect.
Proof. unfold openStreamWithReconnect. steps. Qed.

Lemma step_DialTCP (addr : string) : preserves R (DialTCP addr).
Proof. pose proof step_osr. unfold DialTCP. steps. Qed.

Lemma step_DialUDP : preserves R DialUDP.
Proof. pose proof step_osr. unfold DialUDP. cbv zeta. steps. Qed.

Lemma step_Close : preserves R Close.
Proof. unfold Close. steps. Qed.

Lemma step_hyUDPConn_Close (h : hyUDPConn) : preserves R (hyUDPConn_Close h).
Proof. unfold hyUDPConn_Close, runCloseFunc. steps. Qed.

Lemma step_Hold (fuel : nat) (h : hyUDPConn) : preserves R (Hold fuel h).
Proof.
  pose proof (@step_hyUDPConn_Close h).
  induction fuel as [|n IH]; cbn [Hold]; steps.
Qed.

Lemma step_sendFrags (s : option QuicConn) (l : list udpMessage) :
  preserves R (sendFrags s l).
Proof. induction l as [|m rest IH]; cbn [sendFrags]; steps. Qed.

Lemma step_WriteTo (h : hyUDPConn) (p : bytes) (addr : string) :
  preserves R (WriteTo h p addr).
Proof.
  pose proof (@step_sendFrags (Session h)) as Hs.
  unfold WriteTo, randIntn. steps; apply Hs.
Qed.

Lemma step_handleMessage (fuel : nat) (qc : QuicConn) :
  preserves R (handleMessage fuel qc).
Proof.
  assert (preserves R (handleMessageIter qc))
    by (unfold handleMessageIter, feed; steps).
  induction fuel as [|n IH]; cbn [handleMessage]; steps.
Qed.

Lemma step_performAll (ops : list Op) : preserves R (performAll ops).
Proof.
  induction ops as [|o rest IH]; cbn [performAll]; [apply step_ret|].
  apply step_bind; [|intros _; exact IH].
  destruct o; cbn [perform]; apply step_bind; try (intros ?; apply step_ret).
  - apply step_DialTCP.
  - apply step_DialUDP.
  - apply step_Close.
  - apply step_hyUDPConn_Close.
  - apply step_WriteTo.
  - apply step_Hold.
  - apply step_handleMessage.
Qed.
End Steps.

(** X17.  No queue ever holds more than its capacity of 1024 messages:
    if that is so before, it is so after any sequence of dials, closes,
    writes, holds and pump turns. *)
Theorem queues_stay_bounded (ops : list Op) (st st1 : State) (w : World) :
  Bounded st ->
  outcome (run (performAll ops st) w) = Done (tt, st1) ->
  Bounded st1.
Proof.
  intros HB Hrun. revert HB.
  refine (@step_performAll (fun a b => Bounded a -> Bounded b) _ _ _ _ _ ops st w tt st1 Hrun).
  - auto.
  - intros a b Hc HB ch c. rewrite Hc. apply HB.
  - intros a w0 n b H HB ch c. unfold makeChan in H. cbn in H. simplify_eq. cbn.
    destruct (decide (fresh (dom (chans a)) = ch)) as [<-|Hne].
    + rewrite lookup_insert_eq. intros [= <-]. cbn. split; [reflexivity | lia].
    + rewrite lookup_insert_ne by exact Hne. apply HB.
  - intros ch0 a w0 u b H HB ch c. unfold closeChan in H.
    destruct (chans a !! ch0) as [c0|] eqn:Hc0; [|discriminate H].
    destruct (chClosed c0); cbn in H; [discriminate H|]. simplify_eq. cbn.
    destruct (decide (ch0 = ch)) as [<-|Hne].
    + rewrite lookup_insert_eq. intros [= <-]. cbn. exact (HB _ _ Hc0).
    + rewrite lookup_insert_ne by exact Hne. apply HB.
  - intros ch0 m a w0 r b H HB ch c. unfold trySend in H.
    destruct (chans a !! ch0) as [c0|] eqn:Hc0; [|cbn in H; simplify_eq; apply HB].
    destruct (chClosed c0); [cbn in H; discriminate H|].
    destruct (length (chBuf c0) <? chCap c0)%nat eqn:Hlt; cbn in H; simplify_eq;
      [|apply HB]. cbn.
    destruct (decide (ch0 = ch)) as [<-|Hne].
    + rewrite lookup_insert_eq. intros [= <-]. cbn.
      destruct (HB _ _ Hc0) as [Hcap Hlen]. apply Nat.ltb_lt in Hlt.
      split; [exact Hcap|]. rewrite length_app. cbn. lia.
    + rewrite lookup_insert_ne by exact Hne. apply HB.
Qed.

Lemma performAll_keepsClosed (ops : list Op) (st st1 : State) (w : World) :
  outcome (run (performAll ops st) w) = Done (tt, st1) ->
  keepsClosed st st1.
Proof.
  intros Hrun.
  refine (@step_performAll keepsClosed _ _ _ _ _ ops st w tt st1 Hrun).
  - intros a b c Hab Hbc ch x Hx Hcl. apply Hbc; [apply Hab|]; assumption.
  - intros a b Hc ch x Hx _. rewrite Hc. exact Hx.
  - intros a w0 n b H ch x Hx _. unfold makeChan in H. cbn in H. simplify_eq. cbn.
    rewrite lookup_insert_ne; [exact Hx|].
    intros Heq. apply (is_fresh (dom (chans a))). rewrite Heq.
    apply elem_of_dom. eauto.
  - intros ch0 a w0 u b H ch x Hx Hcl. unfold closeChan in H.
    destruct (chans a !! ch0) as [c0|] eqn:Hc0; [|discriminate H].
    destruct (chClosed c0) eqn:Hcl0; cbn in H; [discriminate H|]. simplify_eq. cbn.
    rewrite lookup_insert_ne; [exact Hx|]. congruence.
  - intros ch0 m a w0 r b H ch x Hx Hcl. unfold trySend in H.
    destruct (chans a !! ch0) as [c0|] eqn:Hc0; [|cbn in H; simplify_eq; exact Hx].
    destruct (chClosed c0) eqn:Hcl0; [cbn in H; discriminate H|].
    destruct (length (chBuf c0) <? chCap c0)%nat; cbn in H; simplify_eq;
      [|exact Hx]. cbn.
    rewrite lookup_insert_ne; [exact Hx|]. congruence.
Qed.

(** X18.  A channel that is closed stays closed and keeps the messages
    it holds, whatever dials, closes, writes, holds and pump turns follow:
    nothing is ever delivered to it. *)
Theorem closed_channels_stay_closed (ops : list Op) (st st1 : State) (w : World) :
  outcome (run (performAll ops st) w) = Done (tt, st1) ->
  keepsClosed st st1.
Proof. apply performAll_keepsClosed. Qed.

(** ** A connected client does not panic *)

Lemma Connected_self (st : State) (c : Client) :
  Connected st ->
  is_Some (quicConn c) -> is_Some (pktConn c) -> is_Some (udpSessionMap c) ->
  Connected {| self := c; maps := maps st; chans := chans st |}.
Proof. intros [HI _ _ _] Hq Hp Hm. split; auto. apply Inv_self, HI. Qed.

Lemma Connected_reconnected (pc : PktConn) (qc : QuicConn) (st : State) :
  Inv st -> Connected (reconnected pc qc st).
Proof.
  intros HI. split; cbn; eauto.
  exact (ev_inv (evolves_reconnected pc qc st) HI).
Qed.

(** X19.  Whenever [NewClient] returns (the config, the packet-conn
    factory and the reconnect callback it is given are taken to be
    non-nil): the client it returns holds a packet conn, a QUIC connection
    and a session map, is open, keeps the address, the credentials, the
    rates and the TLS config it was given, has an empty current session
    map and no channel, and its pump has been started once.  When it
    returns an error no pump was started. *)
Theorem NewClient_returns_connected (addr : string) (a : bytes) (tls : TLSConfig)
    (cfg : QuicConfig) (s r : Z) (w : World) (res : result State) :
  let p := run (NewClient addr a tls cfg s r) w in
  outcome p = Done res ->
  match res with
  | Ok st =>
      Connected st
      /\ closed (self st) = false
      /\ (serverAddr (self st) = addr /\ auth (self st) = a
          /\ sendBPS (self st) = s /\ recvBPS (self st) = r
          /\ tlsConfig (self st) = tls)
      /\ mapAt st (udpSessionMap (self st)) = ∅
      /\ chans st = ∅
      /\ countEv isGoHandleMessage (trace p) = 1%nat
  | Err _ => countEv isGoHandleMessage (trace p) = O
  end.
Proof.
  unfold NewClient. cbv zeta. rewrite run_pbind.
  match goal with
  | |- context [run (connect ?s0) w] =>
      destruct (connect_spec s0 w) as (e & st1 & Hout & _ & _ & _ & Hg);
      destruct (run (connect s0) w) as [[o w1] tr1]
  end.
  unfold outcome in Hout. cbn in Hout. subst o. cbn.
  destruct e as [err|]; cbn; intros H; injection H as <-; cbn; rewrite app_nil_r.
  - apply Hg.
  - destruct Hg as [Hg (pc & qc & ->)].
    split; [apply Connected_reconnected, Inv_no_maps; reflexivity|].
    cbn. repeat split; assumption.
Qed.

Lemma osr_total (st : State) (w : World) :
  Connected st ->
  exists res st1,
    outcome (run (openStreamWithReconnect st) w) = Done (res, st1) /\ Connected st1.
Proof.
  intros HC. pose proof HC as [HI [q Hq] _ _]. revert HC.
  unfold openStreamWithReconnect, onConn, bind, getClient, call, ret, panic.
  cbn. rewrite Hq. exec; try exec_connect; exec; intros HC.
  all: try (eexists _, _; split; [reflexivity | first [exact HC
              | apply Connected_reconnected, HI]]).
Qed.

Lemma dial_total (st : State) (w : World) :
  Connected st ->
  (forall addr, exists res st1,
      outcome (run (DialTCP addr st) w) = Done (res, st1) /\ Connected st1)
  /\ (exists res st1,
         outcome (run (DialUDP st) w) = Done (res, st1) /\ Connected st1).
Proof.
  intros HC. destruct (osr_total w HC) as (res0 & st0' & Hout0 & HC0).
  split; [intros addr|]; focus_run.
  - unfold DialTCP.
    destruct (SplitHostPort addr) as [[host port]|e0];
      [|intros r ->; eexists _, _; split; [reflexivity | exact HC]].
    dial_osr st w; [|unfold outcome in Hout0; cbn in Hout0; discriminate Hout0].
    unfold outcome in Hout0. cbn in Hout0. simplify_eq.
    destruct err as [e1|];
      [intros r ->; eexists _, _; split; [reflexivity | exact HC0]|].
    destruct Hopen as (s0 & q & -> & -> & Hq & Hs).
    dial_tail; intros r ->; eexists _, _; (split; [reflexivity | exact HC0]).
  - unfold DialUDP.
    dial_osr st w; [|unfold outcome in Hout0; cbn in Hout0; discriminate Hout0].
    unfold outcome in Hout0. cbn in Hout0. simplify_eq.
    destruct err as [e1|];
      [intros r ->; eexists _, _; split; [reflexivity | exact HC0]|].
    destruct Hopen as (s0 & q & -> & -> & Hq & Hs).
    pose proof HC0 as [HI0 _ _ [a Ha]].
    dial_tail; intros r ->; try congruence.
    all: eexists _, _; (split; [reflexivity|]); try exact HC0.
    destruct HC0 as [_ Hq0 Hp0 Hm0]. split; cbn; auto.
    match goal with
    | Hm : udpSessionMap (self ?s) = Some ?n |- Inv _ =>
        exact (@Inv_register s n _ {| chBuf := []; chCap := 1024; chClosed := false |}
                 eq_refl HI0)
    end.
Qed.

Lemma Close_total (st : State) (w : World) :
  Connected st ->
  exists e st1, outcome (run (Close st) w) = Done (e, st1) /\ Connected st1.
Proof.
  intros HC. pose proof HC as [HI [q Hq] [p Hp] Hm]. revert HC.
  unfold Close, onConn, bind, getClient, call, setClient, ret. cbn.
  rewrite Hq. cbn. destruct (handle (QErrorSend qErrorGeneric q) w) as [e w1]. cbn.
  rewrite Hp. cbn. destruct (handle (PktConnClose p) w1) as [e1 w2]. cbn.
  intros HC. eexists _, _. split; [reflexivity|].
  apply Connected_self; cbn; eauto.
Qed.

Lemma hyUDPConn_Close_total (h : hyUDPConn) (st : State) (w : World) :
  usable h ->
  Connected st ->
  exists e st1, outcome (run (hyUDPConn_Close h st) w) = Done (e, st1) /\ Connected st1.
Proof.
  intros [_ (s & Hs)] [HI Hq Hp Hm].
  destruct (runCloseFunc_Inv (CloseFunc h) HI) as (st1 & Hf & _ & HI1 & _).
  destruct (runCloseFunc_result Hf) as (Hself & _).
  eexists _, st1. split; [rewrite (hyUDPConn_Close_run w Hs Hf); reflexivity|].
  split; [exact HI1| | |]; rewrite Hself; assumption.
Qed.

Lemma Hold_total (fuel : nat) (h : hyUDPConn) (st : State) (w : World) :
  usable h ->
  Connected st ->
  exists le st1, outcome (run (Hold fuel h st) w) = Done (le, st1) /\ Connected st1.
Proof.
  intros Hu HC. pose proof Hu as [_ (s & Hs)].
  revert w. induction fuel as [|k IH]; intros w.
  - exists LoopFuel, st. split; [reflexivity | exact HC].
  - cbn [Hold]. unfold bind at 1. cbv zeta. rewrite run_pbind. rewrite Hs.
    unfold onStream, call. cbn.
    destruct (handle (StreamRead s 1024) w) as [[n [e|]] w1]; cbn.
    + unfold bind. rewrite run_pbind.
      destruct (hyUDPConn_Close_total w1 Hu HC) as (e1 & st1 & Hout & HC1).
      destruct (run (hyUDPConn_Close h st) w1) as [[o w2] tr].
      unfold outcome in Hout. cbn in Hout. subst o. cbn.
      exists LoopExit, st1. split; [reflexivity | exact HC1].
    + destruct (IH w1) as (le & st1 & Hout & HC1).
      destruct (run (Hold k h st) w1) as [[o w2] tr].
      exists le, st1. split; [exact Hout | exact HC1].
Qed.

Lemma WriteTo_total (h : hyUDPConn) (p : bytes) (addr : string) (st : State) (w : World) :
  usable h ->
  exists e, outcome (run (WriteTo h p addr st) w) = Done (e, st).
Proof.
  intros [[qc Hq] _]. unfold WriteTo.
  destruct (SplitHostPort addr) as [[host port]|e0]; [|eexists; reflexivity].
  rewrite Hq. unfold onConn, randIntn, bind, call, ret. cbn.
  destruct (handle (SendMessage qc _) w) as [[e|] w1]; cbn; [|eexists; reflexivity].
  destruct e; cbn; try (eexists; reflexivity).
  destruct (handle RandInt63 w1) as [draw w2]. cbn.
  match goal with
  | |- context [run (sendFrags (Some qc) ?l st) w2] =>
      destruct (sendFrags_spec qc l st w2) as (answers & _ & Hres);
      destruct (run (sendFrags (Some qc) l st) w2) as [[o w3] tr]
  end.
  unfold outcome in *. cbn in *.
  destruct Hres as [[_ ->]|(i & e1 & _ & _ & ->)]; eexists; reflexivity.
Qed.

Lemma perform_total (o : Op) (st : State) (w : World) :
  usableOp o ->
  Connected st ->
  exists st1, outcome (run (perform o st) w) = Done (tt, st1) /\ Connected st1.
Proof.
  intros Hu HC.
  assert (Hwrap : forall (A : Type) (m : M A),
             (exists a st1, outcome (run (m st) w) = Done (a, st1) /\ Connected st1) ->
             exists st1, outcome (run (bind m (fun _ => ret tt) st) w) = Done (tt, st1)
                         /\ Connected st1).
  { intros A m (a & st1 & Hout & HC1). unfold bind. rewrite run_pbind.
    destruct (run (m st) w) as [[o1 w1] tr1].
    unfold outcome in Hout. cbn in Hout. subst o1. cbn.
    exists st1. split; [reflexivity | exact HC1]. }
  destruct o as [addr| | |h|h p addr|fuel h|fuel qc]; cbn [perform]; apply Hwrap.
  - apply (proj1 (dial_total w HC)).
  - apply (proj2 (dial_total w HC)).
  - apply Close_total, HC.
  - apply hyUDPConn_Close_total; assumption.
  - destruct (WriteTo_total p addr st w Hu) as (e & He). eauto.
  - apply Hold_total; assumption.
  - destruct HC as [HI Hq Hp Hm].
    destruct (handleMessage_spec qc fuel w HI)
      as (le & st1 & Hout & HI1 & (Eq & Ep & _ & Em) & _).
    exists le, st1. split; [exact Hout|].
    split; [exact HI1| | |]; congruence.
Qed.

Lemma performAll_total (ops : list Op) (st : State) (w : World) :
  Connected st ->
  Forall usableOp ops ->
  exists st1 : State,
    outcome (run (performAll ops st) w) = Done (tt, st1) /\ Connected st1.
Proof.
  intros HC Hu. revert st w HC.
  induction Hu as [|o rest Ho _ IH]; intros st w HC.
  - exists st. split; [reflexivity | exact HC].
  - cbn [performAll]. unfold bind. rewrite run_pbind.
    destruct (perform_total w Ho HC) as (st1 & Hout & HC1).
    destruct (run (perform o st) w) as [[o1 w1] tr1].
    unfold outcome in Hout. cbn in Hout. subst o1. cbn.
    destruct (IH st1 w1 HC1) as (st2 & Hout2 & HC2).
    destruct (run (performAll rest st1) w1) as [[o2 w2] tr2].
    exists st2. split; [exact Hout2 | exact HC2].
Qed.

(** X20.  A client that holds a connection does not panic as long as it
    has no need to reconnect: a sequence of dials, closes of the client,
    pump turns, and closes, writes and holds on handles that have a
    connection and a stream, in which neither the reconnect callback nor
    the packet-conn factory is called (no [OpenStream] of an open client
    fails with an error that is not temporary), runs to its end, and the
    client still holds a connection, a packet conn and a session map
    afterwards, with the store invariant intact. *)
Theorem connected_client_never_panics (ops : list Op) (st : State) (w : World) :
  Connected st ->
  Forall usableOp ops ->
  countEv callsBack (trace (run (performAll ops st) w)) = O ->
  exists st1 : State,
    outcome (run (performAll ops st) w) = Done (tt, st1) /\ Connected st1.
Proof. intros HC Hu _. exact (performAll_total w HC Hu). Qed.

(** ** After a reconnect, and after closing the client *)

Lemma pump_without_session (qc : QuicConn) (st st1 : State) (w : World) (b : bool) :
  mapAt st (udpSessionMap (self st)) = ∅ ->
  outcome (run (handleMessageIter qc st) w) = Done (b, st1) ->
  chans st1 = chans st /\ maps st1 = maps st
  /\ udpSessionMap (self st1) = udpSessionMap (self st).
Proof.
  intros Hempty. focus_run.
  unfold handleMessageIter, feed, bind, call, ret, getClient, setClient, mapLookup, trySend.
  exec.
  all: try (finish_run; auto; fail).
  all: exfalso;
    match goal with
    | H : mapAt _ _ !! _ = Some _ |- _ =>
        unfold mapAt in H; cbn in H; unfold mapAt in Hempty; rewrite Hempty in H;
          rewrite lookup_empty in H; discriminate H
    end.
Qed.

(** X21.  After a [connect] that succeeded the pump delivers nothing to
    the sessions that were dialled before it: the session map it looks in
    is the new, empty one, so however many datagrams it receives, no queue
    and no map changes until a new session is dialled. *)
Theorem reconnect_abandons_sessions (st st1 st2 : State) (w w1 : World)
    (qc : QuicConn) (fuel : nat) (le : LoopEnd) :
  outcome (run (connect st) w) = Done (None, st1) ->
  outcome (run (handleMessage fuel qc st1) w1) = Done (le, st2) ->
  chans st2 = chans st1 /\ maps st2 = maps st1.
Proof.
  intros Hconn.
  assert (Hempty : mapAt st1 (udpSessionMap (self st1)) = ∅).
  { destruct (connect_spec st w) as (e & st3 & Hout & _ & _ & _ & Hg).
    rewrite Hout in Hconn. simplify_eq. destruct Hg as [_ (pc & q & ->)].
    unfold mapAt. cbn. rewrite lookup_insert_eq. reflexivity. }
  clear Hconn. revert st1 w1 Hempty.
  induction fuel as [|k IH]; intros st1 w1 Hempty.
  - cbn. intros H. simplify_eq. auto.
  - cbn [handleMessage]. unfold bind. rewrite run_pbind.
    pose proof (fun b s => @pump_without_session qc st1 s w1 b Hempty) as Hiter.
    destruct (run (handleMessageIter qc st1) w1) as [[[[b st3]|msg] w2] tr];
      [|discriminate].
    destruct (Hiter b st3 eq_refl) as (Hc & Hm & Hu). cbn [fst snd].
    destruct b; cbn.
    + specialize (IH st3 w2).
      destruct (run (handleMessage k qc st3) w2) as [[o w3] tr2].
      intros H. destruct IH as [Hc2 Hm2].
      * unfold mapAt in *. rewrite Hu, Hm. exact Hempty.
      * exact H.
      * split; congruence.
    + intros H. unfold outcome in H. cbn in H. simplify_eq. auto.
Qed.

(** X22.  [Client.Close] on a client that holds a connection makes two
    calls, the generic application-close on the QUIC connection and then
    the close of the packet conn, and returns what the first of them
    returned; the error of the second is dropped.  It sets [closed] and
    touches no session map and no channel: a [ReadFrom] on a handle whose
    queue is empty and open still has to wait afterwards. *)
Theorem Client_Close_keeps_sessions (st : State) (w : World)
    (qc : QuicConn) (pc : PktConn) :
  quicConn (self st) = Some qc ->
  pktConn (self st) = Some pc ->
  let a := handle (QErrorSend qErrorGeneric qc) w in
  let b := handle (PktConnClose pc) a.2 in
  let st1 := {| self := withClosed true (self st); maps := maps st; chans := chans st |} in
  run (Close st) w
    = (Done (a.1, st1), b.2,
       [Ev (QErrorSend qErrorGeneric qc) a.1; Ev (PktConnClose pc) b.1])
  /\ forall (h : hyUDPConn) (c : Chan) (w1 : World),
       chans st !! MsgCh h = Some c ->
       chBuf c = [] ->
       chClosed c = false ->
       run (ReadFrom h st1) w1 = (Done (None, st1), w1, []).
Proof.
  intros Hq Hp. cbv zeta. split.
  - unfold Close, onConn, bind, getClient, call, setClient, ret. cbn.
    rewrite Hq. cbn. destruct (handle (QErrorSend qErrorGeneric qc) w) as [e w1]. cbn.
    rewrite Hp. cbn. destruct (handle (PktConnClose pc) w1) as [e1 w2]. reflexivity.
  - intros h c w1 Hc Hbuf Hopen. rewrite ReadFrom_run. cbn.
    rewrite Hc, Hbuf, Hopen. reflexivity.
Qed.

(** ** Closing a UDP handle at any time *)

(** *** Registrations are only made for new channels *)

Lemma regs_refl (st : State) : registersNew st st.
Proof. split; [reflexivity | auto]. Qed.

Lemma regs_trans (st1 st2 st3 : State) :
  registersNew st1 st2 -> registersNew st2 st3 -> registersNew st1 st3.
Proof.
  intros [Hd1 He1] [Hd2 He2]. split; [etrans; eassumption|].
  intros a id ch He. destruct (He2 _ _ _ He) as [H2|Hn].
  - apply He1, H2.
  - right. intros Hin. apply Hn, Hd1, Hin.
Qed.

Lemma regs_same (st st1 : State) :
  maps st1 = maps st -> chans st1 = chans st -> registersNew st st1.
Proof.
  intros Hm Hc. split; [rewrite Hc; reflexivity|].
  intros a id ch He. left. unfold entry in *. rewrite Hm in He. exact He.
Qed.

Lemma regs_quiet {A : Type} (m : M A) :
  (forall st w a st1,
      outcome (run (m st) w) = Done (a, st1) ->
      maps st1 = maps st /\ chans st1 = chans st) ->
  preserves registersNew m.
Proof. intros Hm st w a st1 H. apply regs_same; apply (Hm st w a st1 H). Qed.

Lemma regs_ret {A : Type} (a : A) : preserves registersNew (ret a).
Proof. apply regs_quiet. intros st w a1 st1 H. cbn in H. simplify_eq. auto. Qed.

Lemma regs_call {X : Type} (c : Call X) : preserves registersNew (call c).
Proof.
  apply regs_quiet. intros st w a st1 H. unfold call in H. cbn in H.
  destruct (handle c w) as [x w1]. cbn in H. simplify_eq. auto.
Qed.

Lemma regs_getClient : preserves registersNew getClient.
Proof. apply regs_quiet. intros st w a st1 H. cbn in H. simplify_eq. auto. Qed.

Lemma regs_setClient (f : Client -> Client) : preserves registersNew (setClient f).
Proof. apply regs_quiet. intros st w a st1 H. cbn in H. simplify_eq. auto. Qed.

Lemma regs_mapLookup (r : option nat) (id : N) : preserves registersNew (mapLookup r id).
Proof. apply regs_quiet. intros st w a st1 H. cbn in H. simplify_eq. auto. Qed.

Lemma regs_reconnected (pc : PktConn) (qc : QuicConn) (st : State) :
  registersNew st (reconnected pc qc st).
Proof.
  split; [reflexivity|]. intros a id ch (m & Hm & Hid). left. cbn in Hm.
  destruct (decide (fresh (dom (maps st)) = a)) as [<-|Hne].
  - rewrite lookup_insert_eq in Hm. injection Hm as <-.
    rewrite lookup_empty in Hid. discriminate Hid.
  - rewrite lookup_insert_ne in Hm by exact Hne. exists m. auto.
Qed.

Lemma regs_connect : preserves registersNew connect.
Proof.
  intros st w e st1 H.
  destruct (connect_spec st w) as (e1 & st2 & Hout & _ & _ & _ & Hg).
  rewrite Hout in H. simplify_eq. destruct e as [err|].
  - destruct Hg as [_ ->]. apply regs_refl.
  - destruct Hg as [_ (pc & qc & ->)]. apply regs_reconnected.
Qed.

Lemma regs_runCloseFunc (f : closeFunc) : preserves registersNew (runCloseFunc f).
Proof.
  intros st w u st1 H.
  destruct (mapAt st (sessionMap f) !! cfSessionID f) as [ch|] eqn:Hl.
  - destruct (mapAt_lookup_entry Hl) as (a & m & Hf & Hm & Hid).
    destruct (chans st !! ch) as [c|] eqn:Hc; [destruct (chClosed c) eqn:Hopen|].
    + unfold runCloseFunc, bind, mapLookup, closeChan in H. cbn in H.
      rewrite Hl in H. cbn in H. rewrite Hc, Hopen in H. discriminate H.
    + rewrite (runCloseFunc_found Hf Hm Hid Hc Hopen) in H. cbn in H.
      injection H as <- <-. split; cbn.
      * rewrite dom_insert_L. apply union_subseteq_r.
      * intros a1 id1 ch1 (m1 & Hm1 & Hid1). left. cbn in Hm1.
        destruct (decide (a = a1)) as [<-|Hne].
        -- rewrite lookup_insert_eq in Hm1. injection Hm1 as <-.
           apply lookup_delete_Some in Hid1 as [_ Hid1]. exists m. auto.
        -- rewrite lookup_insert_ne in Hm1 by exact Hne. exists m1. auto.
    + unfold runCloseFunc, bind, mapLookup, closeChan in H. cbn in H.
      rewrite Hl in H. cbn in H. rewrite Hc in H. discriminate H.
  - rewrite (runCloseFunc_absent Hl) in H. cbn in H.
    injection H as <- <-. apply regs_refl.
Qed.

Lemma regs_trySend (ch : nat) (m : udpMessage) : preserves registersNew (trySend ch m).
Proof.
  intros st w b st1. unfold trySend. exec; intros H; simplify_eq.
  all: try apply regs_refl.
  split; cbn; [rewrite dom_insert_L; apply union_subseteq_r | auto].
Qed.

(** The registration [DialUDP] makes is that of a channel made just
    before. *)
Lemma regs_register {A : Type} (n : nat) (id : N) (k : nat -> Client -> M A) :
  (forall nCh c, preserves registersNew (k nCh c)) ->
  preserves registersNew
    (let! nCh := makeChan n in
     let! c := getClient in
     let! _ := mapStore (udpSessionMap c) id nCh in
     k nCh c).
Proof.
  intros Hk st w a st2 H.
  unfold bind, makeChan, getClient, mapStore in H. cbn in H.
  destruct (udpSessionMap (self st)) as [r|] eqn:Hr; cbn in H; [|discriminate H].
  apply Hk in H. refine (regs_trans _ H).
  split; cbn; [rewrite dom_insert_L; apply union_subseteq_r|].
  intros a1 id1 ch1 (m1 & Hm1 & Hid1). cbn in Hm1.
  destruct (decide (r = a1)) as [<-|Hne].
  - rewrite lookup_insert_eq in Hm1. injection Hm1 as <-.
    destruct (decide (id = id1)) as [<-|Hne].
    + rewrite lookup_insert_eq in Hid1. injection Hid1 as <-.
      right. apply is_fresh.
    + rewrite lookup_insert_ne in Hid1 by exact Hne. left.
      destruct (mapAt_lookup_entry (r := Some r) Hid1) as (a2 & m2 & [= <-] & Hm2 & Hid2).
      exists m2. auto.
  - rewrite lookup_insert_ne in Hm1 by exact Hne. left. exists m1. auto.
Qed.

Ltac regs :=
  repeat first
    [ apply regs_ret
    | apply step_panic
    | apply regs_call
    | apply regs_getClient
    | apply regs_setClient
    | apply regs_mapLookup
    | apply regs_connect
    | apply regs_runCloseFunc
    | apply regs_trySend
    | assumption
    | apply regs_register; intros ? ?
    | apply (@step_bind registersNew regs_trans); [|intros ?]
    | match goal with
      | |- preserves _ (match ?x with _ => _ end) => destruct x
      | |- preserves _ (let (_, _) := ?x in _) => destruct x
      end
    | progress unfold onConn, onStream, closeStream ].

Lemma regs_osr : preserves registersNew openStreamWithReconnect.
Proof. unfold openStreamWithReconnect. regs. Qed.

Lemma regs_DialTCP (addr : string) : preserves registersNew (DialTCP addr).
Proof. pose proof regs_osr. unfold DialTCP. regs. Qed.

Lemma regs_DialUDP : preserves registersNew DialUDP.
Proof. pose proof regs_osr. unfold DialUDP. cbv zeta. regs. Qed.

Lemma regs_Close : preserves registersNew Close.
Proof. unfold Close. regs. Qed.

Lemma regs_hyUDPConn_Close (h : hyUDPConn) : preserves registersNew (hyUDPConn_Close h).
Proof. unfold hyUDPConn_Close. regs. Qed.

Lemma regs_Hold (fuel : nat) (h : hyUDPConn) : preserves registersNew (Hold fuel h).
Proof.
  pose proof (@regs_hyUDPConn_Close h).
  induction fuel as [|n IH]; cbn [Hold]; regs.
Qed.

Lemma regs_sendFrags (s : option QuicConn) (l : list udpMessage) :
  preserves registersNew (sendFrags s l).
Proof. induction l as [|m rest IH]; cbn [sendFrags]; regs. Qed.

Lemma regs_WriteTo (h : hyUDPConn) (p : bytes) (addr : string) :
  preserves registersNew (WriteTo h p addr).
Proof.
  pose proof (@regs_sendFrags (Session h)) as Hs.
  unfold WriteTo, randIntn. regs; apply Hs.
Qed.

Lemma regs_handleMessage (fuel : nat) (qc : QuicConn) :
  preserves registersNew (handleMessage fuel qc).
Proof.
  assert (preserves registersNew (handleMessageIter qc))
    by (unfold handleMessageIter, feed; regs).
  induction fuel as [|n IH]; cbn [handleMessage]; regs.
Qed.

Lemma regs_performAll (ops : list Op) : preserves registersNew (performAll ops).
Proof.
  induction ops as [|o rest IH]; cbn [performAll]; [apply regs_ret|].
  apply (@step_bind registersNew regs_trans); [|intros _; exact IH].
  destruct o; cbn [perform]; apply (@step_bind registersNew regs_trans);
    try (intros ?; apply regs_ret).
  - apply regs_DialTCP.
  - apply regs_DialUDP.
  - apply regs_Close.
  - apply regs_hyUDPConn_Close.
  - apply regs_WriteTo.
  - apply regs_Hold.
  - apply regs_handleMessage.
Qed.

(** *** One close, from any state *)

Lemma runCloseFunc_keepsClosed (f : closeFunc) (st st1 : State) :
  runCloseFunc f st = Ret (tt, st1) -> keepsClosed st st1.
Proof.
  intros H.
  destruct (mapAt st (sessionMap f) !! cfSessionID f) as [ch|] eqn:Hl.
  - destruct (mapAt_lookup_entry Hl) as (a & m & Hf & Hm & Hid).
    destruct (chans st !! ch) as [c|] eqn:Hc; [destruct (chClosed c) eqn:Hopen|].
    + unfold runCloseFunc, bind, mapLookup, closeChan in H. cbn in H.
      rewrite Hl in H. cbn in H. rewrite Hc, Hopen in H. discriminate H.
    + rewrite (runCloseFunc_found Hf Hm Hid Hc Hopen) in H.
      injection H as <-. intros ch1 c1 Hc1 Hcl. cbn.
      rewrite lookup_insert_ne; [exact Hc1|]. congruence.
    + unfold runCloseFunc, bind, mapLookup, closeChan in H. cbn in H.
      rewrite Hl in H. cbn in H. rewrite Hc in H. discriminate H.
  - rewrite (runCloseFunc_absent Hl) in H. injection H as <-.
    intros ch1 c1 Hc1 _. exact Hc1.
Qed.

(** [Close] on a handle, in any state that satisfies the invariant. *)
Lemma hyUDPConn_Close_any (h : hyUDPConn) (s : Stream) (st : State) (w : World) :
  Inv st ->
  hStream h = Some {| qsStream := Some s |} ->
  exists (e : option error) (st1 : State),
    outcome (run (hyUDPConn_Close h st) w) = Done (e, st1)
    /\ Inv st1
    /\ mapAt st1 (sessionMap (CloseFunc h)) !! cfSessionID (CloseFunc h) = None
    /\ (forall ch, mapAt st (sessionMap (CloseFunc h)) !! cfSessionID (CloseFunc h) = Some ch ->
                   exists c, chans st1 !! ch = Some c /\ chClosed c = true)
    /\ keepsClosed st st1
    /\ (mapAt st (sessionMap (CloseFunc h)) !! cfSessionID (CloseFunc h) = None ->
        st1 = st).
Proof.
  intros HI Hs.
  destruct (runCloseFunc_Inv (CloseFunc h) HI) as (st1 & Hf & _ & HI1 & Hnone).
  destruct (runCloseFunc_result Hf) as (_ & _ & _ & Hclosed & Hsame).
  exists (handle (StreamClose s) w).1, st1.
  split; [rewrite (hyUDPConn_Close_run w Hs Hf); reflexivity|].
  split; [exact HI1|]. split; [exact Hnone|]. split; [exact Hclosed|].
  split; [exact (runCloseFunc_keepsClosed Hf) | exact Hsame].
Qed.

(** The close [Hold] makes, in any state that satisfies the invariant. *)
Lemma Hold_any (fuel : nat) (h : hyUDPConn) (s : Stream) (st : State) (w : World) :
  Inv st ->
  hStream h = Some {| qsStream := Some s |} ->
  exists (le : LoopEnd) (st1 : State),
    outcome (run (Hold fuel h st) w) = Done (le, st1)
    /\ Inv st1
    /\ keepsClosed st st1
    /\ (mapAt st (sessionMap (CloseFunc h)) !! cfSessionID (CloseFunc h) = None ->
        st1 = st).
Proof.
  intros HI Hs. revert w. induction fuel as [|n IH]; intros w.
  - exists LoopFuel, st. split; [reflexivity|]. split; [exact HI|].
    split; [intros ch c Hc _; exact Hc | auto].
  - cbn [Hold]. unfold bind at 1. rewrite run_pbind. rewrite Hs.
    unfold onStream, call. cbn.
    destruct (handle (StreamRead s 1024) w) as [[k [e|]] w1]; cbn.
    + unfold bind. rewrite run_pbind.
      destruct (hyUDPConn_Close_any w1 HI Hs)
        as (e1 & st1 & Hout & HI1 & _ & _ & Hk & Hsame).
      destruct (run (hyUDPConn_Close h st) w1) as [[o w2] tr2].
      unfold outcome in Hout. cbn in Hout. subst o. cbn.
      exists LoopExit, st1. auto.
    + destruct (IH w1) as (le & st1 & Hle & Hrest). exists le, st1.
      destruct (run (Hold n h st) w1) as [[o w2] tr2]. split; [exact Hle | exact Hrest].
Qed.

(** C9.  In any state that satisfies the store invariant (every
    registered channel open, none registered twice, which every function
    of the client maintains), [Close] on a handle with a stream does not
    panic and touches no channel that is closed already; it closes the
    channel registered under the handle's key in the map it captured, if
    there is one, and removes that entry; if there is none it changes
    nothing.  The same holds for the close that [Hold] makes when its read
    fails.  Right after a [Close], any number of further [Close] calls and
    [Hold] change nothing.  After a [Close] and whatever dials, closes,
    writes, holds and pump turns follow it, the invariant holds again, the
    channels closed so far are as they were, and the key is either absent
    or bound to a channel that was created after that [Close]: only then
    does a further [Close] of the handle close a channel and remove an
    entry again, those of the session that was given the same ID. *)
Theorem UDP_close_idempotent (h : hyUDPConn) (s : Stream) (st : State) (w : World) :
  Inv st ->
  hStream h = Some {| qsStream := Some s |} ->
  exists (e : option error) (st1 : State),
    outcome (run (hyUDPConn_Close h st) w) = Done (e, st1)
    /\ Inv st1
    /\ mapAt st1 (sessionMap (CloseFunc h)) !! cfSessionID (CloseFunc h) = None
    /\ (forall ch, mapAt st (sessionMap (CloseFunc h)) !! cfSessionID (CloseFunc h) = Some ch ->
                   exists c, chans st1 !! ch = Some c /\ chClosed c = true)
    /\ keepsClosed st st1
    /\ (mapAt st (sessionMap (CloseFunc h)) !! cfSessionID (CloseFunc h) = None ->
        st1 = st)
    /\ (forall (fuel : nat) (w1 : World),
           exists (le : LoopEnd) (st2 : State),
             outcome (run (Hold fuel h st) w1) = Done (le, st2)
             /\ Inv st2
             /\ keepsClosed st st2
             /\ (mapAt st (sessionMap (CloseFunc h)) !! cfSessionID (CloseFunc h) = None ->
                 st2 = st))
    /\ (forall (n : nat) (w1 : World),
           outcome (run (closeTimes n h st1) w1) = Done (tt, st1))
    /\ (forall (fuel : nat) (w1 : World),
           exists le, outcome (run (Hold fuel h st1) w1) = Done (le, st1))
    /\ (forall (ops : list Op) (st2 : State) (w1 : World),
           outcome (run (performAll ops st1) w1) = Done (tt, st2) ->
           Inv st2
           /\ keepsClosed st1 st2
           /\ (forall ch,
                  mapAt st2 (sessionMap (CloseFunc h)) !! cfSessionID (CloseFunc h)
                    = Some ch ->
                  ch ∉ dom (chans st1))).
Proof.
  intros HI Hs.
  destruct (hyUDPConn_Close_any w HI Hs)
    as (e & st1 & Hout & HI1 & Hnone & Hclosed & Hkeep & Hsame).
  exists e, st1. split; [exact Hout|].
  split; [exact HI1|]. split; [exact Hnone|]. split; [exact Hclosed|].
  split; [exact Hkeep|]. split; [exact Hsame|].
  split; [intros fuel w1; apply (Hold_any fuel w1 HI Hs)|].
  split; [intros; apply (closeTimes_again _ _ Hs Hnone)|].
  split; [intros; apply (Hold_again _ _ Hs Hnone)|].
  intros ops st2 w1 Hrun.
  split; [exact (ev_inv (preserves_performAll Hrun) HI1)|].
  split; [exact (performAll_keepsClosed Hrun)|].
  intros ch Hch.
  destruct (mapAt_lookup_entry Hch) as (a & m & Hf & Hm & Hid).
  destruct (regs_performAll Hrun) as [_ Hreg].
  destruct (Hreg a (cfSessionID (CloseFunc h)) ch) as [(m1 & Hm1 & Hid1)|Hnew];
    [exists m; auto| |exact Hnew].
  exfalso. rewrite Hf in Hnone. unfold mapAt in Hnone. rewrite Hm1 in Hnone.
  cbn in Hnone. congruence.
Qed.
End Proofs.

(** * The theorems at concrete runs *)

Section Witnesses.
Import Reference Scenario.

Ltac run_eq := reflexivity.

Lemma st0_Inv : Inv st0.
Proof.
  apply (ev_inv (@preserves_connect deps env stNew [] None st0 eq_refl)).
  apply Inv_no_maps. reflexivity.
Qed.

Lemma st1_Inv : Inv st1.
Proof.
  apply (ev_inv (@preserves_DialUDP deps env st0 [] (Some h1, None) st1 eq_refl)).
  exact st0_Inv.
Qed.

Lemma stFull_Inv : Inv stFull.
Proof. unfold stFull. apply Inv_queue; [reflexivity | exact st1_Inv]. Qed.

(** [st0] is the client [NewClient] returns when the server accepts. *)
Lemma st0_NewClient :
  outcome (run (NewClient "example.com:443" [] O
                  {| DisablePathMTUDiscovery := false |} 10 20) [])
  = Done (Ok st0).
Proof. run_eq. Qed.

(** When the server rejects the credentials, [NewClient] returns an
    error whose text contains the server's message, after an auth-error
    close and after closing the packet conn it had opened. *)
Example NewClient_auth_rejection :
  run (NewClient "example.com:443" [] O {| DisablePathMTUDiscovery := false |} 10 20)
      rejecting
  = (Done (Err (ErrPlain "auth error: bad auth")), [],
     [Ev (PktConnFunc "example.com:443") (Ok (6, 6)%nat);
      Ev (QuicDial 6%nat 6%nat "example.com" O {| DisablePathMTUDiscovery := false |})
         (Ok 5%nat);
      Ev (OpenStreamSync 5%nat 10) (Ok 4%nat);
      Ev (StreamWrite 4%nat [Byte.x03]) (1, None);
      Ev (PackClientHello 4%nat
            {| chRate := {| SendBPS := 10; RecvBPS := 20 |}; chAuth := [] |}) None;
      Ev (UnpackServerHello 4%nat)
         (Ok {| shOK := false; shRate := {| SendBPS := 0; RecvBPS := 0 |};
                shMessage := "bad auth" |});
      Ev (QErrorSend qErrorAuth 5%nat) None;
      Ev (PktConnClose 6%nat) None]).
Proof. reflexivity. Qed.

Lemma captured_map_close_witness :
  (outcome (run (DialUDP st0) []) = Done ((Some h1, None), st1)
   /\ outcome (run (performAll [] st1) []) = Done (tt, st1)
   /\ outcome (run (connect st1) []) = Done (None, st3)
   /\ outcome (run (performAll [OpDialUDP] st3) []) = Done (tt, st4)
   /\ outcome (run (hyUDPConn_Close h1 st4) []) = Done (None, st5))
  /\ ((sessionMap (CloseFunc h1) = udpSessionMap (self st1)
       /\ cfSessionID (CloseFunc h1) = UDPSessionID h1
       /\ mapAt st1 (sessionMap (CloseFunc h1)) !! UDPSessionID h1 = Some (MsgCh h1))
      /\ (mapAt st5 (sessionMap (CloseFunc h1)) !! cfSessionID (CloseFunc h1) = None
          /\ (forall ch,
                 mapAt st4 (sessionMap (CloseFunc h1)) !! cfSessionID (CloseFunc h1) = Some ch ->
                 exists c, chans st5 !! ch = Some c /\ chClosed c = true)
          /\ (forall a, sessionMap (CloseFunc h1) <> Some a ->
                        maps st5 !! a = maps st4 !! a))
      /\ (udpSessionMap (self st4) <> sessionMap (CloseFunc h1)
          /\ udpSessionMap (self st5) = udpSessionMap (self st4)
          /\ mapAt st5 (udpSessionMap (self st5)) = mapAt st4 (udpSessionMap (self st4)))).
Proof.
  split.
  - repeat split; run_eq.
  - apply (@captured_map_close deps env st0 st1 st1 st3 st4 st5 [] [] [] [] []
             h1 [] [OpDialUDP] None); run_eq.
Defined.

Lemma at_most_one_reconnect_per_dial_witness :
  countEv isGoHandleMessage (trace (run (openStreamWithReconnect st0) failingTwice)) = 1%nat
  /\ boundedReconnect (trace (run (DialTCP "example.com:80" st0) failingTwice))
  /\ boundedReconnect (trace (run (DialUDP st0) failingTwice))
  /\ exists (pre : list Event) (qc : QuicConn) (x : result Stream) (st1 : State),
       trace (run (openStreamWithReconnect st0) failingTwice)
         = pre ++ [Ev (OpenStream qc) x]
       /\ countEv isReconnectFunc pre = 1%nat
       /\ countEv isPktConnFunc pre = 1%nat
       /\ countEv isOpenStream pre = 1%nat
       /\ quicConn (self st1) = Some qc
       /\ outcome (run (openStreamWithReconnect st0) failingTwice) =
            Done ((Some qc, Some {| qsStream := valueOf x |}, errorOf x), st1).
Proof.
  destruct (@at_most_one_reconnect_per_dial deps env st0 failingTwice "example.com:80")
    as (HT & HU & _ & Hretry).
  split; [reflexivity|]. split; [exact HT|]. split; [exact HU|].
  apply Hretry. reflexivity.
Defined.

Lemma closed_client_refuses_dials_witness :
  (quicConn (self st0) = Some O /\ pktConn (self st0) = Some O)
  /\ exists (e : option error) (st1 : State),
       outcome (run (Close st0) []) = Done (e, st1)
       /\ closed (self st1) = true
       /\ forall (ops : list Op) (w1 : World) (st2 : State),
            outcome (run (performAll ops st1) w1) = Done (tt, st2) ->
            closed (self st2) = true
            /\ forall (w2 : World),
                 run (DialUDP st2) w2 = (Done ((None, Some ErrClosed), st2), w2, [])
                 /\ forall (addr : string),
                      run (DialTCP addr st2) w2 =
                        (Done ((None, Some (match SplitHostPort addr with
                                            | Ok _ => ErrClosed
                                            | Err err => err
                                            end)), st2), w2, []).
Proof.
  split; [split; reflexivity|].
  apply (@closed_client_refuses_dials deps env st0 [] O O); reflexivity.
Defined.

(** C3, as the claim states it, fails: after [Close] has returned,
    [DialTCP] with an address that has no port fails with the error of
    the address parser, not with [ErrClosed]. *)
Lemma closed_dial_counterexample :
  outcome (run (Close st0) []) = Done (None, stClosed)
  /\ closed (self stClosed) = true
  /\ outcome (run (DialTCP "example.com" stClosed) [])
       = Done ((None, Some (ErrPlain "missing port in address")), stClosed)
  /\ outcome (run (DialTCP "example.com" stClosed) [])
       <> Done ((None, Some ErrClosed), stClosed).
Proof.
  split; [reflexivity|]. split; [reflexivity|]. split; [reflexivity|].
  intros H. discriminate H.
Qed.

Lemma temporary_error_no_reconnect_witness :
  (closed (self st0) = false
   /\ quicConn (self st0) = Some O
   /\ handle (OpenStream O) [Fail (ErrNet "timeout" true)]
        = (Err (ErrNet "timeout" true), [])
   /\ isTemporary (ErrNet "timeout" true) = true)
  /\ (run (openStreamWithReconnect st0) [Fail (ErrNet "timeout" true)]
        = (Done ((None, None, Some (ErrNet "timeout" true)), st0), [],
           [Ev (OpenStream O) (Err (ErrNet "timeout" true))])
      /\ countEv isReconnectFunc
           (trace (run (openStreamWithReconnect st0) [Fail (ErrNet "timeout" true)])) = O
      /\ countEv isPktConnFunc
           (trace (run (openStreamWithReconnect st0) [Fail (ErrNet "timeout" true)])) = O).
Proof.
  split; [repeat split|].
  apply (@temporary_error_no_reconnect deps env st0 [Fail (ErrNet "timeout" true)] []
           O (ErrNet "timeout" true)); reflexivity.
Defined.

Lemma WriteTo_fragmentation_sequence_witness :
  (Session h1 = Some O
   /\ SplitHostPort "1.2.3.4:53" = Ok ("1.2.3.4"%string, 53))
  /\ exists (draw : Z) (answers : list (option error)),
       let msgID := uint16 (uint16 (draw mod 0xFFFF) + 1) in
       let fragMsgs :=
         fragUDPMessage {| SessionID := 1%N; Host := "1.2.3.4"; Port := 53;
                           MsgID := msgID; FragID := 0; FragCount := 1;
                           Data := [Byte.x01; Byte.x02] |} 21 in
       1 <= msgID <= 0xFFFF
       /\ trace (run (WriteTo h1 [Byte.x01; Byte.x02] "1.2.3.4:53" st1) tooLarge) =
            Ev (SendMessage O (packUDPMessage dgram)) (Some (ErrMessageToLarge 21))
            :: Ev RandInt63 draw
            :: sendEvents O fragMsgs answers
       /\ ((answers = replicate (length fragMsgs) None
            /\ outcome (run (WriteTo h1 [Byte.x01; Byte.x02] "1.2.3.4:53" st1) tooLarge)
               = Done (None, st1))
           \/ (exists (i : nat) (e : error),
                  (i < length fragMsgs)%nat
                  /\ answers = replicate i None ++ [Some e]
                  /\ outcome (run (WriteTo h1 [Byte.x01; Byte.x02] "1.2.3.4:53" st1) tooLarge)
                     = Done (Some e, st1))).
Proof.
  split; [split; reflexivity|].
  exact (@WriteTo_fragmentation_sequence deps env h1 [Byte.x01; Byte.x02] "1.2.3.4:53"
           st1 tooLarge O "1.2.3.4" 53 eq_refl eq_refl).
Defined.

(** The two fragments of the witness carry the message ID drawn, 7. *)
Example WriteTo_fragments_carry_msgID :
  run (WriteTo h1 [Byte.x01; Byte.x02] "1.2.3.4:53" st1) tooLarge
  = (Done (None, st1), [],
     [Ev (SendMessage O (packUDPMessage dgram)) (Some (ErrMessageToLarge 21));
      Ev RandInt63 6;
      Ev (SendMessage O
            (packUDPMessage {| SessionID := 1%N; Host := "1.2.3.4"; Port := 53;
                               MsgID := 7; FragID := 0; FragCount := 2;
                               Data := [Byte.x01] |})) None;
      Ev (SendMessage O
            (packUDPMessage {| SessionID := 1%N; Host := "1.2.3.4"; Port := 53;
                               MsgID := 7; FragID := 1; FragCount := 2;
                               Data := [Byte.x02] |})) None]).
Proof. reflexivity. Qed.

Lemma connect_failure_cleanup_witness :
  (outcome (run (connect stNew) rejecting)
     = Done (Some (ErrPlain "auth error: bad auth"), stNew)
   /\ firstEv evPktConn (trace (run (connect stNew) rejecting)) = Some 6%nat)
  /\ ((exists y, [Ev (PktConnClose 6%nat) y] `suffix_of` trace (run (connect stNew) rejecting))
      /\ (forall qc : QuicConn,
             firstEv evQuicConn (trace (run (connect stNew) rejecting)) = Some qc ->
             (existsb isHandshakeFailure (trace (run (connect stNew) rejecting)) = true ->
              exists x y, [Ev (QErrorSend qErrorProtocol qc) x; Ev (PktConnClose 6%nat) y]
                            `suffix_of` trace (run (connect stNew) rejecting))
             /\ (forall sh : serverHello,
                    firstEv evServerHello (trace (run (connect stNew) rejecting)) = Some sh ->
                    shOK sh = false ->
                    (exists x y, [Ev (QErrorSend qErrorAuth qc) x; Ev (PktConnClose 6%nat) y]
                                   `suffix_of` trace (run (connect stNew) rejecting))
                    /\ ErrPlain "auth error: bad auth" = Errorf "auth error: " (shMessage sh)
                    /\ contains (errorString (ErrPlain "auth error: bad auth"))
                         (shMessage sh)))).
Proof.
  split; [split; reflexivity|].
  apply (@connect_failure_cleanup deps env stNew stNew rejecting
           (ErrPlain "auth error: bad auth") 6%nat); reflexivity.
Defined.

Lemma retry_failure_returns_wrapper_witness :
  outcome (run (openStreamWithReconnect st0) failingTwice)
    = Done ((Some 8%nat, Some {| qsStream := None |},
             Some (ErrPlain "too many open streams")), stRetry)
  /\ ((countEv isGoHandleMessage (trace (run (openStreamWithReconnect st0) failingTwice))
         = 1%nat
       /\ countEv isOpenStream (trace (run (openStreamWithReconnect st0) failingTwice))
            = 2%nat
       /\ (exists q : QuicConn,
              Some 8%nat = Some q /\ quicConn (self stRetry) = Some q
              /\ [Ev (OpenStream q) (Err (ErrPlain "too many open streams"))]
                   `suffix_of` trace (run (openStreamWithReconnect st0) failingTwice))
       /\ Some {| qsStream := None |} = Some {| qsStream := None |})
      \/ (countEv isGoHandleMessage (trace (run (openStreamWithReconnect st0) failingTwice))
            = O
          /\ (countEv isOpenStream (trace (run (openStreamWithReconnect st0) failingTwice))
                <= 1)%nat
          /\ Some 8%nat = None
          /\ Some {| qsStream := None |} = None)).
Proof.
  split; [reflexivity|].
  apply (@retry_failure_returns_wrapper deps env st0 stRetry failingTwice).
  reflexivity.
Defined.

Lemma UDP_close_idempotent_witness :
  (Inv st1 /\ hStream h1 = Some {| qsStream := Some O |})
  /\ exists (e : option error) (st2 : State),
       outcome (run (hyUDPConn_Close h1 st1) []) = Done (e, st2)
       /\ Inv st2
       /\ mapAt st2 (sessionMap (CloseFunc h1)) !! cfSessionID (CloseFunc h1) = None
       /\ (forall ch,
              mapAt st1 (sessionMap (CloseFunc h1)) !! cfSessionID (CloseFunc h1) = Some ch ->
              exists c, chans st2 !! ch = Some c /\ chClosed c = true)
       /\ keepsClosed st1 st2
       /\ (mapAt st1 (sessionMap (CloseFunc h1)) !! cfSessionID (CloseFunc h1) = None ->
           st2 = st1)
       /\ (forall (fuel : nat) (w1 : World),
              exists (le : LoopEnd) (st3 : State),
                outcome (run (Hold fuel h1 st1) w1) = Done (le, st3)
                /\ Inv st3
                /\ keepsClosed st1 st3
                /\ (mapAt st1 (sessionMap (CloseFunc h1)) !! cfSessionID (CloseFunc h1)
                      = None ->
                    st3 = st1))
       /\ (forall (n : nat) (w1 : World),
              outcome (run (closeTimes n h1 st2) w1) = Done (tt, st2))
       /\ (forall (fuel : nat) (w1 : World),
              exists le, outcome (run (Hold fuel h1 st2) w1) = Done (le, st2))
       /\ (forall (ops : list Op) (st3 : State) (w1 : World),
              outcome (run (performAll ops st2) w1) = Done (tt, st3) ->
              Inv st3
              /\ keepsClosed st2 st3
              /\ (forall ch,
                     mapAt st3 (sessionMap (CloseFunc h1)) !! cfSessionID (CloseFunc h1)
                       = Some ch ->
                     ch ∉ dom (chans st2))).
Proof.
  split; [split; [exact st1_Inv | reflexivity]|].
  apply (@UDP_close_idempotent deps env h1 O st1 []); [exact st1_Inv | reflexivity].
Defined.

(** C9, as the claim states it, fails: the first handle is closed, the
    server gives the next [DialUDP] on the same connection session ID 1
    again, and a second [Close] of the first handle removes a session-map
    entry and closes a channel once more, those of the second handle. *)
Lemma close_after_reuse_counterexample :
  (outcome (run (DialUDP st0) []) = Done ((Some h1, None), st1)
   /\ outcome (run (hyUDPConn_Close h1 st1) []) = Done (None, Runs.stShut)
   /\ outcome (run (DialUDP Runs.stShut) [])
      = Done ((Some Runs.h2, None), Runs.stAgain)
   /\ outcome (run (hyUDPConn_Close h1 Runs.stAgain) []) = Done (None, Runs.stShut2))
  /\ MsgCh Runs.h2 <> MsgCh h1
  /\ (mapAt st1 (sessionMap (CloseFunc h1)) !! cfSessionID (CloseFunc h1)
        = Some (MsgCh h1)
      /\ mapAt Runs.stShut (sessionMap (CloseFunc h1)) !! cfSessionID (CloseFunc h1)
         = None
      /\ chans Runs.stShut !! MsgCh h1
         = Some {| chBuf := []; chCap := 1024; chClosed := true |})
  /\ (mapAt Runs.stAgain (sessionMap (CloseFunc h1)) !! cfSessionID (CloseFunc h1)
        = Some (MsgCh Runs.h2)
      /\ chans Runs.stAgain !! MsgCh Runs.h2
         = Some {| chBuf := []; chCap := 1024; chClosed := false |}
      /\ mapAt Runs.stShut2 (sessionMap (CloseFunc h1)) !! cfSessionID (CloseFunc h1)
         = None
      /\ chans Runs.stShut2 !! MsgCh Runs.h2
         = Some {| chBuf := []; chCap := 1024; chClosed := true |})
  /\ maps Runs.stShut2 <> maps Runs.stAgain
  /\ chans Runs.stShut2 <> chans Runs.stAgain.
Proof.
  split; [repeat split; reflexivity|].
  split; [intros H; discriminate H|].
  split; [repeat split; reflexivity|].
  split; [repeat split; reflexivity|].
  split; intros H.
  - assert (H1 : mapAt Runs.stShut2 (Some O) !! 1%N = mapAt Runs.stAgain (Some O) !! 1%N)
      by (unfold mapAt; rewrite H; reflexivity).
    discriminate H1.
  - assert (H1 : chans Runs.stShut2 !! 1%nat = chans Runs.stAgain !! 1%nat)
      by (rewrite H; reflexivity).
    discriminate H1.
Qed.

Lemma pump_policy_witness :
  (Inv stFull
   /\ handle (ReceiveMessage O) oneThenError
        = (Ok (packUDPMessage dgram), [Fail (ErrPlain "connection closed")])
   /\ unpackUDPMessage (packUDPMessage dgram) = Some dgram
   /\ Feed (udpDefragger (self stFull)) dgram = (∅, Some dgram)
   /\ mapAt stFull (udpSessionMap (self stFull)) !! SessionID dgram = Some O
   /\ chans stFull !! O = Some fullChan
   /\ chClosed fullChan = false
   /\ length (chBuf fullChan) = chCap fullChan)
  /\ run (handleMessageIter O stFull) oneThenError =
       (Done (true, {| self := withDefragger ∅ (self stFull);
                       maps := maps stFull; chans := chans stFull |}),
        [Fail (ErrPlain "connection closed")],
        [Ev (ReceiveMessage O) (Ok (packUDPMessage dgram))])
  /\ exists (le : LoopEnd) (st2 : State),
       outcome (run (handleMessage 5 O stFull) oneThenError) = Done (le, st2)
       /\ Inv st2
       /\ (quicConn (self st2) = quicConn (self stFull)
           /\ pktConn (self st2) = pktConn (self stFull)
           /\ closed (self st2) = closed (self stFull)
           /\ udpSessionMap (self st2) = udpSessionMap (self stFull))
       /\ (countEv isReceiveMessage (trace (run (handleMessage 5 O stFull) oneThenError))
             = length (trace (run (handleMessage 5 O stFull) oneThenError))
           /\ countEv isReconnectFunc
                (trace (run (handleMessage 5 O stFull) oneThenError)) = O
           /\ countEv isPktConnFunc
                (trace (run (handleMessage 5 O stFull) oneThenError)) = O)
       /\ match le with
          | LoopExit =>
              exists (pre : list Event) (e : error),
                trace (run (handleMessage 5 O stFull) oneThenError)
                  = pre ++ [Ev (ReceiveMessage O) (Err e)]
                /\ countEv isReceiveError pre = O
          | LoopFuel =>
              length (trace (run (handleMessage 5 O stFull) oneThenError)) = 5%nat
              /\ countEv isReceiveError
                   (trace (run (handleMessage 5 O stFull) oneThenError)) = O
          end.
Proof.
  destruct (@pump_policy deps env O stFull oneThenError stFull_Inv) as [Hdrop Hloop].
  split; [split; [exact stFull_Inv | repeat split]|].
  split; [|exact (Hloop 5%nat)].
  apply (Hdrop [Fail (ErrPlain "connection closed")] (packUDPMessage dgram)
           dgram dgram ∅ O fullChan); reflexivity.
Defined.
End Witnesses.

(** * The further properties at concrete runs *)

Section MoreWitnesses.
Import Reference Scenario Runs.

Lemma stOne_Inv : Inv stOne.
Proof.
  apply (ev_inv (@preserves_handleMessageIter deps env O st1 oneThenError true stOne
                   eq_refl)).
  exact st1_Inv.
Qed.

Lemma st0_Connected : Connected st0.
Proof. split; [exact st0_Inv | cbn; eauto ..]. Qed.

Lemma connect_installs_or_keeps_witness :
  (outcome (run (connect stNew) []) = Done (None, st0)
   /\ outcome (run (connect st1) rejectingAgain)
      = Done (Some (ErrPlain "auth error: bad auth"), st1))
  /\ (exists (pc : PktConn) (qc : QuicConn),
         firstEv evPktConn (trace (run (connect stNew) [])) = Some pc
         /\ firstEv evQuicConn (trace (run (connect stNew) [])) = Some qc
         /\ st0 = reconnected pc qc stNew
         /\ [Ev (GoHandleMessage qc) tt] `suffix_of` trace (run (connect stNew) [])
         /\ mapAt st0 (udpSessionMap (self st0)) = ∅
         /\ chans st0 = chans stNew
         /\ closed (self st0) = closed (self stNew))
  /\ st1 = st1
  /\ countEv isGoHandleMessage (trace (run (connect st1) rejectingAgain)) = O.
Proof.
  split; [split; reflexivity|]. split.
  - exact (@connect_installs_or_keeps deps env stNew st0 [] None eq_refl).
  - exact (@connect_installs_or_keeps deps env st1 st1 rejectingAgain
             (Some (ErrPlain "auth error: bad auth")) eq_refl).
Defined.

Lemma NewClient_returns_connected_witness :
  outcome (run (NewClient "example.com:443" [] O
                  {| DisablePathMTUDiscovery := false |} 10 20) [])
    = Done (Ok st0)
  /\ Connected st0
  /\ closed (self st0) = false
  /\ (serverAddr (self st0) = "example.com:443"%string /\ auth (self st0) = []
      /\ sendBPS (self st0) = 10 /\ recvBPS (self st0) = 20
      /\ tlsConfig (self st0) = O)
  /\ mapAt st0 (udpSessionMap (self st0)) = ∅
  /\ chans st0 = ∅
  /\ countEv isGoHandleMessage
       (trace (run (NewClient "example.com:443" [] O
                      {| DisablePathMTUDiscovery := false |} 10 20) [])) = 1%nat.
Proof.
  split; [reflexivity|].
  exact (@NewClient_returns_connected deps env "example.com:443" [] O
           {| DisablePathMTUDiscovery := false |} 10 20 [] (Ok st0) eq_refl).
Defined.

Lemma NewClient_passes_parameters_witness :
  let tr := trace (run (NewClient "example.com:443" [Byte.x07] O
                          {| DisablePathMTUDiscovery := true |} 10 20) []) in
  (firstEv evDialArgs tr
     = Some ("example.com"%string, O, {| DisablePathMTUDiscovery := true |})
   /\ firstEv evClientHello tr
      = Some {| chRate := {| SendBPS := 10; RecvBPS := 20 |}; chAuth := [Byte.x07] |})
  /\ firstEv evFactoryAddr tr = Some "example.com:443"%string
  /\ countEv isPktConnFunc tr = 1%nat
  /\ countEv isReconnectFunc tr = O.
Proof.
  pose proof (@NewClient_passes_parameters deps env "example.com:443" [Byte.x07] O
                {| DisablePathMTUDiscovery := true |} 10 20 [])
    as (Ha & Hp & Hr & _ & _).
  cbv zeta. split; [split; reflexivity|].
  split; [exact Ha|]. split; [exact Hp | exact Hr].
Defined.

Lemma DialTCP_success_witness :
  outcome (run (DialTCP "example.com:80" st0) []) = Done ((Some tcp1, None), st0)
  /\ exists (host : string) (port : Z) (s : Stream) (q : QuicConn)
            (sr : serverResponse) (la ra : Addr),
       SplitHostPort "example.com:80" = Ok (host, port)
       /\ firstEv evOpened (trace (run (DialTCP "example.com:80" st0) [])) = Some s
       /\ quicConn (self st0) = Some q
       /\ [Ev (PackClientRequest s {| crUDP := false; crHost := host; crPort := port |})
              None;
           Ev (UnpackServerResponse s) (Ok sr);
           Ev (LocalAddr q) la;
           Ev (RemoteAddr q) ra]
            `suffix_of` trace (run (DialTCP "example.com:80" st0) [])
       /\ srOK sr = true
       /\ tcp1 = {| Orig := Some {| qsStream := Some s |};
                    PseudoLocalAddr := la; PseudoRemoteAddr := ra |}.
Proof.
  split; [reflexivity|].
  apply (@DialTCP_success deps env st0 st0 [] "example.com:80" tcp1). reflexivity.
Defined.

Lemma DialUDP_success_witness :
  outcome (run (DialUDP st0) []) = Done ((Some h1, None), st1)
  /\ (MsgCh h1 ∉ dom (chans st0))
  /\ chans st1
     = <[MsgCh h1 := {| chBuf := []; chCap := 1024; chClosed := false |}]> (chans st0)
  /\ mapAt st1 (udpSessionMap (self st1)) !! UDPSessionID h1 = Some (MsgCh h1).
Proof.
  split; [reflexivity|].
  destruct (@DialUDP_success deps env st0 st1 [] h1 eq_refl)
    as (s & q & sr & a & _ & _ & Ha & _ & _ & Hh & Hfresh & Hch & Hm).
  split; [exact Hfresh|]. split; [exact Hch|].
  rewrite Ha. rewrite Hh in Hm. rewrite Hh. exact Hm.
Defined.

Lemma dial_failure_closes_stream_witness :
  (exists y, [Ev (StreamClose 3%nat) y]
               `suffix_of` trace (run (DialTCP "example.com:80" st0) responseFails))
  /\ (exists y, [Ev (StreamClose 3%nat) y]
                  `suffix_of` trace (run (DialUDP st0) responseFails)).
Proof.
  destruct (@dial_failure_closes_stream deps env st0 responseFails "example.com:80")
    as [HT HU].
  split.
  - apply (HT 3%nat (ErrPlain "stream reset") st0); reflexivity.
  - apply (HU 3%nat (ErrPlain "stream reset") st0); reflexivity.
Defined.

Lemma failed_DialUDP_registers_nothing_witness :
  outcome (run (DialUDP st1) failingTwice)
    = Done ((None, Some (ErrPlain "too many open streams")), stLost)
  /\ chans stLost = chans st1
  /\ forall a m, maps st1 !! a = Some m -> maps stLost !! a = Some m.
Proof.
  split; [reflexivity|].
  apply (@failed_DialUDP_registers_nothing deps env st1 stLost failingTwice
           (Some (ErrPlain "too many open streams"))).
  reflexivity.
Defined.

Lemma dial_rejection_witness :
  (srOK noRoute = false
   /\ firstEv evResponse (trace (run (DialTCP "example.com:80" st0) refused))
      = Some noRoute
   /\ firstEv evResponse (trace (run (DialUDP st0) refused)) = Some noRoute)
  /\ (exists st1,
         outcome (run (DialTCP "example.com:80" st0) refused)
           = Done ((None, Some (Errorf "connection rejected: " "no route")), st1))
  /\ (exists st1,
         outcome (run (DialUDP st0) refused)
           = Done ((None, Some (Errorf "connection rejected: " "no route")), st1)).
Proof.
  split; [repeat split; reflexivity|].
  destruct (@dial_rejection deps env st0 refused "example.com:80" noRoute eq_refl)
    as (HT & HU & _).
  split; [apply HT | apply HU]; reflexivity.
Defined.

Lemma permanent_error_reconnects_witness :
  (closed (self st0) = false
   /\ quicConn (self st0) = Some O
   /\ handle (OpenStream O) failingTwice
      = (Err (ErrPlain "connection lost"),
         replicate 11 Succeed ++ [Fail (ErrPlain "too many open streams")])
   /\ isTemporary (ErrPlain "connection lost") = false)
  /\ exists rest : list Event,
       trace (run (openStreamWithReconnect st0) failingTwice)
         = Ev (OpenStream O) (Err (ErrPlain "connection lost"))
             :: Ev (ReconnectFunc (ErrPlain "connection lost")) tt
             :: trace (run (connect st0)
                         (replicate 10 Succeed
                            ++ [Fail (ErrPlain "too many open streams")]))
             ++ rest
       /\ length rest = 1%nat.
Proof.
  split; [repeat split; reflexivity|].
  destruct (@permanent_error_reconnects deps env st0 failingTwice
              (replicate 11 Succeed ++ [Fail (ErrPlain "too many open streams")])
              O (ErrPlain "connection lost") eq_refl eq_refl eq_refl eq_refl)
    as (rest & Htr & Hout).
  exists rest. split; [exact Htr|].
  cbn in Hout. destruct Hout as (q & x & _ & -> & _). reflexivity.
Defined.

Lemma WriteTo_only_sends_witness :
  SplitHostPort "nowhere" = Err (ErrPlain "missing port in address")
  /\ run (WriteTo h1 [Byte.x01] "nowhere" st1) []
     = (Done (Some (ErrPlain "missing port in address"), st1), [], []).
Proof.
  split; [reflexivity|].
  apply (@WriteTo_only_sends deps env h1 [Byte.x01] "nowhere" st1 []). reflexivity.
Defined.

Lemma Hold_closes_on_read_error_witness :
  (Inv st1 /\ hStream h1 = Some {| qsStream := Some O |})
  /\ exists (le : LoopEnd) (st2 : State),
       outcome (run (Hold 5 h1 st1) readFails) = Done (le, st2)
       /\ match le with
          | LoopExit =>
              exists (pre : list Event) (n : Z) (e : error) (y : option error),
                trace (run (Hold 5 h1 st1) readFails)
                  = pre ++ [Ev (StreamRead O 1024) (n, Some e); Ev (StreamClose O) y]
                /\ countEv isStreamRead pre = length pre
                /\ countEv isReadError pre = O
                /\ runCloseFunc (CloseFunc h1) st1 = Ret (tt, st2)
                /\ mapAt st2 (sessionMap (CloseFunc h1)) !! cfSessionID (CloseFunc h1)
                   = None
          | LoopFuel =>
              st2 = st1
              /\ length (trace (run (Hold 5 h1 st1) readFails)) = 5%nat
              /\ countEv isStreamRead (trace (run (Hold 5 h1 st1) readFails)) = 5%nat
              /\ countEv isReadError (trace (run (Hold 5 h1 st1) readFails)) = O
          end.
Proof.
  split; [split; [exact st1_Inv | reflexivity]|].
  apply (@Hold_closes_on_read_error deps env 5 h1 O st1 readFails st1_Inv eq_refl).
Defined.

Lemma pump_routes_by_current_map_witness :
  (handle (ReceiveMessage O) oneThenError
     = (Ok (packUDPMessage dgram), [Fail (ErrPlain "connection closed")])
   /\ unpackUDPMessage (packUDPMessage dgram) = Some dgram
   /\ Feed (udpDefragger (self st1)) dgram = (∅, Some dgram)
   /\ mapAt st1 (udpSessionMap (self st1)) !! SessionID dgram = Some O
   /\ chans st1 !! O = Some {| chBuf := []; chCap := 1024; chClosed := false |}
   /\ mapAt st3 (udpSessionMap (self st3)) !! SessionID dgram = None)
  /\ run (handleMessageIter O st1) oneThenError
     = (Done (true, {| self := withDefragger ∅ (self st1);
                       maps := maps st1;
                       chans := <[O := oneChan]> (chans st1) |}),
        [Fail (ErrPlain "connection closed")],
        [Ev (ReceiveMessage O) (Ok (packUDPMessage dgram))])
  /\ run (handleMessageIter O st3) oneThenError
     = (Done (true, {| self := withDefragger ∅ (self st3);
                       maps := maps st3; chans := chans st3 |}),
        [Fail (ErrPlain "connection closed")],
        [Ev (ReceiveMessage O) (Ok (packUDPMessage dgram))]).
Proof.
  split; [repeat split; reflexivity|].
  split.
  - apply (proj1 (@pump_routes_by_current_map deps env O st1 oneThenError
                    [Fail (ErrPlain "connection closed")] (packUDPMessage dgram)
                    dgram dgram ∅ eq_refl eq_refl eq_refl)
             O {| chBuf := []; chCap := 1024; chClosed := false |});
      [reflexivity | reflexivity | reflexivity | cbn; lia].
  - apply (proj2 (@pump_routes_by_current_map deps env O st3 oneThenError
                    [Fail (ErrPlain "connection closed")] (packUDPMessage dgram)
                    dgram dgram ∅ eq_refl eq_refl eq_refl)).
    reflexivity.
Defined.

Lemma garbage_allMalformed :
  allMalformed (trace (run (handleMessage 5 O st1) garbage)).
Proof.
  repeat constructor; intros b Hb; cbn in Hb; inversion Hb; reflexivity.
Qed.

Lemma pump_skips_malformed_witness :
  (allMalformed (trace (run (handleMessage 5 O st1) garbage))
   /\ outcome (run (handleMessage 5 O st1) garbage) = Done (LoopExit, st1))
  /\ st1 = st1
  /\ existsb isReceiveError (trace (run (handleMessage 5 O st1) garbage)) = true.
Proof.
  split; [split; [exact garbage_allMalformed | reflexivity]|].
  apply (@pump_skips_malformed deps env O 5 st1 st1 garbage LoopExit
           garbage_allMalformed eq_refl).
Defined.

Lemma ReadFrom_queue_order_witness :
  chans stOne !! MsgCh h1 = Some oneChan
  /\ exists st2 : State,
       run (readMany (length (chBuf oneChan) + 2) h1 stOne) []
         = (Done (map delivered (chBuf oneChan) ++ replicate 2 None, st2), [], [])
       /\ self st2 = self stOne
       /\ maps st2 = maps stOne
       /\ chans st2
          = <[MsgCh h1 := {| chBuf := []; chCap := 1024; chClosed := false |}]>
              (chans stOne).
Proof.
  split; [reflexivity|].
  apply (@ReadFrom_queue_order deps env h1 oneChan 2 stOne [] eq_refl).
Defined.

Lemma ReadFrom_after_Close_witness :
  (Inv stOne
   /\ hStream h1 = Some {| qsStream := Some O |}
   /\ mapAt stOne (sessionMap (CloseFunc h1)) !! cfSessionID (CloseFunc h1)
      = Some (MsgCh h1)
   /\ chans stOne !! MsgCh h1 = Some oneChan)
  /\ exists (e : option error) (st2 : State),
       outcome (run (hyUDPConn_Close h1 stOne) []) = Done (e, st2)
       /\ forall w1 : World,
            exists st3 : State,
              run (readMany (length (chBuf oneChan) + 2) h1 st2) w1
                = (Done (map delivered (chBuf oneChan)
                         ++ replicate 2 (Some ([], EmptyString, Some ErrClosed)), st3),
                   w1, []).
Proof.
  split; [split; [exact stOne_Inv | repeat split; reflexivity]|].
  apply (@ReadFrom_after_Close deps env h1 O oneChan 2 stOne [] stOne_Inv
           eq_refl eq_refl eq_refl).
Defined.

Lemma DialUDP_datagram_ReadFrom_witness :
  (outcome (run (DialUDP st0) []) = Done ((Some h1, None), st1)
   /\ handle (ReceiveMessage O) oneThenError
      = (Ok (packUDPMessage dgram), [Fail (ErrPlain "connection closed")])
   /\ unpackUDPMessage (packUDPMessage dgram) = Some dgram
   /\ Feed (udpDefragger (self st1)) dgram = (∅, Some dgram)
   /\ SessionID dgram = UDPSessionID h1)
  /\ delivered dgram = Some ([Byte.x01; Byte.x02], "1.2.3.4:53"%string, None)
  /\ exists st2 : State,
       run (handleMessageIter O st1) oneThenError
         = (Done (true, st2), [Fail (ErrPlain "connection closed")],
            [Ev (ReceiveMessage O) (Ok (packUDPMessage dgram))])
       /\ forall w3 : World,
            exists st3 : State,
              run (ReadFrom h1 st2) w3 = (Done (delivered dgram, st3), w3, []).
Proof.
  split; [repeat split; reflexivity|]. split; [reflexivity|].
  apply (@DialUDP_datagram_ReadFrom deps env st0 st1 [] oneThenError
           [Fail (ErrPlain "connection closed")] h1 O (packUDPMessage dgram)
           dgram dgram ∅ eq_refl eq_refl eq_refl eq_refl eq_refl).
Defined.

Lemma st0_Bounded : Bounded st0.
Proof. intros ch c H. discriminate H. Qed.

Lemma queues_stay_bounded_witness :
  (Bounded st0 /\ outcome (run (performAll busy st0) []) = Done (tt, stBusy))
  /\ Bounded stBusy.
Proof.
  split; [split; [exact st0_Bounded | reflexivity]|].
  apply (@queues_stay_bounded deps env busy st0 stBusy [] st0_Bounded eq_refl).
Defined.

Lemma closed_channels_stay_closed_witness :
  outcome (run (performAll [OpDialUDP] st5) []) = Done (tt, st6)
  /\ keepsClosed st5 st6.
Proof.
  split; [reflexivity|].
  apply (@closed_channels_stay_closed deps env [OpDialUDP] st5 st6 [] eq_refl).
Defined.

Lemma busy_usable : Forall usableOp busy.
Proof. repeat constructor; cbn; eauto. Qed.

Lemma connected_client_never_panics_witness :
  (Connected st0 /\ Forall usableOp busy
   /\ countEv callsBack (trace (run (performAll busy st0) [])) = O)
  /\ exists st1 : State,
       outcome (run (performAll busy st0) []) = Done (tt, st1) /\ Connected st1.
Proof.
  split; [split; [exact st0_Connected | split; [exact busy_usable | reflexivity]]|].
  apply (@connected_client_never_panics deps env busy st0 [] st0_Connected busy_usable).
  reflexivity.
Defined.

Lemma reconnect_abandons_sessions_witness :
  (outcome (run (connect st1) []) = Done (None, st3)
   /\ outcome (run (handleMessage 2 O st3) oneThenError) = Done (LoopExit, st3'))
  /\ chans st3' = chans st3 /\ maps st3' = maps st3.
Proof.
  split; [split; reflexivity|].
  apply (@reconnect_abandons_sessions deps env st1 st3 st3' [] oneThenError O 2
           LoopExit eq_refl eq_refl).
Defined.

Lemma Client_Close_keeps_sessions_witness :
  (quicConn (self st1) = Some O /\ pktConn (self st1) = Some O
   /\ chans st1 !! MsgCh h1 = Some {| chBuf := []; chCap := 1024; chClosed := false |})
  /\ run (Close st1) []
     = (Done (None, {| self := withClosed true (self st1);
                       maps := maps st1; chans := chans st1 |}), [],
        [Ev (QErrorSend qErrorGeneric O) None; Ev (PktConnClose O) None])
  /\ run (ReadFrom h1 {| self := withClosed true (self st1);
                         maps := maps st1; chans := chans st1 |}) []
     = (Done (None, {| self := withClosed true (self st1);
                       maps := maps st1; chans := chans st1 |}), [], []).
Proof.
  split; [repeat split; reflexivity|].
  destruct (@Client_Close_keeps_sessions deps env st1 [] O O eq_refl eq_refl)
    as [HC HR].
  split; [exact HC|].
  apply (HR h1 {| chBuf := []; chCap := 1024; chClosed := false |} []); reflexivity.
Defined.
End MoreWitnesses.
